(** * Dialogue runtime: identifiers, variable store, asset generation and
      flow player

    A shallow embedding of the Unreal plugin sources
    (DialogueTypes.h, DialogueGlobalVariables.h, DialoguePin.h,
    DialogueNode.h, DialogueFlowPlayer.h, DialogueAssetGenerator.cpp)
    together with the properties stated for them.

    Machine integers are [Z] with the wrap-around written out, [FString]
    is [string], [TArray] is [list] and [TMap] is [gmap]. *)

From Stdlib Require Import ZArith String Ascii List Bool Lia.
From stdpp Require Import gmap strings list.

Local Open Scope string_scope.
Local Open Scope Z_scope.

(* ===================================================================== *)
(** * Part I. Definitions                                                 *)
(* ===================================================================== *)

(** ** FString helpers used by the sources *)

Module FStr.

(** [FString::Len]. *)
Definition Len (s : string) : Z := Z.of_nat (String.length s).

(** First [n] characters; the whole string when it is shorter. *)
Fixpoint take (n : nat) (s : string) : string :=
  match n, s with
  | S n', String c r => String c (take n' r)
  | _, _ => EmptyString
  end.

(** The string without its first [n] characters. *)
Fixpoint drop (n : nat) (s : string) : string :=
  match n, s with
  | S n', String _ r => drop n' r
  | _, _ => s
  end.

(** [FString::Left(Count)]: the leftmost [Count] characters. *)
Definition Left (Count : Z) (s : string) : string :=
  take (Z.to_nat Count) s.

(** [FString::Right(Count)]: the rightmost [Count] characters. *)
Definition Right (Count : Z) (s : string) : string :=
  drop (String.length s - Z.to_nat Count) s.

Definition is_char (a b : ascii) : bool := Ascii.eqb a b.

(** [Str.Replace] of the text [0x] by the empty text: every occurrence of the two
    characters is removed, scanning from the left.  [FString::Replace]
    searches with [ESearchCase::IgnoreCase] unless told otherwise, so
    ["0X"] is removed as well. *)
Fixpoint Replace0x (s : string) : string :=
  match s with
  | String c1 t =>
      match t with
      | String c2 r =>
          if is_char c1 "0" && (is_char c2 "x" || is_char c2 "X")
          then Replace0x r
          else String c1 (Replace0x t)
      | EmptyString => s
      end
  | EmptyString => s
  end.

(** [count] copies of the character [c] in front of [s]. *)
Fixpoint pad (count : nat) (c : ascii) (s : string) : string :=
  match count with
  | O => s
  | S k => String c (pad k c s)
  end.

(** [FChar::ToLower] on the characters [A]-[Z]; every other character
    is left alone. *)
Definition lower_char (c : ascii) : ascii :=
  let n := N_of_ascii c in
  if (N.leb 65 n && N.leb n 90)%bool then ascii_of_N (n + 32) else c.

(** [FString::ToLower]. *)
Fixpoint ToLower (s : string) : string :=
  match s with
  | String c r => String (lower_char c) (ToLower r)
  | EmptyString => EmptyString
  end.

End FStr.

(** ** C runtime conversions behind [FString::Printf] and
       [FCString::Strtoui64] *)

Module CRT.

Definition UINT64_MOD : Z := 2 ^ 64.
Definition UINT64_MAX : Z := 2 ^ 64 - 1.

(** An [int64] argument read back as [unsigned long long]. *)
Definition to_uint64 (v : Z) : Z := v mod UINT64_MOD.

(** An [uint64] stored into an [int64] field (two's complement). *)
Definition to_int64 (u : Z) : Z :=
  let w := u mod UINT64_MOD in
  if w <? 2 ^ 63 then w else w - UINT64_MOD.

(** Digit table of the [%X] conversion. *)
Definition hex_upper (d : Z) : ascii :=
  match d with
  | 0 => "0" | 1 => "1" | 2 => "2" | 3 => "3"
  | 4 => "4" | 5 => "5" | 6 => "6" | 7 => "7"
  | 8 => "8" | 9 => "9" | 10 => "A" | 11 => "B"
  | 12 => "C" | 13 => "D" | 14 => "E" | 15 => "F"
  | _ => "?"
  end%char.

(** The digit loop of [%X]: [do { *--p = digit[u % 16]; u /= 16; }
    while (u);].  A 64-bit value has at most 16 digits, which bounds the
    loop. *)
Fixpoint hex_digits (fuel : nat) (u : Z) (acc : string) : string :=
  match fuel with
  | O => acc
  | S f =>
      let acc' := String (hex_upper (u mod 16)) acc in
      if u / 16 =? 0 then acc' else hex_digits f (u / 16) acc'
  end.

(** [%016llX]: upper-case hexadecimal, zero-padded to at least 16
    characters. *)
Definition Printf_016llX (v : Z) : string :=
  let digits := hex_digits 16 (to_uint64 v) EmptyString in
  FStr.pad (16 - String.length digits) "0"%char digits.

Definition code (c : ascii) : Z := Z.of_N (N_of_ascii c).

(** Value of a character as a base-16 digit, either case. *)
Definition hex_value (c : ascii) : option Z :=
  let n := code c in
  if (48 <=? n) && (n <=? 57) then Some (n - 48)
  else if (65 <=? n) && (n <=? 70) then Some (n - 55)
  else if (97 <=? n) && (n <=? 102) then Some (n - 87)
  else None.

(** [isspace] in the C locale. *)
Definition is_space (c : ascii) : bool :=
  let n := code c in (n =? 32) || ((9 <=? n) && (n <=? 13)).

Fixpoint skip_space (s : string) : string :=
  match s with
  | String c r => if is_space c then skip_space r else s
  | EmptyString => s
  end.

(** Accumulates digits until the first character that is not one;
    an overflowing value sticks at [ULLONG_MAX]. *)
Fixpoint parse_hex (s : string) (acc : Z) : Z :=
  match s with
  | String c r =>
      match hex_value c with
      | Some d =>
          let v := acc * 16 + d in
          parse_hex r (if v <? UINT64_MOD then v else UINT64_MAX)
      | None => acc
      end
  | EmptyString => acc
  end.

(** The optional ["0x"]/["0X"] that base 16 accepts in front of the
    digits; it is only a prefix when a digit follows. *)
Definition skip_prefix (s : string) : string :=
  match s with
  | String c1 (String c2 (String c3 r)) =>
      if FStr.is_char c1 "0" && (FStr.is_char c2 "x" || FStr.is_char c2 "X")
         && (match hex_value c3 with Some _ => true | None => false end)
      then String c3 r else s
  | _ => s
  end.

(** [FCString::Strtoui64(Str, nullptr, 16)], that is [strtoull] with
    base 16: white space, an optional sign, the optional prefix, digits. *)
Definition Strtoui64_16 (s : string) : Z :=
  let s1 := skip_space s in
  match s1 with
  | String c r =>
      if FStr.is_char c "-" then (- parse_hex (skip_prefix r) 0) mod UINT64_MOD
      else if FStr.is_char c "+" then parse_hex (skip_prefix r) 0
      else parse_hex (skip_prefix s1) 0
  | EmptyString => 0
  end.

(** The [n] low hexadecimal digits of [u], most significant first, in
    front of [acc]: what a fixed-width conversion writes. *)
Fixpoint fixed_hex (n : nat) (u : Z) (acc : string) : string :=
  match n with
  | O => acc
  | S m => fixed_hex m (u / 16) (String (hex_upper (u mod 16)) acc)
  end.

(** One of the characters [0-9A-F]. *)
Definition is_upper_hex (c : ascii) : bool :=
  let n := code c in
  ((48 <=? n) && (n <=? 57)) || ((65 <=? n) && (n <=? 70)).

Fixpoint all_upper_hex (s : string) : bool :=
  match s with
  | String c r => is_upper_hex c && all_upper_hex r
  | EmptyString => true
  end.

End CRT.

(** ** DialogueTypes.h *)

(** [FDialogueId]: a 128-bit identifier kept as two [int64] halves. *)
Record FDialogueId : Type := mkDialogueId {
  Low : Z;
  High : Z
}.

Definition int64_range (v : Z) : Prop := - 2 ^ 63 <= v < 2 ^ 63.

(** Both halves are representable [int64] values. *)
Definition FDialogueId_wf (id : FDialogueId) : Prop :=
  int64_range (Low id) /\ int64_range (High id).

Definition FDialogueId_IsValid (id : FDialogueId) : bool :=
  negb (Low id =? 0) || negb (High id =? 0).

(** [FString::Printf(TEXT("0x%016llX%016llX"), High, Low)]. *)
Definition ToString (id : FDialogueId) : string :=
  "0x" ++ CRT.Printf_016llX (High id) ++ CRT.Printf_016llX (Low id).

(** [FDialogueId::FromString]. *)
Definition FromString (Str : string) : FDialogueId :=
  let Clean := FStr.Replace0x Str in
  if 32 <=? FStr.Len Clean then
    let HighStr := FStr.Left 16 Clean in
    let LowStr := FStr.Right 16 Clean in
    {| Low := CRT.to_int64 (CRT.Strtoui64_16 LowStr);
       High := CRT.to_int64 (CRT.Strtoui64_16 HighStr) |}
  else {| Low := 0; High := 0 |}.

(** From here on [++] is list concatenation. *)
Local Open Scope list_scope.

(** [EDialoguePausableType]: the node-kind tags the player can pause
    on. *)
Inductive EDialoguePausableType : Type :=
  | PT_None | PT_FlowFragment | PT_Dialogue | PT_DialogueFragment
  | PT_Hub | PT_Jump | PT_Condition | PT_Instruction | PT_Pin.

#[global] Instance EDialoguePausableType_eq_dec : EqDecision EDialoguePausableType.
Proof. solve_decision. Defined.

(** The enumerator values of [EDialoguePausableType]: [None = 0] and
    [1 << 0] to [1 << 7]. *)
Definition PausableType_value (t : EDialoguePausableType) : Z :=
  match t with
  | PT_None => 0
  | PT_FlowFragment => Z.shiftl 1 0
  | PT_Dialogue => Z.shiftl 1 1
  | PT_DialogueFragment => Z.shiftl 1 2
  | PT_Hub => Z.shiftl 1 3
  | PT_Jump => Z.shiftl 1 4
  | PT_Condition => Z.shiftl 1 5
  | PT_Instruction => Z.shiftl 1 6
  | PT_Pin => Z.shiftl 1 7
  end.

(** An [int] stored into a [uint8] member. *)
Definition to_uint8 (v : Z) : Z := v mod 2 ^ 8.

(** [1 << (uint8)Type], the term the initialiser of [PauseOn] is made
    of.  The shift is on an [int]; the initialiser uses it for shift
    counts 1, 2 and 4 only. *)
Definition shifted_bit (t : EDialoguePausableType) : Z :=
  Z.shiftl 1 (to_uint8 (PausableType_value t)).

(** The initialiser of [UDialogueFlowPlayer::PauseOn]
    (DialogueFlowPlayer.h). *)
Definition DefaultPauseOn : Z :=
  to_uint8 (Z.lor (Z.lor (shifted_bit PT_DialogueFragment)
                         (shifted_bit PT_Dialogue))
                  (shifted_bit PT_FlowFragment)).

(** The bits a mask shares with an enumerator, the test the operators
    of [ENUM_CLASS_FLAGS] are made for: [mask & value] is not zero. *)
Definition has_flag (mask : Z) (t : EDialoguePausableType) : bool :=
  negb (Z.land mask (PausableType_value t) =? 0).

(** [FDialogueScript]: an expression the script evaluator understands. *)
Record FDialogueScript : Type := mkScript {
  Expression : string;
  bIsCondition : bool
}.

(** ** DialogueGlobalVariables.h: the variable store *)

Module GlobalVariables.

(** [UDialogueBoolVariable], [UDialogueIntVariable] and
    [UDialogueStringVariable]: the name, the live [Value] and the
    [ShadowStack] of saved values (most recent first). *)
Inductive UDialogueVariable : Type :=
  | BoolVariable (VariableName : string) (Value : bool) (ShadowStack : list bool)
  | IntVariable (VariableName : string) (Value : Z) (ShadowStack : list Z)
  | StringVariable (VariableName : string) (Value : string)
                   (ShadowStack : list string).

Record UDialogueVariableNamespace : Type := mkNamespace {
  Name : string;
  Variables : gmap string UDialogueVariable
}.

Record UDialogueGlobalVariables : Type := mkGlobalVariables {
  Namespaces : gmap string UDialogueVariableNamespace;
  ShadowLevel : Z
}.

(** Modelled from the spec: the body of [GetNamespace] is missing.  The
    store maps namespace names to namespaces. *)
Definition GetNamespace (s : UDialogueGlobalVariables) (Name : string)
  : option UDialogueVariableNamespace :=
  Namespaces s !! Name.

Fixpoint split_at_dot (s : string) : option (string * string) :=
  match s with
  | EmptyString => None
  | String c r =>
      if FStr.is_char c "." then Some (EmptyString, r)
      else match split_at_dot r with
           | Some (ns, v) => Some (String c ns, v)
           | None => None
           end
  end.

(** Modelled from the spec: the body of [ParseVariableName] is missing.
    A full name has the form [Namespace.Variable]; the name is split at
    its first dot and does not parse without one. *)
Definition ParseVariableName (FullName : string) : option (string * string) :=
  split_at_dot FullName.

(** Modelled from the spec: the body of [GetVariable] is missing.  The
    full name resolves when its namespace exists and holds the
    variable. *)
Definition GetVariable (s : UDialogueGlobalVariables) (FullName : string)
  : option UDialogueVariable :=
  match ParseVariableName FullName with
  | Some (ns, v) =>
      match GetNamespace s ns with
      | Some n => Variables n !! v
      | None => None
      end
  | None => None
  end.

(** Modelled from the spec: part of the setters, whose bodies are
    missing.  Replaces the variable a full name resolves to. *)
Definition store_variable (s : UDialogueGlobalVariables) (FullName : string)
    (var : UDialogueVariable) : UDialogueGlobalVariables :=
  match ParseVariableName FullName with
  | Some (ns, v) =>
      match GetNamespace s ns with
      | Some n =>
          {| Namespaces :=
               <[ns := {| Name := Name n;
                          Variables := <[v := var]> (Variables n) |}]>
                 (Namespaces s);
             ShadowLevel := ShadowLevel s |}
      | None => s
      end
  | None => s
  end.

(** Modelled from the spec: the bodies of [SetBool], [SetInt] and
    [SetString] are missing.  A set writes the live value directly,
    whatever the shadow level; when the name does not resolve to a
    variable of the type, nothing is written.  The setters are declared
    [void]: the store after the call is all they give.  The getters
    [GetBool], [GetInt] and [GetString] are declared with plain result
    types and their bodies are missing too; a variable is read through
    [GetVariable], which gives the variable or nothing, and its live
    [Value]. *)
Definition SetBool (FullName : string) (Value : bool)
    (s : UDialogueGlobalVariables) : UDialogueGlobalVariables :=
  match GetVariable s FullName with
  | Some (BoolVariable n _ st) =>
      store_variable s FullName (BoolVariable n Value st)
  | _ => s
  end.

Definition SetInt (FullName : string) (Value : Z)
    (s : UDialogueGlobalVariables) : UDialogueGlobalVariables :=
  match GetVariable s FullName with
  | Some (IntVariable n _ st) =>
      store_variable s FullName (IntVariable n Value st)
  | _ => s
  end.

Definition SetString (FullName : string) (Value : string)
    (s : UDialogueGlobalVariables) : UDialogueGlobalVariables :=
  match GetVariable s FullName with
  | Some (StringVariable n _ st) =>
      store_variable s FullName (StringVariable n Value st)
  | _ => s
  end.

(** *** Shadow state *)

(** Modelled from the spec: part of [PushState], whose body is missing.
    The current value goes on top of the shadow stack. *)
Definition push_variable (var : UDialogueVariable) : UDialogueVariable :=
  match var with
  | BoolVariable n x st => BoolVariable n x (x :: st)
  | IntVariable n x st => IntVariable n x (x :: st)
  | StringVariable n x st => StringVariable n x (x :: st)
  end.

(** Modelled from the spec: part of [PopState], whose body is missing.
    The value on top of the shadow stack becomes the live value again; a
    variable without a saved value has nothing to restore. *)
Definition pop_variable (var : UDialogueVariable) : UDialogueVariable :=
  match var with
  | BoolVariable n _ (y :: st) => BoolVariable n y st
  | IntVariable n _ (y :: st) => IntVariable n y st
  | StringVariable n _ (y :: st) => StringVariable n y st
  | _ => var
  end.

Definition map_namespace (f : UDialogueVariable -> UDialogueVariable)
    (n : UDialogueVariableNamespace) : UDialogueVariableNamespace :=
  {| Name := Name n; Variables := f <$> Variables n |}.

(** Modelled from the spec: the body of [PushState] is missing.
    Pushing increments the shadow level and saves the current value of
    every variable on that variable's shadow stack.  The spec gives the
    [Level] argument of the declaration no role. *)
Definition PushState (Level : Z) (s : UDialogueGlobalVariables)
  : UDialogueGlobalVariables :=
  {| Namespaces := map_namespace push_variable <$> Namespaces s;
     ShadowLevel := ShadowLevel s + 1 |}.

(** Modelled from the spec: the body of [PopState] is missing.  Popping
    restores, for every variable, the value saved at the level being
    closed and decrements the shadow level. *)
Definition PopState (Level : Z) (s : UDialogueGlobalVariables)
  : UDialogueGlobalVariables :=
  {| Namespaces := map_namespace pop_variable <$> Namespaces s;
     ShadowLevel := ShadowLevel s - 1 |}.

(** *** Sequences of store operations *)

Inductive StoreOp : Type :=
  | OpSetBool (FullName : string) (Value : bool)
  | OpSetInt (FullName : string) (Value : Z)
  | OpSetString (FullName : string) (Value : string)
  | OpPushState (Level : Z)
  | OpPopState (Level : Z).

Definition apply_op (s : UDialogueGlobalVariables) (op : StoreOp)
  : UDialogueGlobalVariables :=
  match op with
  | OpSetBool n v => SetBool n v s
  | OpSetInt n v => SetInt n v s
  | OpSetString n v => SetString n v s
  | OpPushState l => PushState l s
  | OpPopState l => PopState l s
  end.

Definition run (ops : list StoreOp) (s : UDialogueGlobalVariables)
  : UDialogueGlobalVariables :=
  fold_left apply_op ops s.

(** [balanced d ops]: with [d] pushes open, every pop in [ops] closes an
    open push and none is left open at the end. *)
Fixpoint balanced (d : nat) (ops : list StoreOp) : bool :=
  match ops with
  | [] => Nat.eqb d 0
  | OpPushState _ :: r => balanced (S d) r
  | OpPopState _ :: r =>
      match d with
      | O => false
      | S d' => balanced d' r
      end
  | _ :: r => balanced d r
  end.

Definition is_set (op : StoreOp) : bool :=
  match op with
  | OpPushState _ | OpPopState _ => false
  | _ => true
  end.

(** The grammar of balanced sequences: sets, and bracketed balanced
    sequences, in any order. *)
Inductive Balanced : list StoreOp -> Prop :=
  | Balanced_nil : Balanced []
  | Balanced_set op r : is_set op = true -> Balanced r -> Balanced (op :: r)
  | Balanced_shadow l l' body r :
      Balanced body -> Balanced r ->
      Balanced (OpPushState l :: (body ++ OpPopState l' :: r)%list).

(** [Segments d ops]: [ops] is [d] balanced sequences each closed by a
    pop, followed by a balanced sequence. *)
Fixpoint Segments (d : nat) (ops : list StoreOp) : Prop :=
  match d with
  | O => Balanced ops
  | S d' => exists b l r, ops = (b ++ OpPopState l :: r)%list /\ Balanced b /\
                          Segments d' r
  end.

(** The store with every live value blanked: what is left is its shape,
    the shadow stacks and the shadow level. *)
Definition erase_variable (var : UDialogueVariable) : UDialogueVariable :=
  match var with
  | BoolVariable n _ st => BoolVariable n false st
  | IntVariable n _ st => IntVariable n 0 st
  | StringVariable n _ st => StringVariable n EmptyString st
  end.

Definition frame (s : UDialogueGlobalVariables) : UDialogueGlobalVariables :=
  {| Namespaces := map_namespace erase_variable <$> Namespaces s;
     ShadowLevel := ShadowLevel s |}.

(** A small store: namespace [Game] with an integer [Score], a boolean
    [Met] and a string [Title]. *)
Definition sample_store : UDialogueGlobalVariables :=
  {| Namespaces :=
       {[ "Game" :=
            {| Name := "Game";
               Variables :=
                 {[ "Score" := IntVariable "Game.Score" 3 [];
                    "Met" := BoolVariable "Game.Met" false [];
                    "Title" := StringVariable "Game.Title" "Squire" [] ]} |} ]};
     ShadowLevel := 0 |}.

End GlobalVariables.

(** ** DialoguePin.h and DialogueNode.h: the graph *)

(** [UDialogueConnection]: an edge to one input pin of a node. *)
Module Connection.
Record UDialogueConnection : Type := mk {
  TargetNodeId : string;
  TargetPinIndex : Z
}.
End Connection.

(** [UDialogueInputPin]: a pin whose [Script] gates entry. *)
Module InputPin.
Record UDialogueInputPin : Type := mk {
  Id : string;
  OwnerId : string;
  Index : Z;
  Script : FDialogueScript
}.
End InputPin.

(** [UDialogueOutputPin]: a pin with its outgoing [Connections] and the
    [Script] run on exit. *)
Module OutputPin.
Record UDialogueOutputPin : Type := mk {
  Id : string;
  OwnerId : string;
  Index : Z;
  Connections : list Connection.UDialogueConnection;
  Script : FDialogueScript;
  Label : string
}.

(** [Connections.Add(Connection)]. *)
Definition AddConnection (c : Connection.UDialogueConnection)
    (pin : UDialogueOutputPin) : UDialogueOutputPin :=
  {| Id := Id pin; OwnerId := OwnerId pin; Index := Index pin;
     Connections := Connections pin ++ [c];
     Script := Script pin; Label := Label pin |}.
End OutputPin.

(** The concrete node classes with the members traversal reads. *)
Inductive NodeKind : Type :=
  | Dialogue (SpeakerId : string) (bAutoTransition : bool)
  | DialogueFragment (SpeakerId : string) (bAutoTransition : bool)
  | FlowFragment (DisplayName : string)
  | Hub (DisplayName : string)
  | Condition (Script : FDialogueScript)
  | Instruction (Script : FDialogueScript)
  | Jump (TargetNodeId : string) (TargetPinIndex : Z).

(** [UDialogueNode]: an object with ordered input and output pins. *)
Module Node.
Record UDialogueNode : Type := mk {
  Id : string;
  TechnicalName : string;
  InputPins : list InputPin.UDialogueInputPin;
  OutputPins : list OutputPin.UDialogueOutputPin;
  Kind : NodeKind
}.

(** The [GetPausableType] overrides. *)
Definition GetPausableType (n : UDialogueNode) : EDialoguePausableType :=
  match Kind n with
  | Dialogue _ _ => PT_Dialogue
  | DialogueFragment _ _ => PT_DialogueFragment
  | FlowFragment _ => PT_FlowFragment
  | Hub _ => PT_Hub
  | Condition _ => PT_Condition
  | Instruction _ => PT_Instruction
  | Jump _ _ => PT_Jump
  end.

Definition set_OutputPins (pins : list OutputPin.UDialogueOutputPin)
    (n : UDialogueNode) : UDialogueNode :=
  {| Id := Id n; TechnicalName := TechnicalName n; InputPins := InputPins n;
     OutputPins := pins; Kind := Kind n |}.
End Node.

(** ** DialogueAssetGenerator.cpp: connecting the generated objects *)

Module AssetGenerator.

(** [FDialogueConnectionDef] (DialogueImportData.h). *)
Record FDialogueConnectionDef : Type := mkConnectionDef {
  Id : string;
  SourceId : string;
  SourcePin : Z;
  TargetId : string;
  TargetPin : Z
}.

(** What [ObjectsById] holds: the generated characters and the objects
    of the packages, which are nodes unless their type was unknown. *)
Inductive UDialogueObject : Type :=
  | NodeObject (n : Node.UDialogueNode)
  | CharacterObject (Id TechnicalName : string)
  | PlainObject (Id TechnicalName : string).

(** [ObjectsById] is a [TMap<FString, UDialogueObject*>], whose keys
    compare without regard to letter case ([FString::operator==] and the
    hash of an [FString] both ignore it).  The table is kept under the
    lower-case form of its keys: [Find] and [Add] are the two operations
    of the map the generator uses. *)
Definition key (id : string) : string := FStr.ToLower id.

Definition Find {V : Type} (m : gmap string V) (id : string) : option V :=
  m !! key id.

Definition Add {V : Type} (id : string) (v : V) (m : gmap string V)
  : gmap string V :=
  <[key id := v]> m.

(** [Cast<UDialogueNode>]. *)
Definition CastNode (o : UDialogueObject) : option Node.UDialogueNode :=
  match o with
  | NodeObject n => Some n
  | _ => None
  end.

(** One turn of the loop of [ProcessConnections].  The result is the
    object table after the turn; [None] stands for the range check of
    [TArray::operator[]] stopping the program.  The pins of a generated
    node are the objects [GenerateObject] created, so the test
    [if (OutputPin)] always passes.  The node written to is the one the
    table holds under [SourceId]. *)
Definition ProcessConnection (ConnDef : FDialogueConnectionDef)
    (ObjectsById : gmap string UDialogueObject)
  : option (gmap string UDialogueObject) :=
  match Find ObjectsById (SourceId ConnDef),
        Find ObjectsById (TargetId ConnDef) with
  | Some Source, Some Target =>
      match CastNode Source, CastNode Target with
      | Some SourceNode, Some TargetNode =>
          if SourcePin ConnDef <? Z.of_nat (length (Node.OutputPins SourceNode))
          then
            if SourcePin ConnDef <? 0 then None
            else
              let conn := {| Connection.TargetNodeId := TargetId ConnDef;
                             Connection.TargetPinIndex := TargetPin ConnDef |} in
              let pins := alter (OutputPin.AddConnection conn)
                                (Z.to_nat (SourcePin ConnDef))
                                (Node.OutputPins SourceNode) in
              Some (Add (SourceId ConnDef)
                      (NodeObject (Node.set_OutputPins pins SourceNode))
                      ObjectsById)
          else Some ObjectsById
      | _, _ => Some ObjectsById
      end
  | _, _ => Some ObjectsById
  end.

(** [FDialogueAssetGenerator::ProcessConnections]: the definitions are
    handled in order. *)
Fixpoint ProcessConnections (Connections : list FDialogueConnectionDef)
    (ObjectsById : gmap string UDialogueObject)
  : option (gmap string UDialogueObject) :=
  match Connections with
  | [] => Some ObjectsById
  | ConnDef :: rest =>
      match ProcessConnection ConnDef ObjectsById with
      | Some objs => ProcessConnections rest objs
      | None => None
      end
  end.

(** The connection a definition asks for. *)
Definition connection_of (ConnDef : FDialogueConnectionDef)
  : Connection.UDialogueConnection :=
  {| Connection.TargetNodeId := TargetId ConnDef;
     Connection.TargetPinIndex := TargetPin ConnDef |}.

(** The generated node an id resolves to, if any. *)
Definition node_of (objs : gmap string UDialogueObject) (id : string)
  : option Node.UDialogueNode :=
  match Find objs id with
  | Some o => CastNode o
  | None => None
  end.

(** *** What a run of [ProcessConnections] depends on and leaves alone *)

(** Whether [ObjectsById.Find] and [Cast<UDialogueNode>] both succeed
    for an id. *)
Definition is_node (objs : gmap string UDialogueObject) (id : string) : bool :=
  match node_of objs id with Some _ => true | None => false end.

(** The tests of the loop body before the array access: both ids
    resolve to nodes and the source pin index is below the number of
    output pins of the source. *)
Definition passes_tests (objs : gmap string UDialogueObject)
    (ConnDef : FDialogueConnectionDef) : bool :=
  match node_of objs (SourceId ConnDef), node_of objs (TargetId ConnDef) with
  | Some SourceNode, Some _ =>
      SourcePin ConnDef <? Z.of_nat (length (Node.OutputPins SourceNode))
  | _, _ => false
  end.

(** The definition names output pin [k] of the node [id] as its source;
    ids are compared as the table compares its keys. *)
Definition addresses (id : string) (k : nat) (ConnDef : FDialogueConnectionDef)
  : bool :=
  bool_decide (key (SourceId ConnDef) = key id)
  && (SourcePin ConnDef =? Z.of_nat k).

(** The connections of output pin [k] of the node under [id]. *)
Definition connections_at (objs : gmap string UDialogueObject) (id : string)
    (k : nat) : option (list Connection.UDialogueConnection) :=
  match node_of objs id with
  | Some n =>
      match Node.OutputPins n !! k with
      | Some pin => Some (OutputPin.Connections pin)
      | None => None
      end
  | None => None
  end.

(** [pin'] is [pin] with connections added at the end. *)
Definition pin_extends (pin pin' : OutputPin.UDialogueOutputPin) : Prop :=
  OutputPin.Id pin' = OutputPin.Id pin /\
  OutputPin.OwnerId pin' = OutputPin.OwnerId pin /\
  OutputPin.Index pin' = OutputPin.Index pin /\
  OutputPin.Script pin' = OutputPin.Script pin /\
  OutputPin.Label pin' = OutputPin.Label pin /\
  exists added, OutputPin.Connections pin' = OutputPin.Connections pin ++ added.

(** [n'] is [n] with connections added to its output pins. *)
Definition node_extends (n n' : Node.UDialogueNode) : Prop :=
  Node.Id n' = Node.Id n /\
  Node.TechnicalName n' = Node.TechnicalName n /\
  Node.InputPins n' = Node.InputPins n /\
  Node.Kind n' = Node.Kind n /\
  Forall2 pin_extends (Node.OutputPins n) (Node.OutputPins n').

(** An object that is no node is the same; a node is extended. *)
Definition object_extends (o o' : UDialogueObject) : Prop :=
  match o, o' with
  | NodeObject n, NodeObject n' => node_extends n n'
  | _, _ => o' = o
  end.

(** Sample table: a hub [A] with one output pin, a dialogue [B] with one
    input pin, and a character [Hero]. *)
Definition no_script : FDialogueScript :=
  {| Expression := EmptyString; bIsCondition := false |}.

Definition pin_A0 : OutputPin.UDialogueOutputPin :=
  {| OutputPin.Id := "A.out0"; OutputPin.OwnerId := "A"; OutputPin.Index := 0;
     OutputPin.Connections := []; OutputPin.Script := no_script;
     OutputPin.Label := EmptyString |}.

Definition node_A : Node.UDialogueNode :=
  {| Node.Id := "A"; Node.TechnicalName := "Hub_A"; Node.InputPins := [];
     Node.OutputPins := [pin_A0]; Node.Kind := Hub EmptyString |}.

Definition node_B : Node.UDialogueNode :=
  {| Node.Id := "B"; Node.TechnicalName := "Dlg_B";
     Node.InputPins :=
       [ {| InputPin.Id := "B.in0"; InputPin.OwnerId := "B";
            InputPin.Index := 0; InputPin.Script := no_script |} ];
     Node.OutputPins := []; Node.Kind := Dialogue "Hero" false |}.

Definition sample_objects : gmap string UDialogueObject :=
  Add "A" (NodeObject node_A)
    (Add "B" (NodeObject node_B)
       (Add "Hero" (CharacterObject "Hero" "Chr_Hero") ∅)).

(** A definition whose target pin index is no input pin of [B]. *)
Definition def_bad_target_pin : FDialogueConnectionDef :=
  {| Id := "c1"; SourceId := "A"; SourcePin := 0;
     TargetId := "B"; TargetPin := 5 |}.

(** A definition whose target id is not in the table. *)
Definition def_dangling : FDialogueConnectionDef :=
  {| Id := "c2"; SourceId := "A"; SourcePin := 0;
     TargetId := "Z"; TargetPin := 0 |}.

(** A definition that resolves. *)
Definition def_good : FDialogueConnectionDef :=
  {| Id := "c3"; SourceId := "A"; SourcePin := 0;
     TargetId := "B"; TargetPin := 0 |}.

(** A definition that spells both ids in lower case. *)
Definition def_lower_case : FDialogueConnectionDef :=
  {| Id := "c5"; SourceId := "a"; SourcePin := 0;
     TargetId := "b"; TargetPin := 0 |}.

End AssetGenerator.

(** ** DialogueAssetGenerator.cpp: generating the objects *)

Module Generator.

(** [FString::operator==], which ignores case. *)
Definition FString_eq (a b : string) : bool :=
  String.eqb (FStr.ToLower a) (FStr.ToLower b).

(** The reading functions of the engine's [FJsonObject], with the
    conversions between value kinds the engine makes: a field read as an
    object, as a string, as a [bool] and as an [int32]. *)
Record FJsonReader (Json : Type) : Type := mkReader {
  TryGetObjectField : Json -> string -> option Json;
  TryGetStringField : Json -> string -> option string;
  TryGetBoolField : Json -> string -> option bool;
  TryGetNumberField : Json -> string -> option Z
}.
Arguments TryGetObjectField {Json} _ _ _.
Arguments TryGetStringField {Json} _ _ _.
Arguments TryGetBoolField {Json} _ _ _.
Arguments TryGetNumberField {Json} _ _ _.

(** [FDialogueObjectDef] (DialogueImportData.h); [Properties] is a shared
    pointer that may be invalid. *)
Record FDialogueObjectDef (Json : Type) : Type := mkObjectDef {
  Id : string;
  TechnicalName : string;
  ObjectType : string;
  Properties : option Json;
  InputPinIds : list string;
  OutputPinIds : list string
}.
Arguments Id {Json} _.
Arguments TechnicalName {Json} _.
Arguments ObjectType {Json} _.
Arguments Properties {Json} _.
Arguments InputPinIds {Json} _.
Arguments OutputPinIds {Json} _.
Arguments mkObjectDef {Json} _ _ _ _ _ _.

(** [FDialogueCharacterDef]. *)
Record FDialogueCharacterDef : Type := mkCharacterDef {
  CharId : string;
  CharTechnicalName : string;
  CharDisplayName : string;
  CharColor : string
}.

(** [FDialoguePackageDef]. *)
Record FDialoguePackageDef (Json : Type) : Type := mkPackageDef {
  Name : string;
  bIsDefaultPackage : bool;
  Objects : list (FDialogueObjectDef Json);
  Connections : list AssetGenerator.FDialogueConnectionDef
}.
Arguments Name {Json} _.
Arguments bIsDefaultPackage {Json} _.
Arguments Objects {Json} _.
Arguments Connections {Json} _.
Arguments mkPackageDef {Json} _ _ _ _.

(** [UDialogueImportData], the members the generator reads:
    [Settings.GeneratedAssetsFolder], [Project.TechnicalName],
    [Characters] and [Packages]. *)
Record UDialogueImportData (Json : Type) : Type := mkImportData {
  GeneratedAssetsFolder : string;
  ProjectTechnicalName : string;
  Characters : list FDialogueCharacterDef;
  Packages : list (FDialoguePackageDef Json)
}.
Arguments GeneratedAssetsFolder {Json} _.
Arguments ProjectTechnicalName {Json} _.
Arguments Characters {Json} _.
Arguments Packages {Json} _.
Arguments mkImportData {Json} _ _ _ _.

(** [UDialoguePackage] as [GeneratePackage] returns it: [ObjectIds] are
    the ids of the objects in [Objects], in the order they were added.
    The objects themselves are the ones the table [ObjectsById] holds
    when no later definition has taken their id. *)
Record UDialoguePackage : Type := mkPackage {
  PackageName : string;
  PackageIsDefault : bool;
  ObjectIds : list string
}.

(** [UDialoguePackage::GetObjectCount]. *)
Definition GetObjectCount (p : UDialoguePackage) : Z :=
  Z.of_nat (length (ObjectIds p)).

(** What the engine answers: whether [CreatePackage] gives a package for
    a path, and whether [UPackage::Save] succeeds for the asset at a
    path.  [NewObject] does not return a null pointer. *)
Record Engine : Type := mkEngine {
  CreateAssetPackage : string -> bool;
  SaveAsset : string -> bool
}.

(** The members of [FDialogueAssetGenerator].  The generated packages
    are kept by name and the generated database by its asset path. *)
Record FDialogueAssetGenerator : Type := mkGenerator {
  GeneratedAssetsBasePath : string;
  GeneratedDatabase : option string;
  GeneratedPackages : list string;
  ObjectsById : gmap string AssetGenerator.UDialogueObject
}.

(** [FDialogueAssetGenerator::GetAssetPath]. *)
Definition GetAssetPath (BasePath AssetName SubFolder : string) : string :=
  match SubFolder with
  | EmptyString => BasePath ++ "/" ++ AssetName
  | _ => BasePath ++ "/" ++ SubFolder ++ "/" ++ AssetName
  end.

(** A default-constructed [FDialogueScript]. *)
Definition default_script : FDialogueScript :=
  {| Expression := EmptyString; bIsCondition := false |}.

(** The loops of [GenerateObject] that create the pins: pin [i] gets the
    [i]-th id, the id of the node as owner and [i] as index. *)
Definition create_input_pins (NodeId : string) (ids : list string)
  : list InputPin.UDialogueInputPin :=
  imap (fun i id => {| InputPin.Id := id; InputPin.OwnerId := NodeId;
                       InputPin.Index := Z.of_nat i;
                       InputPin.Script := default_script |}) ids.

Definition create_output_pins (NodeId : string) (ids : list string)
  : list OutputPin.UDialogueOutputPin :=
  imap (fun i id => {| OutputPin.Id := id; OutputPin.OwnerId := NodeId;
                       OutputPin.Index := Z.of_nat i;
                       OutputPin.Connections := [];
                       OutputPin.Script := default_script;
                       OutputPin.Label := EmptyString |}) ids.

Section Generation.

Context {Json : Type}.
Variable R : FJsonReader Json.
Variable U : Engine.

(** [Props->TryGetObjectField("data", Data)] behind
    [Properties.IsValid()]. *)
Definition data_of (ObjectDef : FDialogueObjectDef Json) : option Json :=
  match Properties ObjectDef with
  | Some Props => TryGetObjectField R Props "data"
  | None => None
  end.

(** A member that is assigned only when the field can be read. *)
Definition string_field (Data : option Json) (name : string)
    (default : string) : string :=
  match Data with
  | Some d => match TryGetStringField R d name with
              | Some v => v
              | None => default
              end
  | None => default
  end.

Definition bool_field (Data : option Json) (name : string)
    (default : bool) : bool :=
  match Data with
  | Some d => match TryGetBoolField R d name with
              | Some v => v
              | None => default
              end
  | None => default
  end.

Definition number_field (Data : option Json) (name : string)
    (default : Z) : Z :=
  match Data with
  | Some d => match TryGetNumberField R d name with
              | Some v => v
              | None => default
              end
  | None => default
  end.

(** The script of a condition or an instruction: both members are
    assigned when [data.script.expression] can be read. *)
Definition script_field (Data : option Json) (isCondition : bool)
  : FDialogueScript :=
  match Data with
  | Some d =>
      match TryGetObjectField R d "script" with
      | Some Script =>
          match TryGetStringField R Script "expression" with
          | Some e => {| Expression := e; bIsCondition := isCondition |}
          | None => default_script
          end
      | None => default_script
      end
  | None => default_script
  end.

(** The chain of comparisons on [ObjectDef.Type]: the node class that is
    created with the members read from the properties, or [None] for an
    unknown type.  The texts of a dialogue are [FText] members the node
    model does not carry. *)
Definition node_kind (ObjectDef : FDialogueObjectDef Json) : option NodeKind :=
  let Data := data_of ObjectDef in
  if FString_eq (ObjectType ObjectDef) "Dialogue" then
    Some (Dialogue (string_field Data "speaker" EmptyString)
                   (bool_field Data "autoTransition" false))
  else if FString_eq (ObjectType ObjectDef) "DialogueFragment" then
    Some (DialogueFragment (string_field Data "speaker" EmptyString) false)
  else if FString_eq (ObjectType ObjectDef) "Hub" then
    Some (Hub EmptyString)
  else if FString_eq (ObjectType ObjectDef) "Condition" then
    Some (Condition (script_field Data true))
  else if FString_eq (ObjectType ObjectDef) "Instruction" then
    Some (Instruction (script_field Data false))
  else if FString_eq (ObjectType ObjectDef) "Jump" then
    Some (Jump (string_field Data "targetNodeId" EmptyString)
               (number_field Data "targetPinIndex" 0))
  else if FString_eq (ObjectType ObjectDef) "FlowFragment" then
    Some (FlowFragment (string_field Data "displayName" EmptyString))
  else None.

(** [FDialogueAssetGenerator::GenerateObject].  [Package] is [None] for
    a null pointer. *)
Definition GenerateObject (ObjectDef : FDialogueObjectDef Json)
    (Package : option UDialoguePackage)
  : option AssetGenerator.UDialogueObject :=
  match Package with
  | None => None
  | Some _ =>
      match node_kind ObjectDef with
      | Some kind =>
          Some (AssetGenerator.NodeObject
                  {| Node.Id := Id ObjectDef;
                     Node.TechnicalName := TechnicalName ObjectDef;
                     Node.InputPins :=
                       create_input_pins (Id ObjectDef) (InputPinIds ObjectDef);
                     Node.OutputPins :=
                       create_output_pins (Id ObjectDef)
                         (OutputPinIds ObjectDef);
                     Node.Kind := kind |})
      | None =>
          Some (AssetGenerator.PlainObject (Id ObjectDef)
                  (TechnicalName ObjectDef))
      end
  end.

(** One turn of the loop of [GeneratePackage] over the object
    definitions. *)
Definition add_object
    (acc : UDialoguePackage * gmap string AssetGenerator.UDialogueObject)
    (ObjectDef : FDialogueObjectDef Json)
  : UDialoguePackage * gmap string AssetGenerator.UDialogueObject :=
  let '(DialoguePackage, objs) := acc in
  match GenerateObject ObjectDef (Some DialoguePackage) with
  | Some Object =>
      ({| PackageName := PackageName DialoguePackage;
          PackageIsDefault := PackageIsDefault DialoguePackage;
          ObjectIds := ObjectIds DialoguePackage ++ [Id ObjectDef] |},
       AssetGenerator.Add (Id ObjectDef) Object objs)
  | None => acc
  end.

(** [FDialogueAssetGenerator::GeneratePackage]: the package, or [None]
    for a null pointer, and the table afterwards.  The result of
    [SaveAsset] is not looked at. *)
Definition GeneratePackage (BasePath : string)
    (PackageDef : FDialoguePackageDef Json)
    (objs : gmap string AssetGenerator.UDialogueObject)
  : option UDialoguePackage * gmap string AssetGenerator.UDialogueObject :=
  let AssetPath :=
    GetAssetPath BasePath (Name PackageDef ++ "Package") "Packages" in
  if CreateAssetPackage U AssetPath then
    let '(DialoguePackage, objs') :=
      fold_left add_object (Objects PackageDef)
        ({| PackageName := Name PackageDef;
            PackageIsDefault := bIsDefaultPackage PackageDef;
            ObjectIds := [] |}, objs) in
    (Some DialoguePackage, objs')
  else (None, objs).

(** [FDialogueAssetGenerator::GenerateCharacter].  The display name and
    the colour are members the object table does not carry.  Each
    definition is taken to get an object of its own, as it does when the
    technical names of the characters differ. *)
Definition GenerateCharacter (BasePath : string)
    (CharacterDef : FDialogueCharacterDef)
  : option AssetGenerator.UDialogueObject :=
  let AssetPath :=
    GetAssetPath BasePath (CharTechnicalName CharacterDef) "Characters" in
  if CreateAssetPackage U AssetPath then
    Some (AssetGenerator.CharacterObject (CharId CharacterDef)
            (CharTechnicalName CharacterDef))
  else None.

(** [FDialogueAssetGenerator::GenerateDatabase]: the asset path of the
    database when the object was created, and the result. *)
Definition GenerateDatabase (BasePath : string)
    (ImportData : UDialogueImportData Json) : option string * bool :=
  let AssetPath :=
    GetAssetPath BasePath (ProjectTechnicalName ImportData ++ "Database")
      EmptyString in
  if CreateAssetPackage U AssetPath
  then (Some AssetPath, SaveAsset U AssetPath)
  else (None, false).

(** The first loop of [GenerateAssets]. *)
Definition generate_characters (BasePath : string)
    (Chars : list FDialogueCharacterDef)
    (objs : gmap string AssetGenerator.UDialogueObject)
  : gmap string AssetGenerator.UDialogueObject :=
  fold_left (fun objs CharDef =>
               match GenerateCharacter BasePath CharDef with
               | Some Character =>
                   AssetGenerator.Add (CharId CharDef) Character objs
               | None => objs
               end) Chars objs.

(** The second loop of [GenerateAssets]: each package is generated and
    its connections are processed before the next package is looked at.
    [None] stands for the array access of [ProcessConnections] stopping
    the program. *)
Fixpoint generate_packages (BasePath : string)
    (Pkgs : list (FDialoguePackageDef Json))
    (names : list string) (objs : gmap string AssetGenerator.UDialogueObject)
  : option (list string * gmap string AssetGenerator.UDialogueObject) :=
  match Pkgs with
  | [] => Some (names, objs)
  | PackageDef :: rest =>
      match GeneratePackage BasePath PackageDef objs with
      | (Some Package, objs1) =>
          match AssetGenerator.ProcessConnections (Connections PackageDef)
                  objs1 with
          | Some objs2 =>
              generate_packages BasePath rest
                (names ++ [PackageName Package]) objs2
          | None => None
          end
      | (None, objs1) => generate_packages BasePath rest names objs1
      end
  end.

(** [FDialogueAssetGenerator::GenerateAssets]: the result and the
    generator afterwards; [None] when the program is stopped. *)
Definition GenerateAssets (ImportData : option (UDialogueImportData Json))
    (G : FDialogueAssetGenerator) : option (bool * FDialogueAssetGenerator) :=
  match ImportData with
  | None => Some (false, G)
  | Some D =>
      let BasePath := GeneratedAssetsFolder D in
      let objs1 := generate_characters BasePath (Characters D) ∅ in
      match generate_packages BasePath (Packages D) [] objs1 with
      | None => None
      | Some (names, objs2) =>
          let '(Database, saved) := GenerateDatabase BasePath D in
          Some (saved,
                {| GeneratedAssetsBasePath := BasePath;
                   GeneratedDatabase :=
                     match Database with
                     | Some path => Some path
                     | None => GeneratedDatabase G
                     end;
                   GeneratedPackages := names;
                   ObjectsById := objs2 |})
      end
  end.

End Generation.

(** The type names [GenerateObject] compares [ObjectDef.Type] with. *)
Definition known_types : list string :=
  ["Dialogue"; "DialogueFragment"; "Hub"; "Condition"; "Instruction";
   "Jump"; "FlowFragment"].

(** The object ids a package definition brings. *)
Definition object_ids {Json : Type} (PackageDef : FDialoguePackageDef Json)
  : list string :=
  map Id (Objects PackageDef).

(** Whether one of the ids is [id], compared as the table compares its
    keys. *)
Definition carries (id : string) (ids : list string) : bool :=
  existsb (FString_eq id) ids.

(** The last definition whose id is [id], compared as the table
    compares its keys: the one the table keeps. *)
Definition last_def {Json : Type} (id : string)
    (defs : list (FDialogueObjectDef Json)) : option (FDialogueObjectDef Json) :=
  last (List.filter (fun d => FString_eq id (Id d)) defs).

End Generator.

(** Sample import data: two packages, the first of which refers to an
    object of the second. *)
Module GeneratorSamples.

Import Generator.

(** A JSON tree for the examples, read without conversions. *)
Inductive SampleJson : Type :=
  | JObject (fields : list (string * SampleValue))
with SampleValue : Type :=
  | JString (s : string)
  | JNumber (n : Z)
  | JBool (b : bool)
  | JChild (o : SampleJson).

Fixpoint field (name : string) (fields : list (string * SampleValue))
  : option SampleValue :=
  match fields with
  | [] => None
  | (k, v) :: rest => if String.eqb k name then Some v else field name rest
  end.

Definition sample_reader : FJsonReader SampleJson :=
  {| TryGetObjectField := fun '(JObject fs) name =>
       match field name fs with Some (JChild o) => Some o | _ => None end;
     TryGetStringField := fun '(JObject fs) name =>
       match field name fs with Some (JString v) => Some v | _ => None end;
     TryGetBoolField := fun '(JObject fs) name =>
       match field name fs with Some (JBool v) => Some v | _ => None end;
     TryGetNumberField := fun '(JObject fs) name =>
       match field name fs with Some (JNumber v) => Some v | _ => None end |}.

(** An engine that creates and saves every asset. *)
Definition sample_engine : Engine :=
  {| CreateAssetPackage := fun _ => true; SaveAsset := fun _ => true |}.

Definition def_H : FDialogueObjectDef SampleJson :=
  mkObjectDef "H" "Hub_H" "Hub" None ["H.in"] ["H.out"].

Definition def_D : FDialogueObjectDef SampleJson :=
  mkObjectDef "D" "Dlg_D" "dialogue"
    (Some (JObject [("data", JChild (JObject [("speaker", JString "Hero");
                                              ("autoTransition", JBool true)]))]))
    ["D.in"] ["D.out0"; "D.out1"].

(** A definition of a type the generator does not know. *)
Definition def_U : FDialogueObjectDef SampleJson :=
  mkObjectDef "U" "Note_U" "Comment" None ["U.in"] ["U.out"].

Definition def_E : FDialogueObjectDef SampleJson :=
  mkObjectDef "E" "Dlg_E" "Dialogue" None ["E.in"] ["E.out"].

(** The node [def_D] stands for. *)
Definition node_D : Node.UDialogueNode :=
  {| Node.Id := "D"; Node.TechnicalName := "Dlg_D";
     Node.InputPins :=
       [ {| InputPin.Id := "D.in"; InputPin.OwnerId := "D";
            InputPin.Index := 0; InputPin.Script := default_script |} ];
     Node.OutputPins :=
       [ {| OutputPin.Id := "D.out0"; OutputPin.OwnerId := "D";
            OutputPin.Index := 0; OutputPin.Connections := [];
            OutputPin.Script := default_script;
            OutputPin.Label := EmptyString |};
         {| OutputPin.Id := "D.out1"; OutputPin.OwnerId := "D";
            OutputPin.Index := 1; OutputPin.Connections := [];
            OutputPin.Script := default_script;
            OutputPin.Label := EmptyString |} ];
     Node.Kind := Dialogue "Hero" true |}.

Definition empty_package : UDialoguePackage :=
  {| PackageName := "Intro"; PackageIsDefault := true; ObjectIds := [] |}.

Definition conn_H_D : AssetGenerator.FDialogueConnectionDef :=
  AssetGenerator.mkConnectionDef "c1" "H" 0 "D" 0.
Definition conn_H_E : AssetGenerator.FDialogueConnectionDef :=
  AssetGenerator.mkConnectionDef "c2" "H" 0 "E" 0.
(** This one spells both ids in lower case. *)
Definition conn_D_H : AssetGenerator.FDialogueConnectionDef :=
  AssetGenerator.mkConnectionDef "c3" "d" 1 "h" 0.
Definition conn_U_D : AssetGenerator.FDialogueConnectionDef :=
  AssetGenerator.mkConnectionDef "c4" "U" 0 "D" 0.
Definition conn_E_H : AssetGenerator.FDialogueConnectionDef :=
  AssetGenerator.mkConnectionDef "c5" "E" 0 "H" 0.

Definition package_intro : FDialoguePackageDef SampleJson :=
  mkPackageDef "Intro" true [def_H; def_D; def_U]
    [conn_H_D; conn_H_E; conn_D_H; conn_U_D].

Definition package_outro : FDialoguePackageDef SampleJson :=
  mkPackageDef "Outro" false [def_E] [conn_E_H].

Definition sample_import : UDialogueImportData SampleJson :=
  mkImportData "/Game/Dialogue/Generated" "Demo"
    [mkCharacterDef "Hero" "Chr_Hero" "The Hero" "FF0000FF"]
    [package_intro; package_outro].

(** The generator as its constructor leaves it. *)
Definition new_generator : FDialogueAssetGenerator :=
  {| GeneratedAssetsBasePath := "/Game/Dialogue/Generated";
     GeneratedDatabase := None;
     GeneratedPackages := [];
     ObjectsById := ∅ |}.

End GeneratorSamples.

(** ** DialogueFlowPlayer.h: the flow player *)

Module FlowPlayer.

(** [FDialogueBranch]. *)
Record FDialogueBranch : Type := mkBranch {
  Path : list Node.UDialogueNode;
  bIsValid : bool;
  Index : Z
}.

(** [GetTarget]: the last node of the path, if there is one. *)
Definition GetTarget (b : FDialogueBranch) : option Node.UDialogueNode :=
  last (Path b).

(** What the player does that an observer can see: a warning written
    with [UE_LOG], a call made on the variable store, a broadcast. *)
Inductive Event : Type :=
  | LogWarning (msg : string)
  | CallPushState (Level : Z)
  | CallPopState (Level : Z)
  | ShadowOpStart
  | ShadowOpEnd
  | BranchesUpdated (count : Z).

(** The members under SETUP, fixed while the player runs.  [PauseOn]
    is kept as the set of tags it encodes; [HasGlobalVariables] says
    whether [GetGlobalVariables()], whose body is missing, returns a
    store, and is taken not to change during a call. *)
Record Setup : Type := mkSetup {
  PauseOn : list EDialoguePausableType;
  bIgnoreInvalidBranches : bool;
  ExploreLimit : Z;
  ShadowLevelLimit : Z;
  HasGlobalVariables : bool
}.

(** [ExploreLimit] is an [int32] and [ShadowLevelLimit] a [uint8]. *)
Definition Setup_wf (P : Setup) : Prop :=
  - 2 ^ 31 <= ExploreLimit P < 2 ^ 31 /\ 0 <= ShadowLevelLimit P < 2 ^ 8.

(** The state the player changes: the store [GetGlobalVariables()]
    points to, the [uint32] member [ShadowLevel], the cursor, the
    available branches, and the events so far. *)
Record State : Type := mkState {
  Variables : GlobalVariables.UDialogueGlobalVariables;
  ShadowLevel : Z;
  Cursor : option Node.UDialogueNode;
  AvailableBranches : list FDialogueBranch;
  Trace : list Event
}.

Definition State_wf (w : State) : Prop := 0 <= ShadowLevel w < 2 ^ 32.

Definition emit (e : Event) (w : State) : State :=
  {| Variables := Variables w; ShadowLevel := ShadowLevel w;
     Cursor := Cursor w; AvailableBranches := AvailableBranches w;
     Trace := Trace w ++ [e] |}.

Definition set_ShadowLevel (l : Z) (w : State) : State :=
  {| Variables := Variables w; ShadowLevel := l;
     Cursor := Cursor w; AvailableBranches := AvailableBranches w;
     Trace := Trace w |}.

Definition set_Variables (g : GlobalVariables.UDialogueGlobalVariables)
    (w : State) : State :=
  {| Variables := g; ShadowLevel := ShadowLevel w;
     Cursor := Cursor w; AvailableBranches := AvailableBranches w;
     Trace := Trace w |}.

(** A [uint32] passed for an [int32] parameter. *)
Definition to_int32 (u : Z) : Z :=
  let w := u mod 2 ^ 32 in if w <? 2 ^ 31 then w else w - 2 ^ 32.

Definition msg_no_variables : string :=
  "FlowPlayer cannot get GlobalVariables!".
Definition msg_too_many_shadows : string :=
  "Too many nested ShadowedOperations, possible infinite loop!".

Section Shadowed.

(** The two store calls, whose bodies are in a file that is not part of
    the sources. *)
Variable PushState PopState :
  Z -> GlobalVariables.UDialogueGlobalVariables ->
  GlobalVariables.UDialogueGlobalVariables.

Variable P : Setup.

(** [UDialogueFlowPlayer::ShadowedOperation].  The lambda works on the
    player and on what it captured by reference: it is a function from
    the state to the new state and the new captured value, and
    [captured] is the value the caller sees when the lambda is not
    run. *)
Definition ShadowedOperation {A : Type} (Operation : State -> State * A)
    (captured : A) (w : State) : State * A :=
  if negb (HasGlobalVariables P) then
    (emit (LogWarning msg_no_variables) w, captured)
  else if ShadowLevelLimit P <=? ShadowLevel w then
    (emit (LogWarning msg_too_many_shadows) w, captured)
  else
    (* ++ShadowLevel *)
    let w1 := set_ShadowLevel ((ShadowLevel w + 1) mod 2 ^ 32) w in
    (* GetGlobalVariables()->PushState(ShadowLevel) *)
    let w2 := emit (CallPushState (to_int32 (ShadowLevel w1)))
                (set_Variables
                   (PushState (to_int32 (ShadowLevel w1)) (Variables w1)) w1) in
    let w3 := emit ShadowOpStart w2 in
    let '(w4, a) := Operation w3 in
    let w5 := emit ShadowOpEnd w4 in
    (* GetGlobalVariables()->PopState(ShadowLevel) *)
    let w6 := emit (CallPopState (to_int32 (ShadowLevel w5)))
                (set_Variables
                   (PopState (to_int32 (ShadowLevel w5)) (Variables w5)) w5) in
    (* if (ShadowLevel > 0) --ShadowLevel *)
    let w7 := if 0 <? ShadowLevel w6
              then set_ShadowLevel (ShadowLevel w6 - 1) w6 else w6 in
    (w7, a).

(** The state in which the operation starts, and the state the call
    returns from the one the operation ended in. *)
Definition enter_shadow (w : State) : State :=
  let w1 := set_ShadowLevel ((ShadowLevel w + 1) mod 2 ^ 32) w in
  emit ShadowOpStart
    (emit (CallPushState (to_int32 (ShadowLevel w1)))
       (set_Variables (PushState (to_int32 (ShadowLevel w1)) (Variables w1)) w1)).

Definition leave_shadow (w4 : State) : State :=
  let w5 := emit ShadowOpEnd w4 in
  let w6 := emit (CallPopState (to_int32 (ShadowLevel w5)))
              (set_Variables
                 (PopState (to_int32 (ShadowLevel w5)) (Variables w5)) w5) in
  if 0 <? ShadowLevel w6 then set_ShadowLevel (ShadowLevel w6 - 1) w6 else w6.

End Shadowed.

(** *** Reading the trace *)

(** [lifo lvl tr]: starting with [lvl] levels open, every push in [tr]
    opens level [lvl + 1] and every pop closes the level that is open;
    the result is the number of levels open at the end. *)
Fixpoint lifo (lvl : Z) (tr : list Event) : option Z :=
  match tr with
  | [] => Some lvl
  | CallPushState l :: r => if l =? lvl + 1 then lifo l r else None
  | CallPopState l :: r =>
      if (l =? lvl) && (0 <? lvl) then lifo (lvl - 1) r else None
  | _ :: r => lifo lvl r
  end.

Definition is_push (e : Event) : bool :=
  match e with CallPushState _ => true | _ => false end.
Definition is_pop (e : Event) : bool :=
  match e with CallPopState _ => true | _ => false end.
Definition is_warning (e : Event) : bool :=
  match e with LogWarning _ => true | _ => false end.

Definition count_events (f : Event -> bool) (tr : list Event) : nat :=
  length (filter (fun e => f e = true) tr).

(** An operation that gives the shadow level back as it found it and
    whose store calls nest: the lambdas exploration passes are of this
    kind. *)
Definition level_neutral {A : Type} (Operation : State -> State * A) : Prop :=
  forall w, State_wf w ->
    exists tr : list Event, Trace (fst (Operation w)) = (Trace w ++ tr)%list /\
               ShadowLevel (fst (Operation w)) = ShadowLevel w /\
               lifo (ShadowLevel w) tr = Some (ShadowLevel w).

(** No store level above [L] is opened in [tr]. *)
Definition opens_within (L : Z) (tr : list Event) : bool :=
  forallb (fun e => match e with CallPushState l => l <=? L | _ => true end) tr.

(** An operation that, started at a shadow level not above the limit,
    gives the level back and opens no store level above the limit. *)
Definition within_limit (P : Setup) {A : Type}
    (Operation : State -> State * A) : Prop :=
  forall w, State_wf w -> ShadowLevel w <= ShadowLevelLimit P ->
    exists tr : list Event, Trace (fst (Operation w)) = (Trace w ++ tr)%list /\
               ShadowLevel (fst (Operation w)) = ShadowLevel w /\
               opens_within (ShadowLevelLimit P) tr = true.

(** *** Exploration and commit *)

(** The script evaluator, an external collaborator: [evaluate] gives the
    truth of a condition and [execute] the store after an instruction. *)
Record ScriptEvaluator : Type := mkEvaluator {
  evaluate : string -> GlobalVariables.UDialogueGlobalVariables -> bool;
  execute : string -> GlobalVariables.UDialogueGlobalVariables ->
            GlobalVariables.UDialogueGlobalVariables
}.

Definition msg_depth_limit : string :=
  "Explore: ExploreLimit exceeded, exploration truncated".
Definition msg_unresolved : string :=
  "Explore: jump target does not resolve".
Definition msg_no_branch : string :=
  "Play: no such branch".

(** The branches found so far; [None] when the recursion budget of the
    model ran out before the exploration was complete. *)
Abbreviation Out := (option (list FDialogueBranch)).

Definition join (a b : Out) : Out :=
  match a, b with
  | Some x, Some y => Some (x ++ y)
  | _, _ => None
  end.

Definition prepend (n : Node.UDialogueNode) (b : FDialogueBranch)
  : FDialogueBranch :=
  {| Path := n :: Path b; bIsValid := bIsValid b; Index := Index b |}.

Definition invalidate (b : FDialogueBranch) : FDialogueBranch :=
  {| Path := Path b; bIsValid := false; Index := Index b |}.

Definition is_auto_transition (n : Node.UDialogueNode) : bool :=
  match Node.Kind n with
  | Dialogue _ true | DialogueFragment _ true => true
  | _ => false
  end.

Definition is_instruction (n : Node.UDialogueNode) : bool :=
  match Node.Kind n with Instruction _ => true | _ => false end.


Definition has_script (sc : FDialogueScript) : bool :=
  negb (String.eqb (Expression sc) EmptyString).

Section Exploration.

Variable E : ScriptEvaluator.

(** The graph store: the nodes by id. *)
Variable Objects : gmap string Node.UDialogueNode.

Variable P : Setup.

(** Modelled from the spec: the body of [ShouldPauseOn] is missing.  A
    node is paused on when its pausable type is in the pause mask. *)
Definition ShouldPauseOn (n : Node.UDialogueNode) : bool :=
  bool_decide (Node.GetPausableType n ∈ PauseOn P).

(** Modelled from the spec: the body of [UDialogueInputPin::Evaluate] is
    missing.  The condition of an input pin is optional; a pin without
    one lets everything through. *)
Definition EvaluatePin (pin : InputPin.UDialogueInputPin)
    (g : GlobalVariables.UDialogueGlobalVariables) : bool :=
  if has_script (InputPin.Script pin)
  then evaluate E (Expression (InputPin.Script pin)) g
  else true.

(** Modelled from the spec: the body of
    [UDialogueConnection::GetTargetPin] is missing.  The input pin of the
    target a connection addresses, when the index is one. *)
Definition GetTargetPin (target : Node.UDialogueNode) (i : Z)
  : option InputPin.UDialogueInputPin :=
  if i <? 0 then None else Node.InputPins target !! Z.to_nat i.

(** Modelled from the spec: part of [Explore], whose body is missing.
    A failed condition: the paths behind it are dropped, or kept and
    marked invalid when invalid branches are asked for. *)
Definition tag_failed (o : Out) : Out :=
  match o with
  | Some bs =>
      Some (if bIgnoreInvalidBranches P then [] else map invalidate bs)
  | None => None
  end.

(** Modelled from the spec: part of [Explore], whose body is missing.
    One connection: a dangling target or pin index makes it dead and it
    is skipped; otherwise the gating condition of the target pin is
    evaluated and the target explored one level deeper, itself
    included. *)
Definition ExploreConnection
    (rec : Node.UDialogueNode -> bool -> Z -> bool -> State -> State * Out)
    (c : Connection.UDialogueConnection) (bShadowed : bool) (Depth : Z)
    (w : State) : State * Out :=
  match Objects !! Connection.TargetNodeId c with
  | None => (w, Some [])
  | Some target =>
      match GetTargetPin target (Connection.TargetPinIndex c) with
      | None => (w, Some [])
      | Some pin =>
          let pass := EvaluatePin pin (Variables w) in
          let '(w1, o) := rec target bShadowed (Depth + 1) true w in
          (w1, if pass then o else tag_failed o)
      end
  end.

(** Modelled from the spec: part of [Explore], whose body is missing.
    The connections of one pin, in order; the state is handed from one
    to the next. *)
Fixpoint ExploreConnections
    (rec : Node.UDialogueNode -> bool -> Z -> bool -> State -> State * Out)
    (cs : list Connection.UDialogueConnection) (bShadowed : bool) (Depth : Z)
    (w : State) : State * Out :=
  match cs with
  | [] => (w, Some [])
  | c :: r =>
      let '(w1, o1) := ExploreConnection rec c bShadowed Depth w in
      let '(w2, o2) := ExploreConnections rec r bShadowed Depth w1 in
      (w2, join o1 o2)
  end.

(** Modelled from the spec: part of [Explore], whose body is missing.
    Output pins in index order, the connections of each in order. *)
Fixpoint ExplorePins
    (rec : Node.UDialogueNode -> bool -> Z -> bool -> State -> State * Out)
    (pins : list OutputPin.UDialogueOutputPin) (bShadowed : bool) (Depth : Z)
    (w : State) : State * Out :=
  match pins with
  | [] => (w, Some [])
  | pin :: r =>
      let '(w1, o1) :=
        ExploreConnections rec (OutputPin.Connections pin) bShadowed Depth w in
      let '(w2, o2) := ExplorePins rec r bShadowed Depth w1 in
      (w2, join o1 o2)
  end.

(** Modelled from the spec: part of [Explore], whose body is missing.
    The traversed node in front of the paths found behind it, when the
    current node is included. *)
Definition include_current (n : Node.UDialogueNode) (bIncludeCurrent : bool)
    (o : Out) : Out :=
  if bIncludeCurrent then map (prepend n) <$> o else o.

(** Modelled from the spec: the bodies of the [Explore] overrides of the
    node classes are missing.  A jump redirects to its target and is not
    part of the path; a condition evaluates its script and goes on through
    its single output pin; an instruction runs its script and goes on
    through its single output pin; every other node goes on through all
    its output pins. *)
Definition TraverseNode
    (rec : Node.UDialogueNode -> bool -> Z -> bool -> State -> State * Out)
    (n : Node.UDialogueNode) (bShadowed : bool) (Depth : Z)
    (bIncludeCurrent : bool) (w : State) : State * Out :=
  match Node.Kind n with
  | Jump TargetNodeId _ =>
      match Objects !! TargetNodeId with
      | Some target => rec target bShadowed (Depth + 1) true w
      | None => (emit (LogWarning msg_unresolved) w, Some [])
      end
  | Condition sc =>
      let pass := evaluate E (Expression sc) (Variables w) in
      let '(w1, o) :=
        ExplorePins rec (firstn 1 (Node.OutputPins n)) bShadowed Depth w in
      (w1, include_current n bIncludeCurrent (if pass then o else tag_failed o))
  | Instruction sc =>
      let w0 := set_Variables (execute E (Expression sc) (Variables w)) w in
      let '(w1, o) :=
        ExplorePins rec (firstn 1 (Node.OutputPins n)) bShadowed Depth w0 in
      (w1, include_current n bIncludeCurrent o)
  | _ =>
      let '(w1, o) := ExplorePins rec (Node.OutputPins n) bShadowed Depth w in
      (w1, include_current n bIncludeCurrent o)
  end.

(** Modelled from the spec: part of [Explore], whose body is missing.
    The pause-on-self rule: the node is included and its type is in the
    mask, unless it is an auto-transition dialogue that exploration
    reached (depth above that of the starting cursor). *)
Definition pauses_here (n : Node.UDialogueNode) (Depth : Z)
    (bIncludeCurrent : bool) : bool :=
  bIncludeCurrent && ShouldPauseOn n &&
  negb (is_auto_transition n && (0 <? Depth)).

(** Modelled from the spec: the body of [Explore] is missing.  In order:
    the depth guard, which reports and returns nothing; the pause rule,
    which ends the path at the node; the traversal rule of the node type,
    run as a [ShadowedOperation] when the exploration is shadowed, and
    always for an instruction.  [fuel] bounds the nesting of the
    recursion. *)
Fixpoint Explore (fuel : nat) (n : Node.UDialogueNode) (bShadowed : bool)
    (Depth : Z) (bIncludeCurrent : bool) (w : State) : State * Out :=
  match fuel with
  | O => (w, None)
  | S fuel' =>
      if ExploreLimit P <? Depth then
        (emit (LogWarning msg_depth_limit) w, Some [])
      else if pauses_here n Depth bIncludeCurrent then
        (w, Some [ {| Path := [n]; bIsValid := true; Index := -1 |} ])
      else if bShadowed || is_instruction n then
        ShadowedOperation GlobalVariables.PushState GlobalVariables.PopState P
          (TraverseNode (Explore fuel') n bShadowed Depth bIncludeCurrent)
          (Some []) w
      else TraverseNode (Explore fuel') n bShadowed Depth bIncludeCurrent w
  end.

(** Nesting that suffices from [Depth]: one level per depth up to the
    limit, and one for the call the guard stops. *)
Definition explore_budget (Depth : Z) : nat :=
  S (Z.to_nat (ExploreLimit P + 1 - Depth)).

End Exploration.

Section Commit.

Variable E : ScriptEvaluator.
Variable Objects : gmap string Node.UDialogueNode.
Variable P : Setup.

Definition set_AvailableBranches (bs : list FDialogueBranch) (w : State)
  : State :=
  {| Variables := Variables w; ShadowLevel := ShadowLevel w;
     Cursor := Cursor w; AvailableBranches := bs; Trace := Trace w |}.

(** Modelled from the spec: part of [UpdateAvailableBranchesInternal],
    whose body is missing.  Branches are numbered in the order
    exploration found them. *)
Definition number_branches (bs : list FDialogueBranch) : list FDialogueBranch :=
  imap (fun i b => {| Path := Path b; bIsValid := bIsValid b;
                      Index := Z.of_nat i |}) bs.

(** Modelled from the spec: the body of
    [UpdateAvailableBranchesInternal] is missing.  It explores from the
    cursor, shadowed, from depth 0, stores the numbered branches and
    broadcasts them.  [bIsStartup] says whether the cursor itself is
    included. *)
Definition UpdateAvailableBranchesInternal (bIsStartup : bool) (w : State)
  : State :=
  match Cursor w with
  | None => emit (BranchesUpdated 0) (set_AvailableBranches [] w)
  | Some n =>
      let '(w1, o) :=
        Explore E Objects P (explore_budget P 0) n true 0 bIsStartup w in
      let bs := number_branches (default [] o) in
      emit (BranchesUpdated (Z.of_nat (length bs)))
           (set_AvailableBranches bs w1)
  end.

(** Modelled from the spec: the body of [UpdateAvailableBranches] is
    missing.  The update outside startup, the cursor not included. *)
Definition UpdateAvailableBranches (w : State) : State :=
  UpdateAvailableBranchesInternal false w.

(** Modelled from the spec: the body of [UDialogueInstruction::Execute]
    is missing.  The script of an instruction node, run on the store. *)
Definition ExecuteNode (n : Node.UDialogueNode)
    (g : GlobalVariables.UDialogueGlobalVariables)
  : GlobalVariables.UDialogueGlobalVariables :=
  match Node.Kind n with
  | Instruction sc => execute E (Expression sc) g
  | _ => g
  end.

(** Modelled from the spec: the body of [UDialogueOutputPin::Execute] is
    missing.  The optional instruction of an output pin, run on exit. *)
Definition ExecutePin (pin : OutputPin.UDialogueOutputPin)
    (g : GlobalVariables.UDialogueGlobalVariables)
  : GlobalVariables.UDialogueGlobalVariables :=
  if has_script (OutputPin.Script pin)
  then execute E (Expression (OutputPin.Script pin)) g
  else g.

Definition connects_to (n : Node.UDialogueNode)
    (pin : OutputPin.UDialogueOutputPin) : bool :=
  existsb (fun c => String.eqb (Connection.TargetNodeId c) (Node.Id n))
          (OutputPin.Connections pin).

(** Modelled from the spec: part of [PlayBranch], whose body is missing.
    The output pin traversed from [p] to the next node [n] of a path:
    the first pin of [p] with a connection to [n]. *)
Definition exit_pin (p n : Node.UDialogueNode)
  : option OutputPin.UDialogueOutputPin :=
  find (connects_to n) (Node.OutputPins p).

Definition leave (prev : option Node.UDialogueNode) (n : Node.UDialogueNode)
    (g : GlobalVariables.UDialogueGlobalVariables)
  : GlobalVariables.UDialogueGlobalVariables :=
  match prev with
  | Some p =>
      match exit_pin p n with
      | Some pin => ExecutePin pin g
      | None => g
      end
  | None => g
  end.

(** Modelled from the spec: part of [PlayBranch], whose body is missing.
    Walking a path for real: leaving the previous node runs the
    instruction of the traversed output pin, entering a node runs its own
    instruction. *)
Fixpoint Commit (prev : option Node.UDialogueNode)
    (path : list Node.UDialogueNode)
    (g : GlobalVariables.UDialogueGlobalVariables)
  : GlobalVariables.UDialogueGlobalVariables :=
  match path with
  | [] => g
  | n :: rest => Commit (Some n) rest (ExecuteNode n (leave prev n g))
  end.

(** Modelled from the spec: the body of [PlayBranch] is missing.  The
    branch is committed outside shadow mode, starting from the cursor,
    and the cursor moves to its target; a branch without a path does
    nothing. *)
Definition PlayBranch (b : FDialogueBranch) (w : State) : State :=
  match GetTarget b with
  | None => w
  | Some target =>
      {| Variables := Commit (Cursor w) (Path b) (Variables w);
         ShadowLevel := ShadowLevel w;
         Cursor := Some target;
         AvailableBranches := AvailableBranches w;
         Trace := Trace w |}
  end.

(** Modelled from the spec: the body of [Play] is missing.  It plays the
    available branch with the given index; an index that is none is
    reported and nothing else happens. *)
Definition Play (BranchIndex : Z) (w : State) : State :=
  if BranchIndex <? 0 then emit (LogWarning msg_no_branch) w
  else match AvailableBranches w !! Z.to_nat BranchIndex with
       | Some b => PlayBranch b w
       | None => emit (LogWarning msg_no_branch) w
       end.

(** No effect from [prev] along [path]: no instruction node and no
    instruction on a traversed pin. *)
Fixpoint quiet (prev : option Node.UDialogueNode)
    (path : list Node.UDialogueNode) : bool :=
  match path with
  | [] => true
  | n :: rest =>
      negb (is_instruction n) &&
      match prev with
      | Some p =>
          match exit_pin p n with
          | Some pin => negb (has_script (OutputPin.Script pin))
          | None => true
          end
      | None => true
      end && quiet (Some n) rest
  end.

End Commit.

(** *** Predicates used to state the properties of exploration *)

Abbreviation Rec :=
  (Node.UDialogueNode -> bool -> Z -> bool -> State -> State * Out).

(** [rec] returns branches whenever it is called at depth [d]. *)
Definition returns_at (rec : Rec) (d : Z) : Prop :=
  forall n sh inc w, exists bs, snd (rec n sh d inc w) = Some bs.

(** [rec2] agrees with [rec1] at depth [d] wherever [rec1] returns
    branches. *)
Definition refines_at (rec1 rec2 : Rec) (d : Z) : Prop :=
  forall n sh inc w,
    is_Some (snd (rec1 n sh d inc w)) -> rec2 n sh d inc w = rec1 n sh d inc w.

(** The evaluator writes live values only: shadow stacks, shadow level
    and the set of variables are out of its reach. *)
Definition writes_values_only (E : ScriptEvaluator) : Prop :=
  forall e g, GlobalVariables.frame (execute E e g) = GlobalVariables.frame g.

(** [w'] differs from [w] at most in live values, cursor, branches and
    trace. *)
Definition same_frame (w w' : State) : Prop :=
  GlobalVariables.frame (Variables w') = GlobalVariables.frame (Variables w) /\
  ShadowLevel w' = ShadowLevel w.

(** A shadowed call of [rec] keeps the frame. *)
Definition keeps_frame (rec : Rec) : Prop :=
  forall n d inc w, State_wf w -> same_frame w (fst (rec n true d inc w)).






(** The node from which a path is continued after walking [pre]. *)
Definition arrive (prev : option Node.UDialogueNode)
    (pre : list Node.UDialogueNode) : option Node.UDialogueNode :=
  match last pre with
  | Some p => Some p
  | None => prev
  end.

End FlowPlayer.

(** ** Sample graphs and a sample script evaluator *)

Module Samples.

Import FlowPlayer.

Definition script (e : string) (cond : bool) : FDialogueScript :=
  {| Expression := e; bIsCondition := cond |}.

Definition in_pin (owner : string) (i : Z) (cond : string)
  : InputPin.UDialogueInputPin :=
  {| InputPin.Id := owner; InputPin.OwnerId := owner; InputPin.Index := i;
     InputPin.Script := script cond true |}.

Definition conn (target : string) (pin : Z) : Connection.UDialogueConnection :=
  {| Connection.TargetNodeId := target; Connection.TargetPinIndex := pin |}.

Definition out_pin (owner : string) (i : Z)
    (cs : list Connection.UDialogueConnection)
  : OutputPin.UDialogueOutputPin :=
  {| OutputPin.Id := owner; OutputPin.OwnerId := owner; OutputPin.Index := i;
     OutputPin.Connections := cs; OutputPin.Script := script EmptyString false;
     OutputPin.Label := EmptyString |}.

Definition node (id : string) (kind : NodeKind)
    (ins : list InputPin.UDialogueInputPin)
    (outs : list OutputPin.UDialogueOutputPin) : Node.UDialogueNode :=
  {| Node.Id := id; Node.TechnicalName := id; Node.InputPins := ins;
     Node.OutputPins := outs; Node.Kind := kind |}.

Definition graph_of (ns : list Node.UDialogueNode)
  : gmap string Node.UDialogueNode :=
  list_to_map (map (fun n => (Node.Id n, n)) ns).

(** An evaluator for the scripts of the samples. *)
Definition sample_evaluate (e : string)
    (g : GlobalVariables.UDialogueGlobalVariables) : bool :=
  if String.eqb e "true" then true
  else if String.eqb e "Game.Score >= 10" then
    match GlobalVariables.GetVariable g "Game.Score" with
    | Some (GlobalVariables.IntVariable _ v _) => 10 <=? v
    | _ => false
    end
  else false.

Definition sample_execute (e : string)
    (g : GlobalVariables.UDialogueGlobalVariables)
  : GlobalVariables.UDialogueGlobalVariables :=
  if String.eqb e "Game.Score = 10"
  then GlobalVariables.SetInt "Game.Score" 10 g
  else g.

Definition sample_evaluator : ScriptEvaluator :=
  {| evaluate := sample_evaluate; execute := sample_execute |}.

Definition setup (mask : list EDialoguePausableType) (ignore : bool)
    (limit : Z) : Setup :=
  {| PauseOn := mask; bIgnoreInvalidBranches := ignore;
     ExploreLimit := limit; ShadowLevelLimit := 10;
     HasGlobalVariables := true |}.

Definition start_at (n : Node.UDialogueNode) : State :=
  {| Variables := GlobalVariables.sample_store; ShadowLevel := 0;
     Cursor := Some n; AvailableBranches := []; Trace := [] |}.

(** The end-to-end graph of the spec: dialogue [D1] leads to hub [H1],
    whose first pin leads to [D2] behind [Game.Score >= 10] and whose
    second pin leads to [D3]. *)
Definition D2 := node "D2" (Dialogue "Hero" false)
                      [in_pin "D2" 0 "Game.Score >= 10"] [].
Definition D3 := node "D3" (Dialogue "Hero" false) [in_pin "D3" 0 EmptyString] [].
Definition H1 := node "H1" (Hub EmptyString) [in_pin "H1" 0 "true"]
                      [out_pin "H1" 0 [conn "D2" 0]; out_pin "H1" 1 [conn "D3" 0]].
Definition D1 := node "D1" (Dialogue "Hero" false) []
                      [out_pin "D1" 0 [conn "H1" 0]].
Definition end_to_end := graph_of [D1; H1; D2; D3].

(** An instruction between two dialogues: [S1] leads to [I1], which sets
    the score to 10 and leads to [D2]. *)
Definition I1 := node "I1" (Instruction (script "Game.Score = 10" false))
                      [in_pin "I1" 0 EmptyString] [out_pin "I1" 0 [conn "D2" 0]].
Definition S1 := node "S1" (Dialogue "Hero" false) []
                      [out_pin "S1" 0 [conn "I1" 0]].
Definition with_instruction := graph_of [S1; I1; D2].

(** A cycle of three hubs without conditions. *)
Definition X := node "X" (Hub EmptyString) [in_pin "X" 0 EmptyString] [out_pin "X" 0 [conn "Y" 0]].
Definition Y := node "Y" (Hub EmptyString) [in_pin "Y" 0 EmptyString] [out_pin "Y" 0 [conn "Z" 0]].
Definition Z3 := node "Z" (Hub EmptyString) [in_pin "Z" 0 EmptyString] [out_pin "Z" 0 [conn "X" 0]].
Definition cycle := graph_of [X; Y; Z3].


(** A hub with two connections, to [T1] behind [true] and to [T2]
    behind [false]. *)
Definition T1 := node "T1" (Dialogue "Hero" false) [in_pin "T1" 0 "true"] [].
Definition T2 := node "T2" (Dialogue "Hero" false) [in_pin "T2" 0 "false"] [].
Definition H2 := node "H2" (Hub EmptyString) []
                      [out_pin "H2" 0 [conn "T1" 0; conn "T2" 0]].
Definition gated := graph_of [H2; T1; T2].

End Samples.

(* ===================================================================== *)
(** * Part II. Properties                                                 *)
(* ===================================================================== *)

(** ** Identifier round trip (DialogueTypes.h) *)

Section HexConversion.

Import CRT.
Local Open Scope string_scope.
Local Open Scope Z_scope.

Lemma nibble_cases (d : Z) :
  0 <= d < 16 ->
  d = 0 \/ d = 1 \/ d = 2 \/ d = 3 \/ d = 4 \/ d = 5 \/ d = 6 \/ d = 7 \/
  d = 8 \/ d = 9 \/ d = 10 \/ d = 11 \/ d = 12 \/ d = 13 \/ d = 14 \/ d = 15.
Proof. lia. Qed.

Ltac each_nibble d H :=
  destruct (nibble_cases d H) as
    [-> | [-> | [-> | [-> | [-> | [-> | [-> | [-> |
    [-> | [-> | [-> | [-> | [-> | [-> | [-> | ->]]]]]]]]]]]]]]].

Lemma hex_value_upper (d : Z) :
  0 <= d < 16 -> hex_value (hex_upper d) = Some d.
Proof. intros H. each_nibble d H; reflexivity. Qed.

Lemma hex_upper_is_upper (d : Z) :
  0 <= d < 16 -> is_upper_hex (hex_upper d) = true.
Proof. intros H. each_nibble d H; reflexivity. Qed.

Lemma hex_upper_plain (d : Z) :
  0 <= d < 16 ->
  is_space (hex_upper d) = false /\
  FStr.is_char (hex_upper d) "-" = false /\
  FStr.is_char (hex_upper d) "+" = false /\
  FStr.is_char (hex_upper d) "x" = false /\
  FStr.is_char (hex_upper d) "X" = false.
Proof. intros H. each_nibble d H; repeat split; reflexivity. Qed.

Lemma mod16_range (u : Z) : 0 <= u mod 16 < 16.
Proof. apply Z.mod_pos_bound. lia. Qed.

Lemma fixed_hex_length (n : nat) : forall u acc,
  String.length (fixed_hex n u acc) = (n + String.length acc)%nat.
Proof.
  induction n as [|m IH]; intros u acc; simpl; [reflexivity|].
  rewrite IH. simpl. lia.
Qed.

Lemma append_cons (c : ascii) (s t : string) :
  String c s ++ t = String c (s ++ t).
Proof. reflexivity. Qed.

Lemma append_assoc (s t r : string) : (s ++ t) ++ r = s ++ (t ++ r).
Proof.
  induction s as [|c s IH]; [reflexivity|].
  rewrite !append_cons, IH. reflexivity.
Qed.

Lemma append_length (s t : string) :
  String.length (s ++ t) = (String.length s + String.length t)%nat.
Proof.
  induction s as [|c s IH]; [reflexivity|].
  rewrite append_cons. simpl. rewrite IH. reflexivity.
Qed.

Lemma fixed_hex_app (n : nat) : forall u acc,
  fixed_hex n u acc = fixed_hex n u EmptyString ++ acc.
Proof.
  induction n as [|m IH]; intros u acc; simpl; [reflexivity|].
  rewrite (IH _ (String _ acc)), (IH _ (String _ EmptyString)).
  rewrite append_assoc. reflexivity.
Qed.

Lemma fixed_hex_split (k : nat) : forall j u acc,
  fixed_hex (j + k) u acc = fixed_hex j (u / 16 ^ Z.of_nat k) (fixed_hex k u acc).
Proof.
  induction k as [|k IH]; intros j u acc.
  - rewrite Nat.add_0_r. simpl. rewrite Z.div_1_r. reflexivity.
  - replace (j + S k)%nat with (S (j + k)) by lia. simpl fixed_hex.
    rewrite IH. f_equal.
    rewrite Nat2Z.inj_succ, Z.pow_succ_r by lia.
    rewrite Z.div_div by lia. reflexivity.
Qed.

Lemma fixed_hex_zero (j : nat) : forall acc,
  fixed_hex j 0 acc = FStr.pad j "0"%char acc.
Proof.
  induction j as [|j IH]; intros acc; simpl; [reflexivity|].
  change (0 / 16) with 0. rewrite IH. clear IH.
  induction j as [|j IH]; simpl; [reflexivity|]. rewrite IH. reflexivity.
Qed.

Lemma fixed_hex_all_upper (n : nat) : forall u acc,
  all_upper_hex acc = true -> all_upper_hex (fixed_hex n u acc) = true.
Proof.
  induction n as [|m IH]; intros u acc Hacc; simpl; [exact Hacc|].
  apply IH. simpl. rewrite hex_upper_is_upper by apply mod16_range.
  exact Hacc.
Qed.

(** The digit loop stops after [k] digits, and those are all of [u]. *)
Lemma hex_digits_fixed (f : nat) : forall u acc,
  0 <= u < 16 ^ Z.of_nat (S f) ->
  exists k, (1 <= k <= S f)%nat /\ u / 16 ^ Z.of_nat k = 0 /\
            hex_digits (S f) u acc = fixed_hex k u acc.
Proof.
  induction f as [|f IH]; intros u acc Hu.
  - exists 1%nat. simpl hex_digits. change (16 ^ Z.of_nat 1) with 16 in *.
    assert (u / 16 = 0) as -> by (apply Z.div_small; lia).
    simpl. repeat split; lia.
  - simpl hex_digits. destruct (u / 16 =? 0) eqn:E.
    + apply Z.eqb_eq in E. exists 1%nat.
      change (16 ^ Z.of_nat 1) with 16. repeat split; try lia.
    + assert (0 <= u / 16 < 16 ^ Z.of_nat (S f)) as Hq.
      { rewrite (Nat2Z.inj_succ (S f)), Z.pow_succ_r in Hu by lia.
        split; [apply Z.div_pos; lia|].
        apply Z.div_lt_upper_bound; lia. }
      destruct (IH (u / 16) (String (hex_upper (u mod 16)) acc) Hq)
        as (k & Hk & Hz & Heq).
      exists (S k). split; [lia|]. split.
      * rewrite Nat2Z.inj_succ, Z.pow_succ_r by lia.
        rewrite <- Z.div_div by lia. exact Hz.
      * simpl hex_digits in Heq. rewrite Heq. reflexivity.
Qed.

(** [%016llX] writes exactly the sixteen digits of the value. *)
Lemma Printf_016llX_fixed (v : Z) :
  Printf_016llX v = fixed_hex 16 (to_uint64 v) EmptyString.
Proof.
  unfold Printf_016llX.
  assert (0 <= to_uint64 v < 16 ^ Z.of_nat 16) as Hu.
  { unfold to_uint64, UINT64_MOD. change (16 ^ Z.of_nat 16) with (2 ^ 64).
    apply Z.mod_pos_bound. lia. }
  destruct (hex_digits_fixed 15 (to_uint64 v) EmptyString Hu)
    as (k & Hk & Hz & Heq).
  rewrite Heq, fixed_hex_length. simpl String.length.
  replace (16 - (k + 0))%nat with (16 - k)%nat by lia.
  rewrite <- fixed_hex_zero, <- Hz.
  rewrite <- fixed_hex_split. f_equal. lia.
Qed.

Lemma mod16_step (u : Z) (m : nat) :
  u mod 16 ^ Z.of_nat (S m) = (u / 16) mod 16 ^ Z.of_nat m * 16 + u mod 16.
Proof.
  rewrite Nat2Z.inj_succ, Z.pow_succ_r by lia.
  assert (0 < 16 ^ Z.of_nat m) by (apply Z.pow_pos_nonneg; lia).
  rewrite Z.rem_mul_r by lia. lia.
Qed.

(** Reading back [n] written digits shifts the accumulator by [n]
    digits and adds the value they spell, provided it fits 64 bits. *)
Lemma parse_hex_fixed (n : nat) : forall u acc a,
  0 <= a ->
  a * 16 ^ Z.of_nat n + u mod 16 ^ Z.of_nat n < UINT64_MOD ->
  parse_hex (fixed_hex n u acc) a =
  parse_hex acc (a * 16 ^ Z.of_nat n + u mod 16 ^ Z.of_nat n).
Proof.
  induction n as [|m IH]; intros u acc a Ha Hfit.
  - simpl. rewrite Z.mod_1_r. f_equal. lia.
  - assert (0 < 16 ^ Z.of_nat m) as Hpos by (apply Z.pow_pos_nonneg; lia).
    pose proof (Z.mod_pos_bound (u / 16) _ Hpos) as Hq.
    pose proof (mod16_range u) as Hr.
    assert (16 ^ Z.of_nat (S m) = 16 ^ Z.of_nat m * 16) as Hpow.
    { rewrite Nat2Z.inj_succ, Z.pow_succ_r by lia. lia. }
    rewrite mod16_step in Hfit. rewrite Hpow in Hfit.
    simpl fixed_hex. rewrite IH by nia.
    simpl parse_hex. rewrite hex_value_upper by exact Hr.
    rewrite mod16_step, Hpow.
    replace ((a * 16 ^ Z.of_nat m + (u / 16) mod 16 ^ Z.of_nat m) * 16 + u mod 16)
      with (a * (16 ^ Z.of_nat m * 16) +
            ((u / 16) mod 16 ^ Z.of_nat m * 16 + u mod 16)) by lia.
    destruct (Z.ltb_spec
      (a * (16 ^ Z.of_nat m * 16) +
       ((u / 16) mod 16 ^ Z.of_nat m * 16 + u mod 16)) UINT64_MOD);
      [reflexivity | lia].
Qed.

(** The first three characters of a sixteen-digit conversion. *)
Lemma fixed_hex_16_head (u : Z) :
  exists d1 d2 d3 rest,
    0 <= d1 < 16 /\ 0 <= d2 < 16 /\ 0 <= d3 < 16 /\
    fixed_hex 16 u EmptyString =
    String (hex_upper d1) (String (hex_upper d2) (String (hex_upper d3) rest)).
Proof.
  change 16%nat with (3 + 13)%nat. rewrite fixed_hex_split.
  set (q := u / 16 ^ Z.of_nat 13). simpl fixed_hex at 1.
  exists (q / 16 / 16 mod 16), (q / 16 mod 16), (q mod 16).
  eexists. repeat split; try apply mod16_range.
Qed.

Lemma Strtoui64_16_fixed (u : Z) :
  0 <= u < UINT64_MOD ->
  Strtoui64_16 (fixed_hex 16 u EmptyString) = u.
Proof.
  intros Hu. unfold Strtoui64_16.
  destruct (fixed_hex_16_head u) as (d1 & d2 & d3 & rest & H1 & H2 & H3 & Heq).
  destruct (hex_upper_plain d1 H1) as (Hs & Hm & Hp & _ & _).
  destruct (hex_upper_plain d2 H2) as (_ & _ & _ & Hx & HX).
  assert (skip_space (fixed_hex 16 u EmptyString) = fixed_hex 16 u EmptyString)
    as ->.
  { rewrite Heq. simpl. rewrite Hs. reflexivity. }
  assert (skip_prefix (fixed_hex 16 u EmptyString) = fixed_hex 16 u EmptyString)
    as Hpre.
  { rewrite Heq. unfold skip_prefix. rewrite Hx, HX.
    rewrite Bool.andb_false_r. reflexivity. }
  rewrite Heq at 1. rewrite Hm, Hp, Hpre.
  rewrite parse_hex_fixed.
  - simpl parse_hex. change (16 ^ Z.of_nat 16) with UINT64_MOD.
    rewrite Z.mod_small by exact Hu. lia.
  - lia.
  - change (16 ^ Z.of_nat 16) with UINT64_MOD.
    pose proof (Z.mod_pos_bound u UINT64_MOD). unfold UINT64_MOD in *. lia.
Qed.

Lemma to_int64_to_uint64 (v : Z) :
  int64_range v -> to_int64 (to_uint64 v) = v.
Proof.
  unfold int64_range, to_int64, to_uint64, UINT64_MOD. intros Hv.
  rewrite Z.mod_mod by lia.
  destruct (Z_lt_dec v 0) as [Hneg|Hpos].
  - replace (v mod 2 ^ 64) with (v + 2 ^ 64).
    + destruct (Z.ltb_spec (v + 2 ^ 64) (2 ^ 63)); lia.
    + apply Z.mod_unique with (q := -1); lia.
  - rewrite Z.mod_small by lia.
    destruct (Z.ltb_spec v (2 ^ 63)); lia.
Qed.

Lemma to_uint64_range (v : Z) : 0 <= to_uint64 v < UINT64_MOD.
Proof. apply Z.mod_pos_bound. reflexivity. Qed.

Lemma take_append (a b : string) : FStr.take (String.length a) (a ++ b) = a.
Proof.
  induction a as [|c a IH].
  - destruct b; reflexivity.
  - rewrite append_cons. simpl. rewrite IH. reflexivity.
Qed.

Lemma drop_append (a b : string) : FStr.drop (String.length a) (a ++ b) = b.
Proof.
  induction a as [|c a IH].
  - destruct b; reflexivity.
  - rewrite append_cons. exact IH.
Qed.

(** A string of upper-case digits holds no ["0x"] to remove. *)
Lemma Replace0x_upper_hex (s : string) :
  all_upper_hex s = true -> FStr.Replace0x s = s.
Proof.
  induction s as [|c1 t IH]; intros Hall; [reflexivity|].
  simpl in Hall. apply andb_prop in Hall as [_ Ht].
  destruct t as [|c2 r]; [reflexivity|].
  specialize (IH Ht).
  assert (FStr.is_char c2 "x" = false /\ FStr.is_char c2 "X" = false) as [Hx HX].
  { simpl in Ht. apply andb_prop in Ht as [Hc2 _].
    unfold is_upper_hex, code in Hc2. unfold FStr.is_char.
    split; apply Ascii.eqb_neq; intros ->; discriminate Hc2. }
  change (FStr.Replace0x (String c1 (String c2 r))) with
    (if FStr.is_char c1 "0" && (FStr.is_char c2 "x" || FStr.is_char c2 "X")
     then FStr.Replace0x r else String c1 (FStr.Replace0x (String c2 r))).
  rewrite Hx, HX, Bool.andb_false_r, IH. reflexivity.
Qed.

Lemma FromString_of_digits (hs ls : string) :
  String.length hs = 16%nat -> String.length ls = 16%nat ->
  all_upper_hex hs = true -> all_upper_hex ls = true ->
  FStr.Replace0x ("0x" ++ hs ++ ls) = hs ++ ls /\
  FStr.Left 16 (hs ++ ls) = hs /\ FStr.Right 16 (hs ++ ls) = ls /\
  FromString ("0x" ++ hs ++ ls) =
    {| Low := to_int64 (Strtoui64_16 ls); High := to_int64 (Strtoui64_16 hs) |}.
Proof.
  intros Hh Hl Uh Ul.
  assert (all_upper_hex (hs ++ ls) = true) as Uhl.
  { clear Hh. induction hs as [|c hs IH]; [exact Ul|].
    rewrite append_cons. simpl in *. apply andb_prop in Uh as [-> Uh].
    exact (IH Uh). }
  assert (FStr.Replace0x ("0x" ++ hs ++ ls) = hs ++ ls) as Hclean.
  { rewrite !append_cons. change (EmptyString ++ hs ++ ls) with (hs ++ ls).
    change (FStr.Replace0x (String "0" (String "x" (hs ++ ls))))
      with (FStr.Replace0x (hs ++ ls)).
    apply Replace0x_upper_hex, Uhl. }
  assert (FStr.Left 16 (hs ++ ls) = hs) as HL.
  { unfold FStr.Left. change (Z.to_nat 16) with 16%nat.
    rewrite <- Hh. apply take_append. }
  assert (FStr.Right 16 (hs ++ ls) = ls) as HR.
  { unfold FStr.Right. rewrite append_length, Hh, Hl.
    change (16 + 16 - Z.to_nat 16)%nat with 16%nat.
    rewrite <- Hh. apply drop_append. }
  repeat split; try assumption.
  unfold FromString. rewrite Hclean, HL, HR.
  unfold FStr.Len. rewrite append_length, Hh, Hl. reflexivity.
Qed.

(** C10. For every identifier whose halves are [int64] values, also
    negative ones, [ToString] prints ["0x"] followed by 32 upper-case
    hexadecimal digits, the [High] half before the [Low] half;
    [FromString] removes the prefix, reads the left 16 digits as [High]
    and the right 16 digits as [Low], and returns the identifier it was
    printed from. *)
Theorem FDialogueId_FromString_ToString (id : FDialogueId) :
  FDialogueId_wf id ->
  exists hs ls : string,
    ToString id = "0x" ++ hs ++ ls /\
    String.length hs = 16%nat /\ String.length ls = 16%nat /\
    all_upper_hex hs = true /\ all_upper_hex ls = true /\
    FStr.Replace0x (ToString id) = hs ++ ls /\
    FStr.Left 16 (hs ++ ls) = hs /\ FStr.Right 16 (hs ++ ls) = ls /\
    to_int64 (Strtoui64_16 hs) = High id /\
    to_int64 (Strtoui64_16 ls) = Low id /\
    FromString (ToString id) = id.
Proof.
  intros [HLow HHigh].
  exists (fixed_hex 16 (to_uint64 (High id)) EmptyString),
         (fixed_hex 16 (to_uint64 (Low id)) EmptyString).
  assert (ToString id =
          "0x" ++ fixed_hex 16 (to_uint64 (High id)) EmptyString
               ++ fixed_hex 16 (to_uint64 (Low id)) EmptyString) as HS.
  { unfold ToString. rewrite !Printf_016llX_fixed. reflexivity. }
  pose proof (fixed_hex_length 16 (to_uint64 (High id)) EmptyString) as Lh.
  pose proof (fixed_hex_length 16 (to_uint64 (Low id)) EmptyString) as Ll.
  pose proof (fixed_hex_all_upper 16 (to_uint64 (High id)) EmptyString eq_refl)
    as Uh.
  pose proof (fixed_hex_all_upper 16 (to_uint64 (Low id)) EmptyString eq_refl)
    as Ul.
  destruct (FromString_of_digits _ _ Lh Ll Uh Ul) as (Hc & HL & HR & HF).
  assert (to_int64 (Strtoui64_16 (fixed_hex 16 (to_uint64 (High id)) EmptyString))
          = High id) as PH.
  { rewrite Strtoui64_16_fixed by apply to_uint64_range.
    apply to_int64_to_uint64, HHigh. }
  assert (to_int64 (Strtoui64_16 (fixed_hex 16 (to_uint64 (Low id)) EmptyString))
          = Low id) as PL.
  { rewrite Strtoui64_16_fixed by apply to_uint64_range.
    apply to_int64_to_uint64, HLow. }
  rewrite HS.
  repeat (split; [first [reflexivity | assumption]|]).
  rewrite HF, PH, PL. destruct id; reflexivity.
Qed.

(** The round trip at an identifier with two negative halves. *)
Lemma FDialogueId_FromString_ToString_witness :
  FDialogueId_wf {| Low := -1; High := - 2 ^ 63 |} /\
  exists hs ls : string,
    ToString {| Low := -1; High := - 2 ^ 63 |} = "0x" ++ hs ++ ls /\
    String.length hs = 16%nat /\ String.length ls = 16%nat /\
    all_upper_hex hs = true /\ all_upper_hex ls = true /\
    FStr.Replace0x (ToString {| Low := -1; High := - 2 ^ 63 |}) = hs ++ ls /\
    FStr.Left 16 (hs ++ ls) = hs /\ FStr.Right 16 (hs ++ ls) = ls /\
    to_int64 (Strtoui64_16 hs) = - 2 ^ 63 /\
    to_int64 (Strtoui64_16 ls) = -1 /\
    FromString (ToString {| Low := -1; High := - 2 ^ 63 |}) =
      {| Low := -1; High := - 2 ^ 63 |}.
Proof.
  assert (FDialogueId_wf {| Low := -1; High := - 2 ^ 63 |}) as Hwf.
  { unfold FDialogueId_wf, int64_range. simpl. lia. }
  split; [exact Hwf|].
  exact (FDialogueId_FromString_ToString {| Low := -1; High := - 2 ^ 63 |} Hwf).
Defined.

Example ToString_sample :
  ToString {| Low := -1; High := 26 |} = "0x000000000000001AFFFFFFFFFFFFFFFF".
Proof. reflexivity. Qed.

Example FromString_sample :
  FromString "0x000000000000001AFFFFFFFFFFFFFFFF" = {| Low := -1; High := 26 |}.
Proof. vm_compute. reflexivity. Qed.

End HexConversion.

(** ** More on identifiers and pausable types (DialogueTypes.h) *)

Section IdentifierStrings.

Import CRT.
Local Open Scope string_scope.
Local Open Scope Z_scope.

Lemma ToString_digits (id : FDialogueId) :
  ToString id =
  "0x" ++ fixed_hex 16 (to_uint64 (High id)) EmptyString
       ++ fixed_hex 16 (to_uint64 (Low id)) EmptyString.
Proof. unfold ToString. rewrite !Printf_016llX_fixed. reflexivity. Qed.

Lemma all_upper_hex_app (a b : string) :
  all_upper_hex a = true -> all_upper_hex b = true ->
  all_upper_hex (a ++ b) = true.
Proof.
  intros Ha Hb. induction a as [|c a IH]; [exact Hb|].
  rewrite append_cons. simpl in *. apply andb_prop in Ha as [-> Ha].
  exact (IH Ha).
Qed.

(** What [FromString] reads from a prefix and two blocks of sixteen
    digits with further digits between them. *)
Lemma FromString_outer_digits (hs mid ls : string) :
  String.length hs = 16%nat -> String.length ls = 16%nat ->
  all_upper_hex hs = true -> all_upper_hex mid = true ->
  all_upper_hex ls = true ->
  FromString ("0x" ++ hs ++ mid ++ ls) =
    {| Low := to_int64 (Strtoui64_16 ls); High := to_int64 (Strtoui64_16 hs) |}.
Proof.
  intros Hh Hl Uh Um Ul.
  assert (all_upper_hex (hs ++ mid ++ ls) = true) as Uall
    by (apply all_upper_hex_app; [|apply all_upper_hex_app]; assumption).
  assert (FStr.Replace0x ("0x" ++ hs ++ mid ++ ls) = hs ++ mid ++ ls) as Hclean.
  { rewrite !append_cons. change ("" ++ hs ++ mid ++ ls) with (hs ++ mid ++ ls).
    change (FStr.Replace0x (String "0" (String "x" (hs ++ mid ++ ls))))
      with (FStr.Replace0x (hs ++ mid ++ ls)).
    apply Replace0x_upper_hex, Uall. }
  assert (FStr.Left 16 (hs ++ mid ++ ls) = hs) as HL.
  { unfold FStr.Left. change (Z.to_nat 16) with 16%nat.
    rewrite <- Hh. apply take_append. }
  assert (FStr.Right 16 (hs ++ mid ++ ls) = ls) as HR.
  { unfold FStr.Right. rewrite <- append_assoc.
    rewrite (append_length (hs ++ mid) ls), Hl.
    change (Z.to_nat 16) with 16%nat.
    replace (String.length (hs ++ mid) + 16 - 16)%nat
      with (String.length (hs ++ mid)) by lia.
    apply drop_append. }
  unfold FromString. rewrite Hclean, HL, HR.
  unfold FStr.Len. rewrite !append_length, Hh, Hl.
  destruct (Z.leb_spec 32 (Z.of_nat (16 + (String.length mid + 16))));
    [reflexivity | lia].
Qed.

Lemma digits_read_back (v : Z) :
  int64_range v ->
  to_int64 (Strtoui64_16 (fixed_hex 16 (to_uint64 v) EmptyString)) = v.
Proof.
  intros Hv. rewrite Strtoui64_16_fixed by apply to_uint64_range.
  apply to_int64_to_uint64, Hv.
Qed.

(** X4. Between the sixteen digits printed for [High] and the sixteen
    printed for [Low], any run of further upper-case digits may be
    inserted: [FromString] reads the leftmost and the rightmost sixteen
    and returns the identifier, the middle is ignored. *)
Theorem FromString_ignores_middle (id : FDialogueId) (mid : string) :
  FDialogueId_wf id -> all_upper_hex mid = true ->
  FromString ("0x" ++ Printf_016llX (High id) ++ mid ++ Printf_016llX (Low id))
    = id.
Proof.
  intros [HLow HHigh] Um. rewrite !Printf_016llX_fixed.
  rewrite FromString_outer_digits;
    try apply fixed_hex_length; try (apply fixed_hex_all_upper; reflexivity);
    try exact Um.
  rewrite !digits_read_back by assumption. destruct id; reflexivity.
Qed.

Lemma FromString_ignores_middle_witness :
  FDialogueId_wf {| Low := -2; High := 7 |} /\
  all_upper_hex "DEADBEEF" = true /\
  FromString ("0x" ++ Printf_016llX 7 ++ "DEADBEEF" ++ Printf_016llX (-2))
    = {| Low := -2; High := 7 |}.
Proof.
  assert (FDialogueId_wf {| Low := -2; High := 7 |}) as Hwf
    by (unfold FDialogueId_wf, int64_range; simpl; lia).
  split; [exact Hwf|]. split; [reflexivity|].
  exact (FromString_ignores_middle {| Low := -2; High := 7 |} "DEADBEEF"
           Hwf eq_refl).
Defined.

Lemma FromString_ToString_id (id : FDialogueId) :
  FDialogueId_wf id -> FromString (ToString id) = id.
Proof.
  intros [HLow HHigh]. rewrite ToString_digits.
  pose proof (FromString_outer_digits
                (fixed_hex 16 (to_uint64 (High id)) EmptyString) EmptyString
                (fixed_hex 16 (to_uint64 (Low id)) EmptyString)) as H.
  change (EmptyString ++ fixed_hex 16 (to_uint64 (Low id)) EmptyString)
    with (fixed_hex 16 (to_uint64 (Low id)) EmptyString) in H.
  rewrite H; try apply fixed_hex_length;
    try (apply fixed_hex_all_upper; reflexivity); try reflexivity.
  rewrite !digits_read_back by assumption. destruct id; reflexivity.
Qed.

(** X1. Two different identifiers never print to the same string. *)
Theorem ToString_injective (a b : FDialogueId) :
  FDialogueId_wf a -> FDialogueId_wf b -> a <> b -> ToString a <> ToString b.
Proof.
  intros Ha Hb Hne Heq. apply Hne.
  rewrite <- (FromString_ToString_id a Ha), <- (FromString_ToString_id b Hb).
  rewrite Heq. reflexivity.
Qed.

Lemma ToString_injective_witness :
  FDialogueId_wf {| Low := 1; High := 0 |} /\
  FDialogueId_wf {| Low := 0; High := 1 |} /\
  {| Low := 1; High := 0 |} <> {| Low := 0; High := 1 |} /\
  ToString {| Low := 1; High := 0 |} <> ToString {| Low := 0; High := 1 |}.
Proof.
  assert (FDialogueId_wf {| Low := 1; High := 0 |}) as Ha
    by (unfold FDialogueId_wf, int64_range; simpl; lia).
  assert (FDialogueId_wf {| Low := 0; High := 1 |}) as Hb
    by (unfold FDialogueId_wf, int64_range; simpl; lia).
  assert ({| Low := 1; High := 0 |} <> {| Low := 0; High := 1 |}) as Hne
    by discriminate.
  split; [exact Ha|]. split; [exact Hb|]. split; [exact Hne|].
  exact (ToString_injective _ _ Ha Hb Hne).
Defined.

(** *** Letter case and short input *)

Lemma string_pair_ind (Q : string -> Prop) :
  Q EmptyString ->
  (forall c, Q (String c EmptyString)) ->
  (forall c1 c2 r, Q r -> Q (String c2 r) -> Q (String c1 (String c2 r))) ->
  forall s, Q s.
Proof.
  intros H0 H1 H2.
  assert (forall s, Q s /\ forall c, Q (String c s)) as H.
  { induction s as [|c s [IHs IHc]].
    - split; [exact H0 | exact H1].
    - split; [apply IHc|]. intros c'. apply H2; [exact IHs | apply IHc]. }
  intros s. apply H.
Qed.

Lemma Replace0x_step (c1 c2 : ascii) (r : string) :
  FStr.Replace0x (String c1 (String c2 r)) =
  if FStr.is_char c1 "0" && (FStr.is_char c2 "x" || FStr.is_char c2 "X")
  then FStr.Replace0x r else String c1 (FStr.Replace0x (String c2 r)).
Proof. reflexivity. Qed.

Lemma lower_char_facts (c : ascii) :
  hex_value (FStr.lower_char c) = hex_value c /\
  is_space (FStr.lower_char c) = is_space c /\
  FStr.is_char (FStr.lower_char c) "-" = FStr.is_char c "-" /\
  FStr.is_char (FStr.lower_char c) "+" = FStr.is_char c "+" /\
  FStr.is_char (FStr.lower_char c) "0" = FStr.is_char c "0" /\
  (FStr.is_char (FStr.lower_char c) "x" || FStr.is_char (FStr.lower_char c) "X")
    = (FStr.is_char c "x" || FStr.is_char c "X").
Proof.
  destruct c as [[] [] [] [] [] [] [] []]; vm_compute; repeat split.
Qed.

Lemma ToLower_length (s : string) :
  String.length (FStr.ToLower s) = String.length s.
Proof. induction s as [|c s IH]; simpl; [reflexivity | rewrite IH; reflexivity]. Qed.

Lemma take_ToLower (n : nat) : forall s,
  FStr.take n (FStr.ToLower s) = FStr.ToLower (FStr.take n s).
Proof.
  induction n as [|n IH]; intros [|c s]; simpl; try reflexivity.
  rewrite IH. reflexivity.
Qed.

Lemma drop_ToLower (n : nat) : forall s,
  FStr.drop n (FStr.ToLower s) = FStr.ToLower (FStr.drop n s).
Proof.
  induction n as [|n IH]; intros [|c s]; simpl; try reflexivity. apply IH.
Qed.

Lemma Replace0x_ToLower (s : string) :
  FStr.Replace0x (FStr.ToLower s) = FStr.ToLower (FStr.Replace0x s).
Proof.
  induction s as [| c | c1 c2 r IHr IHt] using string_pair_ind;
    [reflexivity | reflexivity |].
  change (FStr.ToLower (String c1 (String c2 r)))
    with (String (FStr.lower_char c1)
            (String (FStr.lower_char c2) (FStr.ToLower r))).
  rewrite !Replace0x_step.
  destruct (lower_char_facts c1) as (_ & _ & _ & _ & -> & _).
  destruct (lower_char_facts c2) as (_ & _ & _ & _ & _ & ->).
  destruct (FStr.is_char c1 "0" && (FStr.is_char c2 "x" || FStr.is_char c2 "X")).
  - exact IHr.
  - change (String (FStr.lower_char c2) (FStr.ToLower r))
      with (FStr.ToLower (String c2 r)).
    rewrite IHt. reflexivity.
Qed.

Lemma parse_hex_ToLower (s : string) : forall acc,
  parse_hex (FStr.ToLower s) acc = parse_hex s acc.
Proof.
  induction s as [|c s IH]; intros acc; [reflexivity|].
  simpl. destruct (lower_char_facts c) as (-> & _).
  destruct (hex_value c); [apply IH | reflexivity].
Qed.

Lemma skip_space_ToLower (s : string) :
  skip_space (FStr.ToLower s) = FStr.ToLower (skip_space s).
Proof.
  induction s as [|c s IH]; [reflexivity|].
  simpl. destruct (lower_char_facts c) as (_ & -> & _).
  destruct (is_space c); [exact IH | reflexivity].
Qed.

Lemma skip_prefix_ToLower (s : string) :
  skip_prefix (FStr.ToLower s) = FStr.ToLower (skip_prefix s).
Proof.
  destruct s as [|c1 [|c2 [|c3 r]]]; try reflexivity.
  simpl.
  destruct (lower_char_facts c1) as (_ & _ & _ & _ & -> & _).
  destruct (lower_char_facts c2) as (_ & _ & _ & _ & _ & ->).
  destruct (lower_char_facts c3) as (-> & _).
  destruct (FStr.is_char c1 "0" && (FStr.is_char c2 "x" || FStr.is_char c2 "X")
            && match hex_value c3 with Some _ => true | None => false end);
    reflexivity.
Qed.

Lemma Strtoui64_16_ToLower (s : string) :
  Strtoui64_16 (FStr.ToLower s) = Strtoui64_16 s.
Proof.
  unfold Strtoui64_16. rewrite skip_space_ToLower.
  destruct (skip_space s) as [|c r]; [reflexivity|].
  change (FStr.ToLower (String c r))
    with (String (FStr.lower_char c) (FStr.ToLower r)).
  destruct (lower_char_facts c) as (_ & _ & -> & -> & _).
  change (String (FStr.lower_char c) (FStr.ToLower r))
    with (FStr.ToLower (String c r)).
  rewrite !skip_prefix_ToLower, !parse_hex_ToLower. reflexivity.
Qed.

(** X3. [FromString] does not look at letter case: a string and its
    lower-case form are read as the same identifier, so digits [a]-[f]
    and the prefix [0X] are accepted like [A]-[F] and [0x]. *)
Theorem FromString_ignores_case (Str : string) :
  FromString (FStr.ToLower Str) = FromString Str.
Proof.
  unfold FromString, FStr.Len, FStr.Left, FStr.Right.
  rewrite Replace0x_ToLower, ToLower_length, take_ToLower, drop_ToLower.
  rewrite !Strtoui64_16_ToLower. reflexivity.
Qed.

Lemma Replace0x_length (s : string) :
  (String.length (FStr.Replace0x s) <= String.length s)%nat.
Proof.
  induction s as [| c | c1 c2 r IHr IHt] using string_pair_ind;
    [simpl; lia | simpl; lia |].
  rewrite Replace0x_step.
  destruct (FStr.is_char c1 "0" && (FStr.is_char c2 "x" || FStr.is_char c2 "X")).
  - simpl. lia.
  - change (String.length (String c1 (FStr.Replace0x (String c2 r))))
      with (S (String.length (FStr.Replace0x (String c2 r)))).
    change (String.length (String c1 (String c2 r)))
      with (S (String.length (String c2 r))).
    lia.
Qed.

(** X2. A string of fewer than 32 characters, the empty string
    included, is not rejected by [FromString]: it is read as the
    identifier with both halves zero, which [IsValid] refuses. *)
Theorem FromString_short (Str : string) :
  (String.length Str < 32)%nat ->
  FromString Str = {| Low := 0; High := 0 |} /\
  FDialogueId_IsValid (FromString Str) = false.
Proof.
  intros Hlen. pose proof (Replace0x_length Str) as Hle.
  assert (FromString Str = {| Low := 0; High := 0 |}) as ->.
  { unfold FromString, FStr.Len.
    destruct (Z.leb_spec 32 (Z.of_nat (String.length (FStr.Replace0x Str))));
      [lia | reflexivity]. }
  split; reflexivity.
Qed.

Lemma FromString_short_witness :
  (String.length "0x1A" < 32)%nat /\
  FromString "0x1A" = {| Low := 0; High := 0 |} /\
  FDialogueId_IsValid (FromString "0x1A") = false.
Proof.
  assert (String.length "0x1A" < 32)%nat as Hlen by (simpl; lia).
  split; [exact Hlen|]. exact (FromString_short "0x1A" Hlen).
Defined.

Lemma to_int64_range (u : Z) : int64_range (to_int64 u).
Proof.
  unfold int64_range, to_int64, UINT64_MOD.
  pose proof (Z.mod_pos_bound u (2 ^ 64) eq_refl) as H.
  destruct (Z.ltb_spec (u mod 2 ^ 64) (2 ^ 63)); lia.
Qed.

Lemma FromString_wf (Str : string) : FDialogueId_wf (FromString Str).
Proof.
  unfold FromString, FDialogueId_wf.
  destruct (32 <=? FStr.Len (FStr.Replace0x Str)); simpl.
  - split; apply to_int64_range.
  - unfold int64_range. lia.
Qed.

(** X15. Whatever the string, the identifier read from it is written
    and read back unchanged: [ToString] after [FromString] gives the one
    spelling of the identifier that [FromString] maps to itself. *)
Theorem FromString_ToString_FromString (Str : string) :
  FromString (ToString (FromString Str)) = FromString Str.
Proof. apply FromString_ToString_id, FromString_wf. Qed.

(** *** The default pause mask *)

(** X5. The initialiser of [PauseOn] shifts by the enumerator values,
    which are bit flags already, so the default mask is 22 and not the
    union 7 of the three flags it names: the flags it shares with the
    enumeration are [Dialogue], [DialogueFragment] and [Jump], and
    [FlowFragment] is not among them. *)
Theorem DefaultPauseOn_flags :
  DefaultPauseOn = 22 /\
  DefaultPauseOn <>
    Z.lor (Z.lor (PausableType_value PT_DialogueFragment)
                 (PausableType_value PT_Dialogue))
          (PausableType_value PT_FlowFragment) /\
  (forall t, has_flag DefaultPauseOn t = true <->
             t = PT_Dialogue \/ t = PT_DialogueFragment \/ t = PT_Jump).
Proof.
  split; [reflexivity|]. split; [vm_compute; discriminate|].
  intros t. destruct t; vm_compute; split; intros H;
    try discriminate H; try reflexivity; auto;
    destruct H as [H|[H|H]]; discriminate H.
Qed.

End IdentifierStrings.

(** ** Shadow round trip of the variable store *)

Section ShadowRoundTrip.

Import GlobalVariables.

Lemma fmap_recover {K : Type} `{Countable K} {A B : Type}
    (f g : A -> B) (h : A -> A) (m' m : gmap K A) :
  (forall x y, f x = g y -> h x = y) ->
  f <$> m' = g <$> m -> h <$> m' = m.
Proof.
  intros Hfg Heq. apply map_eq. intros k.
  apply (f_equal (fun mm => mm !! k)) in Heq.
  rewrite !lookup_fmap in Heq. rewrite lookup_fmap.
  destruct (m' !! k) as [x|], (m !! k) as [y|]; simpl in *; try congruence.
  f_equal. apply Hfg. congruence.
Qed.

Lemma pop_variable_recover (v' v : UDialogueVariable) :
  erase_variable v' = erase_variable (push_variable v) -> pop_variable v' = v.
Proof. destruct v', v; simpl; intros Heq; simplify_eq; reflexivity. Qed.

Lemma pop_namespace_recover (n' n : UDialogueVariableNamespace) :
  map_namespace erase_variable n' =
    map_namespace erase_variable (map_namespace push_variable n) ->
  map_namespace pop_variable n' = n.
Proof.
  destruct n' as [name' vars'], n as [name vars]. unfold map_namespace. simpl.
  intros Heq. injection Heq as Hname Hvars. f_equal; [exact Hname|].
  rewrite <- map_fmap_compose in Hvars.
  eapply fmap_recover; [|exact Hvars].
  intros x y Hxy. apply pop_variable_recover. exact Hxy.
Qed.

(** Whatever was written since the push, the pop gives back the store
    the push started from. *)
Lemma PopState_recover (l l' : Z) (s' s : UDialogueGlobalVariables) :
  frame s' = frame (PushState l s) -> PopState l' s' = s.
Proof.
  destruct s' as [nss' lvl'], s as [nss lvl]. unfold frame, PushState, PopState.
  simpl. intros Heq. injection Heq as Hn Hl. f_equal; [|lia].
  rewrite <- map_fmap_compose in Hn.
  eapply fmap_recover; [|exact Hn].
  intros x y Hxy. apply pop_namespace_recover. exact Hxy.
Qed.

Lemma frame_store_variable (s : UDialogueGlobalVariables) (FullName : string)
    (var var' : UDialogueVariable) :
  GetVariable s FullName = Some var ->
  erase_variable var' = erase_variable var ->
  frame (store_variable s FullName var') = frame s.
Proof.
  unfold GetVariable, store_variable, GetNamespace.
  destruct (ParseVariableName FullName) as [[ns v]|]; [|discriminate].
  destruct (Namespaces s !! ns) as [n|] eqn:En; [|discriminate].
  intros Hv He. unfold frame. simpl. f_equal.
  rewrite fmap_insert. apply insert_id.
  rewrite lookup_fmap, En. simpl. f_equal.
  unfold map_namespace. simpl. f_equal.
  rewrite fmap_insert. symmetry. apply insert_id.
  rewrite lookup_fmap, Hv. simpl. congruence.
Qed.

Lemma frame_apply_set (op : StoreOp) (s : UDialogueGlobalVariables) :
  is_set op = true -> frame (apply_op s op) = frame s.
Proof.
  destruct op as [n v|n v|n v|l|l]; try discriminate; intros _; simpl.
  - unfold SetBool. destruct (GetVariable s n) as [[nm x st|nm x st|nm x st]|] eqn:E;
      simpl; try reflexivity.
    eapply frame_store_variable; [exact E|reflexivity].
  - unfold SetInt. destruct (GetVariable s n) as [[nm x st|nm x st|nm x st]|] eqn:E;
      simpl; try reflexivity.
    eapply frame_store_variable; [exact E|reflexivity].
  - unfold SetString. destruct (GetVariable s n) as [[nm x st|nm x st|nm x st]|] eqn:E;
      simpl; try reflexivity.
    eapply frame_store_variable; [exact E|reflexivity].
Qed.

Lemma run_app (a b : list StoreOp) (s : UDialogueGlobalVariables) :
  run (a ++ b) s = run b (run a s).
Proof. apply fold_left_app. Qed.

(** A balanced sequence leaves the shadow stacks and the level as they
    were: only live values may differ. *)
Lemma Balanced_frame (body : list StoreOp) :
  Balanced body -> forall s, frame (run body s) = frame s.
Proof.
  induction 1 as [|op r Hop _ IHr|l l' body r _ IHb _ IHr]; intros s.
  - reflexivity.
  - change (run (op :: r) s) with (run r (apply_op s op)).
    rewrite IHr. apply frame_apply_set, Hop.
  - change (run (OpPushState l :: (body ++ OpPopState l' :: r)%list) s)
      with (run (body ++ OpPopState l' :: r) (PushState l s)).
    rewrite run_app.
    change (run (OpPopState l' :: r) (run body (PushState l s)))
      with (run r (PopState l' (run body (PushState l s)))).
    rewrite (PopState_recover l l' _ s (IHb _)). apply IHr.
Qed.

Lemma balanced_Segments (ops : list StoreOp) :
  forall d, balanced d ops = true -> Segments d ops.
Proof.
  induction ops as [|op r IH]; intros d Hb.
  - simpl in Hb. apply Nat.eqb_eq in Hb. subst d. constructor.
  - assert (is_set op = true -> balanced d r = true -> Segments d (op :: r))
      as Hset.
    { intros Hop Hr. specialize (IH d Hr). destruct d as [|d'].
      - simpl in *. constructor; assumption.
      - simpl in *. destruct IH as (b & l & r' & -> & Hbal & Hseg).
        exists (op :: b), l, r'. repeat split; try assumption.
        constructor; assumption. }
    destruct op as [n v|n v|n v|l|l]; try (apply Hset; [reflexivity|exact Hb]).
    + simpl in Hb. specialize (IH (S d) Hb).
      destruct IH as (b & l0 & r' & -> & Hbal & Hseg).
      destruct d as [|d'].
      * simpl in *. constructor; assumption.
      * simpl in Hseg. destruct Hseg as (b' & l1 & r'' & -> & Hbal' & Hseg').
        exists (OpPushState l :: (b ++ OpPopState l0 :: b')%list), l1, r''.
        repeat split; try assumption.
        -- simpl. f_equal. rewrite <- app_assoc. reflexivity.
        -- constructor; assumption.
    + destruct d as [|d']; [discriminate|]. simpl in Hb.
      exists [], l, r. repeat split; [constructor|apply IH, Hb].
Qed.

(** C1. Take any run of store operations that reaches a [PushState],
    then a balanced sequence of sets and nested [PushState]/[PopState]
    pairs, then the matching [PopState].  The store after that pop is the
    store just before the push; so every variable's live value, read with
    [GetVariable] or by any getter, whatever it computes from the store,
    is the value it had immediately before the push. *)
Theorem PopState_restores_PushState
    (s : UDialogueGlobalVariables) (pre body : list StoreOp) (l l' : Z) :
  balanced 0 body = true ->
  run (pre ++ OpPushState l :: body ++ [OpPopState l']) s = run pre s /\
  forall FullName : string,
    GetVariable (run (pre ++ OpPushState l :: body ++ [OpPopState l']) s) FullName
      = GetVariable (run pre s) FullName /\
    forall (A : Type) (get : UDialogueGlobalVariables -> string -> A),
      get (run (pre ++ OpPushState l :: body ++ [OpPopState l']) s) FullName
        = get (run pre s) FullName.
Proof.
  intros Hb.
  assert (run (pre ++ OpPushState l :: body ++ [OpPopState l']) s = run pre s)
    as Heq.
  { rewrite run_app.
    change (run (OpPushState l :: body ++ [OpPopState l']) (run pre s))
      with (run (body ++ [OpPopState l']) (PushState l (run pre s))).
    rewrite run_app.
    change (run [OpPopState l'] (run body (PushState l (run pre s))))
      with (PopState l' (run body (PushState l (run pre s)))).
    apply (PopState_recover l l').
    apply Balanced_frame. exact (balanced_Segments body 0 Hb). }
  split; [exact Heq|]. intros FullName. rewrite Heq. repeat split.
Qed.

(** A nested push/push/pop/pop around writes to all three variables of
    the sample store, after an earlier committed write. *)
Lemma PopState_restores_PushState_witness :
  balanced 0 [OpSetInt "Game.Score" 7; OpPushState 2;
              OpSetBool "Game.Met" true; OpSetString "Game.Title" "Knight";
              OpPopState 2; OpSetInt "Game.Score" 9] = true /\
  run ([OpSetInt "Game.Score" 5] ++ OpPushState 1 ::
         [OpSetInt "Game.Score" 7; OpPushState 2;
          OpSetBool "Game.Met" true; OpSetString "Game.Title" "Knight";
          OpPopState 2; OpSetInt "Game.Score" 9] ++ [OpPopState 1]) sample_store
    = run [OpSetInt "Game.Score" 5] sample_store.
Proof.
  split; [reflexivity|].
  apply (PopState_restores_PushState sample_store [OpSetInt "Game.Score" 5]
           [OpSetInt "Game.Score" 7; OpPushState 2;
            OpSetBool "Game.Met" true; OpSetString "Game.Title" "Knight";
            OpPopState 2; OpSetInt "Game.Score" 9] 1 1).
  reflexivity.
Defined.

Example nested_pop_restores_inner_start :
  GetVariable (run [OpPushState 1; OpSetInt "Game.Score" 7; OpPushState 2;
                    OpSetInt "Game.Score" 8; OpPopState 2] sample_store)
              "Game.Score" = Some (IntVariable "Game.Score" 7 [3]).
Proof. vm_compute. reflexivity. Qed.

Example set_is_live_while_shadowed :
  GetVariable (run [OpPushState 1; OpSetInt "Game.Score" 7] sample_store)
              "Game.Score" = Some (IntVariable "Game.Score" 7 [3]).
Proof. vm_compute. reflexivity. Qed.

(** Names that resolve to no variable: [GetVariable] gives nothing. *)
Example unknown_namespace : GetVariable sample_store "World.Score" = None.
Proof. vm_compute. reflexivity. Qed.

Example name_without_dot : GetVariable sample_store "Score" = None.
Proof. vm_compute. reflexivity. Qed.

End ShadowRoundTrip.

(** ** Connections made by the asset generator *)

Section Connections.

Import AssetGenerator.

Lemma alter_insert {A : Type} (f : A -> A) (l : list A) :
  forall (i : nat) (x : A), l !! i = Some x -> alter f i l = <[i := f x]> l.
Proof.
  induction l as [|y l IH]; intros i x Hx; [discriminate|].
  destruct i as [|i]; simpl in *.
  - injection Hx as ->. reflexivity.
  - f_equal. apply IH, Hx.
Qed.

Lemma node_of_Some (objs : gmap string UDialogueObject) (id : string)
    (n : Node.UDialogueNode) :
  node_of objs id = Some n -> Find objs id = Some (NodeObject n).
Proof.
  unfold node_of. destruct (Find objs id) as [[m|a b|a b]|]; simpl; congruence.
Qed.

Lemma ProcessConnection_skip (objs : gmap string UDialogueObject)
    (ConnDef : FDialogueConnectionDef) :
  node_of objs (SourceId ConnDef) = None \/
  node_of objs (TargetId ConnDef) = None \/
  (exists src, node_of objs (SourceId ConnDef) = Some src /\
               Z.of_nat (length (Node.OutputPins src)) <= SourcePin ConnDef) ->
  ProcessConnection ConnDef objs = Some objs.
Proof.
  unfold ProcessConnection, node_of.
  destruct (Find objs (SourceId ConnDef)) as [src|];
    destruct (Find objs (TargetId ConnDef)) as [tgt|]; try reflexivity.
  destruct (CastNode src) as [sn|]; destruct (CastNode tgt) as [tn|];
    try reflexivity.
  intros [H|[H|(src' & H & Hle)]]; try discriminate.
  injection H as <-.
  destruct (Z.ltb_spec (SourcePin ConnDef)
              (Z.of_nat (length (Node.OutputPins sn)))); [lia|reflexivity].
Qed.

Lemma ProcessConnection_connect (objs : gmap string UDialogueObject)
    (ConnDef : FDialogueConnectionDef) (src tgt : Node.UDialogueNode)
    (pin : OutputPin.UDialogueOutputPin) :
  node_of objs (SourceId ConnDef) = Some src ->
  node_of objs (TargetId ConnDef) = Some tgt ->
  0 <= SourcePin ConnDef ->
  Node.OutputPins src !! Z.to_nat (SourcePin ConnDef) = Some pin ->
  ProcessConnection ConnDef objs =
  Some (Add (SourceId ConnDef)
          (NodeObject
             (Node.set_OutputPins
                (<[Z.to_nat (SourcePin ConnDef) :=
                     OutputPin.AddConnection (connection_of ConnDef) pin]>
                   (Node.OutputPins src)) src)) objs).
Proof.
  intros Hs Ht Hpos Hpin.
  apply node_of_Some in Hs. apply node_of_Some in Ht.
  unfold ProcessConnection. rewrite Hs, Ht. simpl.
  apply lookup_lt_Some in Hpin as Hlt.
  destruct (Z.ltb_spec (SourcePin ConnDef)
              (Z.of_nat (length (Node.OutputPins src)))); [|lia].
  destruct (Z.ltb_spec (SourcePin ConnDef) 0); [lia|].
  rewrite (alter_insert _ _ _ _ Hpin). reflexivity.
Qed.

(** C9, as the generator behaves.  A definition whose source or target
    id resolves to no generated node, or whose source pin index is not
    below the number of output pins of the source node, creates nothing
    and the remaining definitions are processed.  A definition whose ids
    both resolve to nodes and whose source pin index addresses an output
    pin of the source node appends exactly one connection to that pin,
    carrying the target id and target pin index of the definition
    unchanged, whether or not that index is an input pin of the target;
    the other pins and objects are untouched and the remaining
    definitions are processed.  Ids resolve as the table compares its
    keys, without regard to letter case. *)
Theorem ProcessConnections_step (objs : gmap string UDialogueObject)
    (ConnDef : FDialogueConnectionDef) (rest : list FDialogueConnectionDef) :
  (node_of objs (SourceId ConnDef) = None \/
   node_of objs (TargetId ConnDef) = None \/
   (exists src, node_of objs (SourceId ConnDef) = Some src /\
                Z.of_nat (length (Node.OutputPins src)) <= SourcePin ConnDef) ->
   ProcessConnection ConnDef objs = Some objs /\
   ProcessConnections (ConnDef :: rest) objs = ProcessConnections rest objs)
  /\
  (forall src tgt pin,
     node_of objs (SourceId ConnDef) = Some src ->
     node_of objs (TargetId ConnDef) = Some tgt ->
     0 <= SourcePin ConnDef ->
     Node.OutputPins src !! Z.to_nat (SourcePin ConnDef) = Some pin ->
     let pin' :=
       {| OutputPin.Id := OutputPin.Id pin;
          OutputPin.OwnerId := OutputPin.OwnerId pin;
          OutputPin.Index := OutputPin.Index pin;
          OutputPin.Connections :=
            OutputPin.Connections pin ++
            [ {| Connection.TargetNodeId := TargetId ConnDef;
                 Connection.TargetPinIndex := TargetPin ConnDef |} ];
          OutputPin.Script := OutputPin.Script pin;
          OutputPin.Label := OutputPin.Label pin |} in
     let objs' :=
       Add (SourceId ConnDef)
         (NodeObject
            (Node.set_OutputPins
               (<[Z.to_nat (SourcePin ConnDef) := pin']> (Node.OutputPins src))
               src)) objs in
     ProcessConnection ConnDef objs = Some objs' /\
     ProcessConnections (ConnDef :: rest) objs = ProcessConnections rest objs').
Proof.
  split.
  - intros Hdead. pose proof (ProcessConnection_skip objs ConnDef Hdead) as H.
    split; [exact H|]. simpl. rewrite H. reflexivity.
  - intros src tgt pin Hs Ht Hpos Hpin pin' objs'.
    pose proof (ProcessConnection_connect objs ConnDef src tgt pin Hs Ht Hpos Hpin)
      as H.
    split; [exact H|]. simpl. rewrite H. reflexivity.
Qed.

(** A dangling target is skipped and the resolving definition after it
    is connected. *)
Lemma ProcessConnections_step_witness :
  node_of sample_objects (TargetId def_dangling) = None /\
  ProcessConnections [def_dangling; def_good] sample_objects =
    ProcessConnections [def_good] sample_objects /\
  node_of sample_objects (SourceId def_good) = Some node_A /\
  node_of sample_objects (TargetId def_good) = Some node_B /\
  0 <= SourcePin def_good /\
  Node.OutputPins node_A !! Z.to_nat (SourcePin def_good) = Some pin_A0 /\
  ProcessConnection def_good sample_objects =
    Some (Add "A"
            (NodeObject
               (Node.set_OutputPins
                  [OutputPin.AddConnection (connection_of def_good) pin_A0]
                  node_A)) sample_objects).
Proof.
  assert (node_of sample_objects (TargetId def_dangling) = None) as Hd
    by (vm_compute; reflexivity).
  assert (node_of sample_objects (SourceId def_good) = Some node_A) as Hs
    by (vm_compute; reflexivity).
  assert (node_of sample_objects (TargetId def_good) = Some node_B) as Ht
    by (vm_compute; reflexivity).
  assert (0 <= SourcePin def_good) as Hpos by (simpl; lia).
  assert (Node.OutputPins node_A !! Z.to_nat (SourcePin def_good) = Some pin_A0)
    as Hpin by reflexivity.
  destruct (ProcessConnections_step sample_objects def_dangling [def_good])
    as [Hskip _].
  destruct (ProcessConnections_step sample_objects def_good [])
    as [_ Hconn].
  split; [exact Hd|].
  split; [exact (proj2 (Hskip (or_intror (or_introl Hd))))|].
  split; [exact Hs|]. split; [exact Ht|]. split; [exact Hpos|].
  split; [exact Hpin|].
  exact (proj1 (Hconn node_A node_B pin_A0 Hs Ht Hpos Hpin)).
Defined.

(** C9, as stated, fails: target pin index 5 is no input pin of [B],
    which has a single one, and yet the definition is not skipped: the
    output pin of [A] receives a connection carrying that index. *)
Lemma invalid_target_pin_is_connected :
  node_of sample_objects "B" = Some node_B /\
  length (Node.InputPins node_B) = 1%nat /\
  TargetPin def_bad_target_pin = 5 /\
  node_of sample_objects "A" = Some node_A /\
  Node.OutputPins node_A = [pin_A0] /\
  OutputPin.Connections pin_A0 = [] /\
  ProcessConnections [def_bad_target_pin] sample_objects <> Some sample_objects /\
  (ProcessConnections [def_bad_target_pin] sample_objects ≫=
     fun objs => node_of objs "A") =
    Some (Node.set_OutputPins
            [OutputPin.AddConnection
               {| Connection.TargetNodeId := "B";
                  Connection.TargetPinIndex := 5 |} pin_A0] node_A).
Proof.
  assert ((ProcessConnections [def_bad_target_pin] sample_objects ≫=
             fun objs => node_of objs "A") =
          Some (Node.set_OutputPins
                  [OutputPin.AddConnection
                     {| Connection.TargetNodeId := "B";
                        Connection.TargetPinIndex := 5 |} pin_A0] node_A)) as H
    by (vm_compute; reflexivity).
  repeat split; try (vm_compute; reflexivity); try exact H.
  intros Heq. rewrite Heq in H. vm_compute in H. discriminate H.
Qed.

(** Ids are looked up without regard to letter case: a definition that
    spells [A] and [B] in lower case is connected, and the connection
    carries the target id as the definition spells it. *)
Example lower_case_ids_are_connected :
  passes_tests sample_objects def_lower_case = true /\
  (ProcessConnections [def_lower_case] sample_objects ≫=
     fun objs => connections_at objs "A" 0)
  = Some [ {| Connection.TargetNodeId := "b";
              Connection.TargetPinIndex := 0 |} ].
Proof. vm_compute. split; reflexivity. Qed.

(** A negative source pin index passes the comparison with the number
    of pins and reaches the array access. *)
Example negative_source_pin :
  ProcessConnection
    {| Id := "c4"; SourceId := "A"; SourcePin := -1;
       TargetId := "B"; TargetPin := 0 |} sample_objects = None.
Proof. vm_compute. reflexivity. Qed.

Example negative_source_pin_lower_case :
  ProcessConnections
    [ {| Id := "c6"; SourceId := "a"; SourcePin := -1;
         TargetId := "b"; TargetPin := 0 |} ] sample_objects = None.
Proof. vm_compute. reflexivity. Qed.

(** *** Whole runs of [ProcessConnections] *)

Lemma pin_extends_refl (pin : OutputPin.UDialogueOutputPin) : pin_extends pin pin.
Proof.
  unfold pin_extends. repeat split. exists []. rewrite app_nil_r. reflexivity.
Qed.

Lemma pin_extends_trans (a b c : OutputPin.UDialogueOutputPin) :
  pin_extends a b -> pin_extends b c -> pin_extends a c.
Proof.
  intros (H1 & H2 & H3 & H4 & H5 & x & Hx) (G1 & G2 & G3 & G4 & G5 & y & Hy).
  unfold pin_extends. repeat split; try congruence.
  exists (x ++ y). rewrite Hy, Hx, app_assoc. reflexivity.
Qed.

Lemma pins_extend_refl (pins : list OutputPin.UDialogueOutputPin) :
  Forall2 pin_extends pins pins.
Proof. induction pins; constructor; [apply pin_extends_refl | assumption]. Qed.

Lemma pins_extend_trans (a : list OutputPin.UDialogueOutputPin) :
  forall b c, Forall2 pin_extends a b -> Forall2 pin_extends b c ->
              Forall2 pin_extends a c.
Proof.
  induction a as [|x a IH]; intros b c Hab Hbc.
  - inversion Hab; subst. inversion Hbc; subst. constructor.
  - inversion Hab; subst. inversion Hbc; subst. constructor.
    + eapply pin_extends_trans; eassumption.
    + eapply IH; eassumption.
Qed.

Lemma node_extends_refl (n : Node.UDialogueNode) : node_extends n n.
Proof. unfold node_extends. repeat split. apply pins_extend_refl. Qed.

Lemma node_extends_trans (a b c : Node.UDialogueNode) :
  node_extends a b -> node_extends b c -> node_extends a c.
Proof.
  intros (H1 & H2 & H3 & H4 & H5) (G1 & G2 & G3 & G4 & G5).
  unfold node_extends. repeat split; try congruence.
  eapply pins_extend_trans; eassumption.
Qed.

Lemma object_extends_refl (o : UDialogueObject) : object_extends o o.
Proof. destruct o; simpl; [apply node_extends_refl | reflexivity..]. Qed.

Lemma object_extends_trans (a b c : UDialogueObject) :
  object_extends a b -> object_extends b c -> object_extends a c.
Proof.
  destruct a, b, c; simpl; try congruence; try discriminate.
  apply node_extends_trans.
Qed.

Lemma table_extends_refl (objs : gmap string UDialogueObject) (id : string) :
  option_Forall2 object_extends (objs !! id) (objs !! id).
Proof.
  destruct (objs !! id); constructor. apply object_extends_refl.
Qed.

Lemma table_extends_trans (a b c : gmap string UDialogueObject) (id : string) :
  option_Forall2 object_extends (a !! id) (b !! id) ->
  option_Forall2 object_extends (b !! id) (c !! id) ->
  option_Forall2 object_extends (a !! id) (c !! id).
Proof.
  intros Hab Hbc. inversion Hab as [x y Hxy Hx Hy | Hx Hy].
  - rewrite <- Hy in Hbc. inversion Hbc as [y' z Hyz Hy' Hz |]; subst.
    constructor. eapply object_extends_trans; eassumption.
  - rewrite <- Hy in Hbc. inversion Hbc. constructor.
Qed.

Lemma pins_extend_insert (pins : list OutputPin.UDialogueOutputPin) (k : nat)
    (pin : OutputPin.UDialogueOutputPin) (c : Connection.UDialogueConnection) :
  pins !! k = Some pin ->
  Forall2 pin_extends pins (<[k := OutputPin.AddConnection c pin]> pins).
Proof.
  revert k. induction pins as [|x pins IH]; intros k Hk; [discriminate|].
  destruct k as [|k]; simpl in *.
  - injection Hk as ->. constructor; [|apply pins_extend_refl].
    unfold pin_extends. repeat split. exists [c]. reflexivity.
  - constructor; [apply pin_extends_refl | apply IH, Hk].
Qed.

(** The three ways a turn of the loop can go. *)
Lemma ProcessConnection_cases (objs : gmap string UDialogueObject)
    (ConnDef : FDialogueConnectionDef) :
  (passes_tests objs ConnDef = false /\
   ProcessConnection ConnDef objs = Some objs) \/
  (passes_tests objs ConnDef = true /\ SourcePin ConnDef < 0 /\
   ProcessConnection ConnDef objs = None) \/
  (exists src pin,
     passes_tests objs ConnDef = true /\ 0 <= SourcePin ConnDef /\
     node_of objs (SourceId ConnDef) = Some src /\
     Node.OutputPins src !! Z.to_nat (SourcePin ConnDef) = Some pin /\
     ProcessConnection ConnDef objs =
     Some (Add (SourceId ConnDef)
             (NodeObject
                (Node.set_OutputPins
                   (<[Z.to_nat (SourcePin ConnDef) :=
                        OutputPin.AddConnection (connection_of ConnDef) pin]>
                      (Node.OutputPins src)) src)) objs)).
Proof.
  destruct (node_of objs (SourceId ConnDef)) as [src|] eqn:Hs.
  2:{ left. split; [unfold passes_tests; rewrite Hs; reflexivity|].
      apply ProcessConnection_skip. left. exact Hs. }
  destruct (node_of objs (TargetId ConnDef)) as [tgt|] eqn:Ht.
  2:{ left. split; [unfold passes_tests; rewrite Hs, Ht; reflexivity|].
      apply ProcessConnection_skip. right. left. exact Ht. }
  destruct (Z.ltb_spec (SourcePin ConnDef)
              (Z.of_nat (length (Node.OutputPins src)))) as [Hlt|Hge].
  2:{ left. split.
      - unfold passes_tests. rewrite Hs, Ht. apply Z.ltb_ge. exact Hge.
      - apply ProcessConnection_skip. right. right. exists src. split;
          [exact Hs | exact Hge]. }
  assert (passes_tests objs ConnDef = true) as Hp.
  { unfold passes_tests. rewrite Hs, Ht. apply Z.ltb_lt. exact Hlt. }
  destruct (Z.ltb_spec (SourcePin ConnDef) 0) as [Hneg|Hpos].
  - right. left. split; [exact Hp|]. split; [exact Hneg|].
    apply node_of_Some in Hs. apply node_of_Some in Ht.
    unfold ProcessConnection. rewrite Hs, Ht. simpl.
    destruct (Z.ltb_spec (SourcePin ConnDef)
                (Z.of_nat (length (Node.OutputPins src)))); [|lia].
    destruct (Z.ltb_spec (SourcePin ConnDef) 0); [reflexivity|lia].
  - right. right.
    destruct (lookup_lt_is_Some_2 (Node.OutputPins src)
                (Z.to_nat (SourcePin ConnDef))) as [pin Hpin]; [lia|].
    exists src, pin. split; [exact Hp|]. split; [exact Hpos|].
    split; [reflexivity|]. split; [exact Hpin|].
    eapply ProcessConnection_connect; eassumption.
Qed.

Lemma ProcessConnection_extends (objs objs' : gmap string UDialogueObject)
    (ConnDef : FDialogueConnectionDef) :
  ProcessConnection ConnDef objs = Some objs' ->
  forall id, option_Forall2 object_extends (objs !! id) (objs' !! id).
Proof.
  intros H id.
  destruct (ProcessConnection_cases objs ConnDef)
    as [(_ & E) | [(_ & _ & E) | (src & pin & _ & _ & Hs & Hpin & E)]];
    rewrite E in H; [|discriminate|]; injection H as <-.
  - apply table_extends_refl.
  - apply node_of_Some in Hs. unfold Find in Hs. unfold Add.
    destruct (decide (key (SourceId ConnDef) = id)) as [<-|Hne].
    + rewrite lookup_insert_eq, Hs. constructor. simpl.
      unfold node_extends. repeat split. simpl.
      apply pins_extend_insert, Hpin.
    + rewrite lookup_insert_ne by exact Hne. apply table_extends_refl.
Qed.

Lemma ProcessConnections_extends (Connections : list FDialogueConnectionDef) :
  forall objs objs' : gmap string UDialogueObject,
  ProcessConnections Connections objs = Some objs' ->
  forall id, option_Forall2 object_extends (objs !! id) (objs' !! id).
Proof.
  induction Connections as [|c cs IH]; intros objs objs' H id.
  - injection H as <-. apply table_extends_refl.
  - simpl in H. destruct (ProcessConnection c objs) as [objs1|] eqn:E;
      [|discriminate].
    eapply table_extends_trans.
    + eapply ProcessConnection_extends; eassumption.
    + eapply IH; eassumption.
Qed.

(** What the tests of the loop read is the same in an extended table. *)
Lemma extends_node_of (objs objs' : gmap string UDialogueObject) (id : string) :
  option_Forall2 object_extends (objs !! key id) (objs' !! key id) ->
  option_Forall2 node_extends (node_of objs id) (node_of objs' id).
Proof.
  unfold node_of, Find. intros H. inversion H as [o o' Ho|]; [|constructor].
  destruct o, o'; simpl in Ho; try discriminate Ho; simpl;
    constructor. exact Ho.
Qed.

Lemma extends_passes_tests (objs objs' : gmap string UDialogueObject) :
  (forall id, option_Forall2 object_extends (objs !! id) (objs' !! id)) ->
  forall c, passes_tests objs' c = passes_tests objs c.
Proof.
  intros H c. unfold passes_tests.
  pose proof (extends_node_of _ _ _ (H (key (SourceId c)))) as Hs.
  pose proof (extends_node_of _ _ _ (H (key (TargetId c)))) as Ht.
  inversion Hs as [s s' Hss|]; inversion Ht as [t t' Htt|]; try reflexivity.
  destruct Hss as (_ & _ & _ & _ & Hpins).
  apply Forall2_length in Hpins. rewrite Hpins. reflexivity.
Qed.

Lemma extends_connections_at (objs objs' : gmap string UDialogueObject)
    (id : string) (k : nat) (old : list Connection.UDialogueConnection) :
  option_Forall2 object_extends (objs !! key id) (objs' !! key id) ->
  connections_at objs id k = Some old ->
  exists added, connections_at objs' id k = Some (old ++ added).
Proof.
  intros H Hold. apply extends_node_of in H. unfold connections_at in *.
  inversion H as [n n' Hn Hx Hy|Hx Hy]; rewrite <- Hx in Hold; [|discriminate].
  destruct Hn as (_ & _ & _ & _ & Hpins).
  destruct (Node.OutputPins n !! k) as [pin|] eqn:Hpin; [|discriminate].
  injection Hold as <-.
  destruct (Forall2_lookup_l _ _ _ _ _ Hpins Hpin) as (pin' & Hpin' & Hext).
  rewrite Hpin'. destruct Hext as (_ & _ & _ & _ & _ & added & ->).
  exists added. reflexivity.
Qed.

(** X6. A run of [ProcessConnections] that ends only adds connections:
    an id that resolved to nothing still does, an object that is no node
    is unchanged, and a node keeps its id, technical name, kind, input
    pins and the number of its output pins, each output pin keeping its
    members and the connections it had, in their order, in front of the
    new ones. *)
Theorem ProcessConnections_only_adds
    (Connections : list FDialogueConnectionDef)
    (objs objs' : gmap string UDialogueObject) :
  ProcessConnections Connections objs = Some objs' ->
  forall id,
    (objs !! id = None -> objs' !! id = None) /\
    (forall o, objs !! id = Some o -> CastNode o = None ->
               objs' !! id = Some o) /\
    (forall n, objs !! id = Some (NodeObject n) ->
       exists n', objs' !! id = Some (NodeObject n') /\
         Node.Id n' = Node.Id n /\
         Node.TechnicalName n' = Node.TechnicalName n /\
         Node.InputPins n' = Node.InputPins n /\
         Node.Kind n' = Node.Kind n /\
         length (Node.OutputPins n') = length (Node.OutputPins n) /\
         forall k pin, Node.OutputPins n !! k = Some pin ->
           exists added,
             Node.OutputPins n' !! k =
             Some {| OutputPin.Id := OutputPin.Id pin;
                     OutputPin.OwnerId := OutputPin.OwnerId pin;
                     OutputPin.Index := OutputPin.Index pin;
                     OutputPin.Connections :=
                       OutputPin.Connections pin ++ added;
                     OutputPin.Script := OutputPin.Script pin;
                     OutputPin.Label := OutputPin.Label pin |}).
Proof.
  intros H id. pose proof (ProcessConnections_extends _ _ _ H id) as Hext.
  split; [|split].
  - intros Hn. rewrite Hn in Hext. inversion Hext. reflexivity.
  - intros o Ho Hcast. rewrite Ho in Hext.
    inversion Hext as [x y Hxy Hx Hy|]; subst.
    destruct o as [n|a b|a b]; [discriminate Hcast| |];
      simpl in Hxy; destruct y; congruence.
  - intros n Hn. rewrite Hn in Hext.
    inversion Hext as [x y Hxy Hx Hy|]; subst.
    destruct y as [n'|a b|a b]; simpl in Hxy; try discriminate Hxy.
    destruct Hxy as (H1 & H2 & H3 & H4 & Hpins).
    exists n'. repeat split; try assumption.
    + symmetry. eapply Forall2_length, Hpins.
    + intros k pin Hpin.
      destruct (Forall2_lookup_l _ _ _ _ _ Hpins Hpin)
        as ([pid pown pidx pconn pscr plab] & Hpin' &
            G1 & G2 & G3 & G4 & G5 & added & G6).
      simpl in *. subst. exists added. exact Hpin'.
Qed.

(** The hub [A] after three definitions, of which the first dangles. *)
Lemma ProcessConnections_only_adds_witness :
  ProcessConnections [def_dangling; def_good; def_bad_target_pin] sample_objects
    = Some (Add "A"
              (NodeObject
                 (Node.set_OutputPins
                    [OutputPin.AddConnection (connection_of def_bad_target_pin)
                       (OutputPin.AddConnection (connection_of def_good) pin_A0)]
                    node_A)) sample_objects) /\
  Find (Add "A"
          (NodeObject
             (Node.set_OutputPins
                [OutputPin.AddConnection (connection_of def_bad_target_pin)
                   (OutputPin.AddConnection (connection_of def_good) pin_A0)]
                node_A)) sample_objects) "Hero"
    = Some (CharacterObject "Hero" "Chr_Hero").
Proof.
  assert (ProcessConnections [def_dangling; def_good; def_bad_target_pin]
            sample_objects
          = Some (Add "A"
                    (NodeObject
                       (Node.set_OutputPins
                          [OutputPin.AddConnection
                             (connection_of def_bad_target_pin)
                             (OutputPin.AddConnection (connection_of def_good)
                                pin_A0)]
                          node_A)) sample_objects)) as H
    by (vm_compute; reflexivity).
  split; [exact H|].
  destruct (ProcessConnections_only_adds _ _ _ H (key "Hero"))
    as (_ & Hplain & _).
  apply Hplain; reflexivity.
Defined.

(** X7. [ProcessConnections] stops at the array access exactly if some
    definition has a negative source pin index and passes the tests
    before the access on the table the run starts with, that is, both
    its ids resolve to nodes there, looked up as the table compares its
    keys, without regard to letter case. *)
Theorem ProcessConnections_fails_iff
    (Connections : list FDialogueConnectionDef)
    (objs : gmap string UDialogueObject) :
  ProcessConnections Connections objs = None <->
  exists ConnDef, In ConnDef Connections /\ SourcePin ConnDef < 0 /\
                  is_node objs (SourceId ConnDef) = true /\
                  is_node objs (TargetId ConnDef) = true.
Proof.
  assert (forall o c, (passes_tests o c = true /\ SourcePin c < 0) <->
                      (SourcePin c < 0 /\ is_node o (SourceId c) = true /\
                       is_node o (TargetId c) = true)) as Hchar.
  { intros o c. unfold passes_tests, is_node.
    destruct (node_of o (SourceId c)) as [sn|];
      destruct (node_of o (TargetId c)) as [tn|];
      try (split; [intros [? ?]; discriminate
                  | intros (? & ? & ?); discriminate]).
    split.
    - intros [_ Hneg]. repeat split. exact Hneg.
    - intros (Hneg & _ & _). split; [|exact Hneg]. apply Z.ltb_lt. lia. }
  revert objs. induction Connections as [|c cs IH]; intros objs.
  - simpl. split; [discriminate | intros (? & [] & _)].
  - simpl.
    destruct (ProcessConnection_cases objs c)
      as [(Hp & E) | [(Hp & Hneg & E) | (src & pin & Hp & Hpos & _ & _ & E)]];
      rewrite E.
    + rewrite IH. split.
      * intros (d & Hin & Hd). exists d. split; [right; exact Hin | exact Hd].
      * intros (d & [<-|Hin] & Hd).
        -- destruct (proj2 (Hchar objs c)) as [Hp' _];
             [destruct Hd as (? & ? & ?); repeat split; assumption|].
           congruence.
        -- exists d. split; [exact Hin | exact Hd].
    + split; [intros _ | reflexivity].
      exists c. split; [left; reflexivity|]. apply Hchar. split; assumption.
    + pose proof (ProcessConnection_extends _ _ _ E) as Hext.
      rewrite IH. split.
      * intros (d & Hin & Hd). exists d. split; [right; exact Hin|].
        apply Hchar. apply Hchar in Hd.
        rewrite <- (extends_passes_tests _ _ Hext). exact Hd.
      * intros (d & [<-|Hin] & Hd); [lia|].
        exists d. split; [exact Hin|].
        apply Hchar. apply Hchar in Hd.
        rewrite (extends_passes_tests _ _ Hext). exact Hd.
Qed.

Lemma ProcessConnections_filter
    (Connections : list FDialogueConnectionDef)
    (objs : gmap string UDialogueObject) :
  ProcessConnections Connections objs =
  ProcessConnections (List.filter (passes_tests objs) Connections) objs.
Proof.
  assert (forall cs (o o' : gmap string UDialogueObject),
            (forall c, passes_tests o' c = passes_tests o c) ->
            ProcessConnections cs o' =
            ProcessConnections (List.filter (passes_tests o) cs) o') as Hgen.
  { induction cs as [|c cs IH]; intros o o' Heq; [reflexivity|].
    simpl. rewrite <- (Heq c).
    destruct (ProcessConnection_cases o' c)
      as [(Hp & E) | [(Hp & Hneg & E) | (src & pin & Hp & Hpos & _ & _ & E)]];
      rewrite Hp.
    - rewrite E. apply IH, Heq.
    - simpl. rewrite E. reflexivity.
    - simpl. rewrite E. apply IH. intros d.
      rewrite (extends_passes_tests _ _ (ProcessConnection_extends _ _ _ E)).
      apply Heq. }
  apply Hgen. reflexivity.
Qed.

(** X8. A definition that fails a test of the loop on the table the run
    starts with (an id that resolves to no node, or a source pin index
    not below the number of output pins) fails it wherever it stands in
    the array: removing all such definitions beforehand gives the same
    result, and when every definition is of this kind the table is
    returned as it was. *)
Theorem ProcessConnections_skipped_are_inert
    (Connections : list FDialogueConnectionDef)
    (objs : gmap string UDialogueObject) :
  ProcessConnections Connections objs =
    ProcessConnections (List.filter (passes_tests objs) Connections) objs /\
  (forallb (fun c => negb (passes_tests objs c)) Connections = true ->
   ProcessConnections Connections objs = Some objs).
Proof.
  split; [apply ProcessConnections_filter|].
  intros Hall. rewrite ProcessConnections_filter.
  replace (List.filter (passes_tests objs) Connections) with
    (@nil FDialogueConnectionDef); [reflexivity|].
  induction Connections as [|c cs IH]; [reflexivity|].
  simpl in Hall. apply andb_true_iff in Hall as [Hc Hcs].
  simpl. destruct (passes_tests objs c); [discriminate Hc|].
  apply IH, Hcs.
Qed.

Lemma ProcessConnections_remove (cs1 cs2 : list FDialogueConnectionDef)
    (c : FDialogueConnectionDef) (objs : gmap string UDialogueObject) :
  passes_tests objs c = false ->
  ProcessConnections (cs1 ++ c :: cs2) objs = ProcessConnections (cs1 ++ cs2) objs.
Proof.
  intros Hc.
  rewrite (ProcessConnections_filter (cs1 ++ c :: cs2)).
  rewrite (ProcessConnections_filter (cs1 ++ cs2)).
  rewrite !List.filter_app. simpl. rewrite Hc. reflexivity.
Qed.

Lemma ProcessConnections_lookup_None (cs : list FDialogueConnectionDef)
    (objs objs' : gmap string UDialogueObject) (id : string) :
  ProcessConnections cs objs = Some objs' ->
  objs !! id = None -> objs' !! id = None.
Proof.
  intros H Hn. pose proof (ProcessConnections_extends _ _ _ H id) as Hext.
  rewrite Hn in Hext. inversion Hext. reflexivity.
Qed.

Lemma node_of_key (objs : gmap string UDialogueObject) (a b : string) :
  key a = key b -> node_of objs a = node_of objs b.
Proof. intros H. unfold node_of, Find. rewrite H. reflexivity. Qed.

Lemma node_of_Add (objs : gmap string UDialogueObject) (a b : string)
    (o : UDialogueObject) :
  node_of (Add a o objs) b =
  if bool_decide (key a = key b) then CastNode o else node_of objs b.
Proof.
  unfold node_of, Find, Add. case_bool_decide as Hk.
  - rewrite Hk, lookup_insert_eq. reflexivity.
  - rewrite lookup_insert_ne by exact Hk. reflexivity.
Qed.

Lemma ProcessConnection_connections_at (objs objs' : gmap string UDialogueObject)
    (c : FDialogueConnectionDef) (id : string) (k : nat)
    (old : list Connection.UDialogueConnection) :
  ProcessConnection c objs = Some objs' ->
  connections_at objs id k = Some old ->
  connections_at objs' id k =
  Some (old ++ if passes_tests objs c && addresses id k c
               then [connection_of c] else []).
Proof.
  intros H Hold.
  destruct (ProcessConnection_cases objs c)
    as [(Hp & E) | [(_ & _ & E) | (src & pin & Hp & Hpos & Hs & Hpin & E)]];
    rewrite E in H; [|discriminate|]; injection H as <-.
  - rewrite Hp. simpl. rewrite app_nil_r. exact Hold.
  - rewrite Hp. simpl. unfold addresses.
    unfold connections_at in *. rewrite node_of_Add.
    case_bool_decide as Hk.
    + simpl. rewrite <- (node_of_key objs _ _ Hk), Hs in Hold.
      destruct (Z.eqb_spec (SourcePin c) (Z.of_nat k)) as [Hpk|Hpk].
      * rewrite Hpk, Nat2Z.id in *. rewrite Hpin in Hold. injection Hold as <-.
        rewrite list_lookup_insert_eq by (eapply lookup_lt_Some; exact Hpin).
        reflexivity.
      * rewrite list_lookup_insert_ne by lia.
        rewrite app_nil_r. exact Hold.
    + simpl. rewrite app_nil_r. exact Hold.
Qed.

Lemma ProcessConnections_pin_connections_aux
    (Connections : list FDialogueConnectionDef)
    (objs objs' : gmap string UDialogueObject) (id : string) (k : nat)
    (old : list Connection.UDialogueConnection) :
  ProcessConnections Connections objs = Some objs' ->
  connections_at objs id k = Some old ->
  connections_at objs' id k =
  Some (old ++
        map connection_of
          (List.filter (fun c => is_node objs (TargetId c) && addresses id k c)
             Connections)).
Proof.
  intros Hrun Hold.
  assert (forall c, is_node objs (TargetId c) && addresses id k c =
                    passes_tests objs c && addresses id k c) as Hsame.
  { intros c. unfold addresses, passes_tests, is_node.
    unfold connections_at in Hold.
    destruct (decide (key (SourceId c) = key id)) as [Hk|Hne].
    2:{ rewrite bool_decide_eq_false_2 by exact Hne.
        simpl. rewrite !andb_false_r. reflexivity. }
    rewrite bool_decide_eq_true_2 by exact Hk. simpl.
    rewrite (node_of_key objs _ _ Hk).
    destruct (node_of objs id) as [n|]; [|discriminate].
    destruct (Node.OutputPins n !! k) as [pin|] eqn:Hpin; [|discriminate].
    apply lookup_lt_Some in Hpin.
    destruct (node_of objs (TargetId c)); [|reflexivity]. simpl.
    destruct (Z.eqb_spec (SourcePin c) (Z.of_nat k)) as [->|_];
      [|rewrite andb_false_r; reflexivity].
    destruct (Z.ltb_spec (Z.of_nat k) (Z.of_nat (length (Node.OutputPins n))));
      [reflexivity | lia]. }
  rewrite (List.filter_ext _ _ Hsame).
  assert (forall cs (o o1 o2 : gmap string UDialogueObject) cur,
            (forall c, passes_tests o1 c = passes_tests o c) ->
            ProcessConnections cs o1 = Some o2 ->
            connections_at o1 id k = Some cur ->
            connections_at o2 id k =
            Some (cur ++ map connection_of
                    (List.filter (fun c => passes_tests o c && addresses id k c)
                       cs))) as Hgen.
  { induction cs as [|c cs IH]; intros o o1 o2 cur Heq H Hcur.
    - injection H as <-. simpl. rewrite app_nil_r. exact Hcur.
    - simpl in H. destruct (ProcessConnection c o1) as [o1'|] eqn:E;
        [|discriminate].
      pose proof (ProcessConnection_connections_at _ _ _ _ _ _ E Hcur) as Hstep.
      rewrite (Heq c) in Hstep.
      assert (forall d, passes_tests o1' d = passes_tests o d) as Heq'.
      { intros d.
        rewrite (extends_passes_tests _ _ (ProcessConnection_extends _ _ _ E)).
        apply Heq. }
      rewrite (IH o o1' o2 _ Heq' H Hstep). simpl.
      destruct (passes_tests o c && addresses id k c); simpl;
        rewrite <- app_assoc; reflexivity. }
  exact (Hgen Connections objs objs objs' old (fun _ => eq_refl) Hrun Hold).
Qed.

(** X9. After a run that ends, an output pin of a node holds the
    connections it had followed by one connection for each definition
    that names this pin as its source and whose target id resolves to a
    node, in the order of the array and with the target id and target
    pin index of the definition; nothing is merged and nothing is
    dropped for being a duplicate.  Ids are compared as the table
    compares its keys, without regard to letter case. *)
Theorem ProcessConnections_pin_connections
    (Connections : list FDialogueConnectionDef)
    (objs objs' : gmap string UDialogueObject) (id : string) (k : nat)
    (n : Node.UDialogueNode) (pin : OutputPin.UDialogueOutputPin) :
  ProcessConnections Connections objs = Some objs' ->
  node_of objs id = Some n ->
  Node.OutputPins n !! k = Some pin ->
  exists n' pin',
    node_of objs' id = Some n' /\
    Node.OutputPins n' !! k = Some pin' /\
    OutputPin.Connections pin' =
      OutputPin.Connections pin ++
      map connection_of
        (List.filter (fun c => is_node objs (TargetId c) && addresses id k c)
           Connections).
Proof.
  intros Hrun Hn Hpin.
  assert (connections_at objs id k = Some (OutputPin.Connections pin)) as Hold
    by (unfold connections_at; rewrite Hn, Hpin; reflexivity).
  pose proof (ProcessConnections_pin_connections_aux _ _ _ _ _ _ Hrun Hold)
    as Hnew.
  unfold connections_at in Hnew.
  destruct (node_of objs' id) as [n'|]; [|discriminate].
  destruct (Node.OutputPins n' !! k) as [pin'|] eqn:Hpin'; [|discriminate].
  injection Hnew as Hnew. exists n', pin'. repeat split; assumption.
Qed.

Lemma ProcessConnections_pin_connections_witness :
  node_of sample_objects "A" = Some node_A /\
  Node.OutputPins node_A !! 0%nat = Some pin_A0 /\
  (ProcessConnections [def_good; def_dangling; def_bad_target_pin; def_good]
     sample_objects ≫= fun objs => connections_at objs "A" 0)
  = Some [connection_of def_good; connection_of def_bad_target_pin;
          connection_of def_good].
Proof.
  assert (node_of sample_objects "A" = Some node_A) as Hn
    by (vm_compute; reflexivity).
  assert (Node.OutputPins node_A !! 0%nat = Some pin_A0) as Hpin
    by reflexivity.
  split; [exact Hn|]. split; [exact Hpin|].
  destruct (ProcessConnections
              [def_good; def_dangling; def_bad_target_pin; def_good]
              sample_objects) as [objs'|] eqn:Hrun;
    [|vm_compute in Hrun; discriminate Hrun].
  simpl.
  destruct (ProcessConnections_pin_connections _ _ _ "A" 0%nat node_A pin_A0
              Hrun Hn Hpin) as (n' & pin' & Hn' & Hpin' & Hconn).
  unfold connections_at. rewrite Hn', Hpin', Hconn.
  vm_compute. reflexivity.
Defined.

End Connections.

(** ** Generating objects, packages and assets *)

Section GeneratedObjects.

Import Generator.

Context {Json : Type}.
Variable R : FJsonReader Json.
Variable U : Engine.

Abbreviation Table := (gmap string AssetGenerator.UDialogueObject).

(** X11. The node [GenerateObject] creates carries the id and the
    technical name of the definition and one pin for each pin id, in the
    order of the definition: the pin at position [i] has the [i]-th id,
    the id of the node as its owner and [i] as its index, and an output
    pin starts without connections. *)
Theorem GenerateObject_pins (ObjectDef : FDialogueObjectDef Json)
    (Package : UDialoguePackage) (n : Node.UDialogueNode) :
  GenerateObject R ObjectDef (Some Package)
    = Some (AssetGenerator.NodeObject n) ->
  Node.Id n = Id ObjectDef /\
  Node.TechnicalName n = TechnicalName ObjectDef /\
  length (Node.InputPins n) = length (InputPinIds ObjectDef) /\
  length (Node.OutputPins n) = length (OutputPinIds ObjectDef) /\
  (forall i pin, Node.InputPins n !! i = Some pin ->
     InputPinIds ObjectDef !! i = Some (InputPin.Id pin) /\
     InputPin.OwnerId pin = Id ObjectDef /\
     InputPin.Index pin = Z.of_nat i) /\
  (forall i pin, Node.OutputPins n !! i = Some pin ->
     OutputPinIds ObjectDef !! i = Some (OutputPin.Id pin) /\
     OutputPin.OwnerId pin = Id ObjectDef /\
     OutputPin.Index pin = Z.of_nat i /\
     OutputPin.Connections pin = []).
Proof.
  unfold GenerateObject. destruct (node_kind R ObjectDef) as [kind|];
    [|discriminate].
  intros H. injection H as <-. simpl.
  unfold create_input_pins, create_output_pins.
  rewrite !length_imap.
  repeat split.
  - rewrite list_lookup_imap in H.
    destruct (InputPinIds ObjectDef !! i); [|discriminate].
    injection H as <-. reflexivity.
  - rewrite list_lookup_imap in H.
    destruct (InputPinIds ObjectDef !! i); [|discriminate].
    injection H as <-. reflexivity.
  - rewrite list_lookup_imap in H.
    destruct (InputPinIds ObjectDef !! i); [|discriminate].
    injection H as <-. reflexivity.
  - rewrite list_lookup_imap in H.
    destruct (OutputPinIds ObjectDef !! i); [|discriminate].
    injection H as <-. reflexivity.
  - rewrite list_lookup_imap in H.
    destruct (OutputPinIds ObjectDef !! i); [|discriminate].
    injection H as <-. reflexivity.
  - rewrite list_lookup_imap in H.
    destruct (OutputPinIds ObjectDef !! i); [|discriminate].
    injection H as <-. reflexivity.
  - rewrite list_lookup_imap in H.
    destruct (OutputPinIds ObjectDef !! i); [|discriminate].
    injection H as <-. reflexivity.
Qed.

Lemma FString_eq_key (a b : string) :
  FString_eq a b = true <-> AssetGenerator.key a = AssetGenerator.key b.
Proof. unfold FString_eq, AssetGenerator.key. apply String.eqb_eq. Qed.

Lemma FString_eq_false (a b : string) :
  FString_eq a b = false <-> AssetGenerator.key a <> AssetGenerator.key b.
Proof. unfold FString_eq, AssetGenerator.key. apply String.eqb_neq. Qed.

Lemma last_def_cons (id : string) (d : FDialogueObjectDef Json)
    (ds : list (FDialogueObjectDef Json)) :
  last_def id (d :: ds) =
  match last_def id ds with
  | Some d' => Some d'
  | None => if FString_eq id (Id d) then Some d else None
  end.
Proof.
  unfold last_def. simpl. destruct (FString_eq id (Id d)).
  - rewrite last_cons. reflexivity.
  - destruct (last _); reflexivity.
Qed.

Lemma add_object_eq (d : FDialogueObjectDef Json) (pkg : UDialoguePackage)
    (objs : Table) :
  exists o, GenerateObject R d (Some pkg) = Some o /\
            add_object R (pkg, objs) d =
            ({| PackageName := PackageName pkg;
                PackageIsDefault := PackageIsDefault pkg;
                ObjectIds := ObjectIds pkg ++ [Id d] |},
             AssetGenerator.Add (Id d) o objs).
Proof.
  unfold add_object, GenerateObject.
  destruct (node_kind R d); eexists; split; reflexivity.
Qed.

Lemma Find_Add (objs : Table) (a b : string)
    (o : AssetGenerator.UDialogueObject) :
  AssetGenerator.Find (AssetGenerator.Add a o objs) b =
  if FString_eq b a then Some o else AssetGenerator.Find objs b.
Proof.
  unfold AssetGenerator.Find, AssetGenerator.Add.
  destruct (FString_eq b a) eqn:E.
  - apply FString_eq_key in E. rewrite E, lookup_insert_eq. reflexivity.
  - apply FString_eq_false in E.
    rewrite lookup_insert_ne by (intros H; apply E; symmetry; exact H).
    reflexivity.
Qed.

Lemma fold_add_object (ds : list (FDialogueObjectDef Json)) :
  forall (pkg : UDialoguePackage) (objs : Table),
  exists pkg' objs',
    fold_left (add_object R) ds (pkg, objs) = (pkg', objs') /\
    PackageName pkg' = PackageName pkg /\
    PackageIsDefault pkg' = PackageIsDefault pkg /\
    ObjectIds pkg' = ObjectIds pkg ++ map Id ds /\
    forall id, AssetGenerator.Find objs' id =
               match last_def id ds with
               | Some d => GenerateObject R d (Some pkg)
               | None => AssetGenerator.Find objs id
               end.
Proof.
  induction ds as [|d ds IH]; intros pkg objs.
  - exists pkg, objs. simpl. rewrite app_nil_r. repeat split.
  - destruct (add_object_eq d pkg objs) as (o & Ho & Hadd).
    cbn [fold_left]. rewrite Hadd.
    destruct (IH {| PackageName := PackageName pkg;
                    PackageIsDefault := PackageIsDefault pkg;
                    ObjectIds := ObjectIds pkg ++ [Id d] |}
                 (AssetGenerator.Add (Id d) o objs))
      as (pkg' & objs' & Hfold & Hn & Hd & Hids & Hlook).
    exists pkg', objs'. split; [exact Hfold|].
    split; [exact Hn|]. split; [exact Hd|].
    split; [rewrite Hids; simpl; rewrite <- app_assoc; reflexivity|].
    intros id. rewrite Hlook, last_def_cons.
    destruct (last_def id ds) as [d'|]; [reflexivity|].
    rewrite Find_Add. destruct (FString_eq id (Id d)); [|reflexivity].
    symmetry. exact Ho.
Qed.

Lemma GeneratePackage_created (BasePath : string)
    (PackageDef : FDialoguePackageDef Json) (objs : Table) :
  CreateAssetPackage U
    (GetAssetPath BasePath (Name PackageDef ++ "Package") "Packages") = true ->
  exists pkg objs',
    GeneratePackage R U BasePath PackageDef objs = (Some pkg, objs') /\
    PackageName pkg = Name PackageDef /\
    PackageIsDefault pkg = bIsDefaultPackage PackageDef /\
    ObjectIds pkg = object_ids PackageDef /\
    forall id, AssetGenerator.Find objs' id =
               match last_def id (Objects PackageDef) with
               | Some d => GenerateObject R d (Some pkg)
               | None => AssetGenerator.Find objs id
               end.
Proof.
  intros Hc. unfold GeneratePackage. rewrite Hc.
  destruct (fold_add_object (Objects PackageDef)
              {| PackageName := Name PackageDef;
                 PackageIsDefault := bIsDefaultPackage PackageDef;
                 ObjectIds := [] |} objs)
    as (pkg' & objs' & Hfold & Hn & Hd & Hids & Hlook).
  rewrite Hfold. exists pkg', objs'. repeat split; assumption.
Qed.

(** X12. When the engine gives a package, [GeneratePackage] counts one
    object for each definition, repeated ids included, while the table
    resolves an id to the object of the last definition that carries it,
    letter case aside, as the table compares its keys; an id that no
    definition of the package carries resolves as it did before. *)
Theorem GeneratePackage_table (BasePath : string)
    (PackageDef : FDialoguePackageDef Json) (objs : Table) :
  CreateAssetPackage U
    (GetAssetPath BasePath (Name PackageDef ++ "Package") "Packages") = true ->
  exists pkg objs',
    GeneratePackage R U BasePath PackageDef objs = (Some pkg, objs') /\
    GetObjectCount pkg = Z.of_nat (length (Objects PackageDef)) /\
    ObjectIds pkg = object_ids PackageDef /\
    forall id, AssetGenerator.Find objs' id =
               match last_def id (Objects PackageDef) with
               | Some d => GenerateObject R d (Some pkg)
               | None => AssetGenerator.Find objs id
               end.
Proof.
  intros Hc.
  destruct (GeneratePackage_created BasePath PackageDef objs Hc)
    as (pkg & objs' & Hg & _ & _ & Hids & Hlook).
  exists pkg, objs'. split; [exact Hg|]. split; [|split; assumption].
  unfold GetObjectCount, object_ids in *. rewrite Hids, length_map.
  reflexivity.
Qed.

Lemma GeneratePackage_cases (BasePath : string)
    (PackageDef : FDialoguePackageDef Json) (objs : Table) :
  GeneratePackage R U BasePath PackageDef objs = (None, objs) \/
  exists pkg objs',
    GeneratePackage R U BasePath PackageDef objs = (Some pkg, objs') /\
    PackageName pkg = Name PackageDef /\
    forall id, AssetGenerator.Find objs' id =
               match last_def id (Objects PackageDef) with
               | Some d => GenerateObject R d (Some pkg)
               | None => AssetGenerator.Find objs id
               end.
Proof.
  destruct (CreateAssetPackage U
              (GetAssetPath BasePath (Name PackageDef ++ "Package") "Packages"))
    eqn:Hc.
  - right.
    destruct (GeneratePackage_created BasePath PackageDef objs Hc)
      as (pkg & objs' & Hg & Hn & _ & _ & Hlook).
    exists pkg, objs'. repeat split; assumption.
  - left. unfold GeneratePackage. rewrite Hc. reflexivity.
Qed.

(** X13. A package generated and connected: an output pin of a node of
    the package holds one connection for each definition of the package
    that names the pin as its source and whose target id resolves to a
    node at that moment, in the order of the definitions, and nothing
    else.  Ids are compared as the table compares its keys, without
    regard to letter case. *)
Theorem generated_pin_connections (BasePath : string)
    (PackageDef : FDialoguePackageDef Json) (objs objs1 objs2 : Table)
    (pkg : UDialoguePackage) (id : string) (d : FDialogueObjectDef Json)
    (k : nat) :
  GeneratePackage R U BasePath PackageDef objs = (Some pkg, objs1) ->
  AssetGenerator.ProcessConnections (Connections PackageDef) objs1
    = Some objs2 ->
  last_def id (Objects PackageDef) = Some d ->
  node_kind R d <> None ->
  (k < length (OutputPinIds d))%nat ->
  AssetGenerator.connections_at objs2 id k =
  Some (map AssetGenerator.connection_of
          (List.filter
             (fun c => AssetGenerator.is_node objs1 (AssetGenerator.TargetId c)
                       && AssetGenerator.addresses id k c)
             (Connections PackageDef))).
Proof.
  intros Hg Hrun Hlast Hkind Hk.
  destruct (GeneratePackage_cases BasePath PackageDef objs)
    as [E | (pkg' & objs' & E & _ & Hlook)]; rewrite E in Hg;
    [discriminate|].
  injection Hg as -> ->.
  specialize (Hlook id). rewrite Hlast in Hlook.
  assert (AssetGenerator.connections_at objs1 id k = Some []) as Hold.
  { unfold AssetGenerator.connections_at, AssetGenerator.node_of.
    rewrite Hlook. unfold GenerateObject.
    destruct (node_kind R d) as [kind|]; [|congruence]. simpl.
    unfold create_output_pins. rewrite list_lookup_imap.
    destruct (lookup_lt_is_Some_2 (OutputPinIds d) k Hk) as [pid ->].
    reflexivity. }
  rewrite (ProcessConnections_pin_connections_aux _ _ _ _ _ _ Hrun Hold).
  reflexivity.
Qed.

Lemma node_kind_None (d : FDialogueObjectDef Json) :
  node_kind R d = None <->
  existsb (FString_eq (ObjectType d)) known_types = false.
Proof.
  unfold node_kind, known_types. simpl.
  destruct (FString_eq (ObjectType d) "Dialogue");
    [split; discriminate|].
  destruct (FString_eq (ObjectType d) "DialogueFragment");
    [split; discriminate|].
  destruct (FString_eq (ObjectType d) "Hub"); [split; discriminate|].
  destruct (FString_eq (ObjectType d) "Condition"); [split; discriminate|].
  destruct (FString_eq (ObjectType d) "Instruction"); [split; discriminate|].
  destruct (FString_eq (ObjectType d) "Jump"); [split; discriminate|].
  destruct (FString_eq (ObjectType d) "FlowFragment"); [split; discriminate|].
  split; reflexivity.
Qed.

(** X16. A definition whose type is none of the seven known names,
    letter case aside, is still generated, but as a plain object: it
    gets no pins although the definition may list pin ids, and while the
    table resolves its id to it every connection definition that names
    it as source or as target, in whatever letter case, is skipped. *)
Theorem unknown_type_is_never_connected (d : FDialogueObjectDef Json)
    (Package : UDialoguePackage) :
  existsb (FString_eq (ObjectType d)) known_types = false ->
  GenerateObject R d (Some Package)
    = Some (AssetGenerator.PlainObject (Id d) (TechnicalName d)) /\
  forall (objs : Table) (c : AssetGenerator.FDialogueConnectionDef),
    AssetGenerator.Find objs (Id d) = GenerateObject R d (Some Package) ->
    FString_eq (AssetGenerator.SourceId c) (Id d) = true \/
    FString_eq (AssetGenerator.TargetId c) (Id d) = true ->
    AssetGenerator.ProcessConnection c objs = Some objs.
Proof.
  intros Hunknown. apply node_kind_None in Hunknown.
  assert (GenerateObject R d (Some Package)
          = Some (AssetGenerator.PlainObject (Id d) (TechnicalName d))) as Hgen
    by (unfold GenerateObject; rewrite Hunknown; reflexivity).
  split; [exact Hgen|].
  intros objs c Hobjs Hc. rewrite Hgen in Hobjs.
  apply ProcessConnection_skip.
  destruct Hc as [Hc|Hc]; apply FString_eq_key in Hc; [left | right; left];
    unfold AssetGenerator.node_of, AssetGenerator.Find in *;
    rewrite Hc, Hobjs; reflexivity.
Qed.

Lemma carries_cons (id a : string) (ids : list string) :
  carries id (a :: ids) = FString_eq id a || carries id ids.
Proof. reflexivity. Qed.

Lemma carries_app (id : string) (a b : list string) :
  carries id (a ++ b) = carries id a || carries id b.
Proof. apply existsb_app. Qed.

Lemma last_def_None (id : string) (ds : list (FDialogueObjectDef Json)) :
  carries id (map Id ds) = false -> last_def id ds = None.
Proof.
  induction ds as [|d ds IH]; intros Hn; [reflexivity|].
  simpl map in Hn. rewrite carries_cons in Hn.
  apply orb_false_iff in Hn as [Hd Hds].
  rewrite last_def_cons, (IH Hds), Hd. reflexivity.
Qed.

Lemma generate_characters_lookup_None (BasePath : string)
    (Chars : list FDialogueCharacterDef) (id : string) :
  carries id (map CharId Chars) = false ->
  forall objs : Table, AssetGenerator.Find objs id = None ->
    AssetGenerator.Find (generate_characters U BasePath Chars objs) id = None.
Proof.
  unfold generate_characters.
  induction Chars as [|ch Chars IH]; intros Hn objs Ho; [exact Ho|].
  simpl map in Hn. rewrite carries_cons in Hn.
  apply orb_false_iff in Hn as [Hd Hds].
  simpl. apply (IH Hds).
  destruct (GenerateCharacter U BasePath ch); [|exact Ho].
  rewrite Find_Add, Hd. exact Ho.
Qed.

Lemma GeneratePackage_lookup_None (BasePath : string)
    (PackageDef : FDialoguePackageDef Json) (objs : Table) (id : string) :
  carries id (object_ids PackageDef) = false ->
  AssetGenerator.Find objs id = None ->
  AssetGenerator.Find (snd (GeneratePackage R U BasePath PackageDef objs)) id
    = None.
Proof.
  intros Hn Ho.
  destruct (GeneratePackage_cases BasePath PackageDef objs)
    as [E | (pkg & objs' & E & _ & Hlook)]; rewrite E; simpl; [exact Ho|].
  rewrite Hlook, last_def_None by exact Hn. exact Ho.
Qed.

Lemma generate_packages_app (BasePath : string)
    (pre rest : list (FDialoguePackageDef Json)) :
  forall (names : list string) (objs : Table),
  generate_packages R U BasePath (pre ++ rest) names objs =
  match generate_packages R U BasePath pre names objs with
  | Some (names', objs') => generate_packages R U BasePath rest names' objs'
  | None => None
  end.
Proof.
  induction pre as [|PD pre IH]; intros names objs; [reflexivity|].
  simpl.
  destruct (GeneratePackage R U BasePath PD objs) as [[pkg|] objs1];
    [|apply IH].
  destruct (AssetGenerator.ProcessConnections (Connections PD) objs1);
    [apply IH | reflexivity].
Qed.

Lemma generate_packages_lookup_None (BasePath : string)
    (pre : list (FDialoguePackageDef Json)) (id : string) :
  carries id (flat_map object_ids pre) = false ->
  forall (names names' : list string) (objs objs' : Table),
  generate_packages R U BasePath pre names objs = Some (names', objs') ->
  AssetGenerator.Find objs id = None -> AssetGenerator.Find objs' id = None.
Proof.
  induction pre as [|PD pre IH]; intros Hn names names' objs objs' H Ho.
  - injection H as <- <-. exact Ho.
  - simpl in H, Hn. rewrite carries_app in Hn.
    apply orb_false_iff in Hn as [Hd Hds].
    pose proof (GeneratePackage_lookup_None BasePath PD objs id Hd Ho) as H1.
    destruct (GeneratePackage R U BasePath PD objs) as [[pkg|] objs1];
      simpl in H1.
    + destruct (AssetGenerator.ProcessConnections (Connections PD) objs1)
        as [objs2|] eqn:E; [|discriminate].
      eapply (IH Hds); [exact H|].
      eapply ProcessConnections_lookup_None; eassumption.
    + eapply (IH Hds); eassumption.
Qed.

Lemma passes_tests_unknown (objs : Table)
    (c : AssetGenerator.FDialogueConnectionDef) (id : string) :
  id = AssetGenerator.SourceId c \/ id = AssetGenerator.TargetId c ->
  AssetGenerator.Find objs id = None ->
  AssetGenerator.passes_tests objs c = false.
Proof.
  intros [->| ->] Ho; unfold AssetGenerator.passes_tests, AssetGenerator.node_of;
    rewrite Ho; [reflexivity|].
  destruct (AssetGenerator.Find objs (AssetGenerator.SourceId c)) as [o|];
    [|reflexivity].
  destruct (AssetGenerator.CastNode o); reflexivity.
Qed.

(** X14. The connections of a package are processed before the next
    package is generated, on a table that holds the characters and the
    objects of the packages up to this one.  A connection definition one
    of whose ids is carried by none of them, in whatever letter case,
    for instance by an object of a later package only, makes no
    difference to what [GenerateAssets] returns and leaves behind. *)
Theorem GenerateAssets_forward_reference
    (D : UDialogueImportData Json) (G : FDialogueAssetGenerator)
    (pre post : list (FDialoguePackageDef Json))
    (PackageDef : FDialoguePackageDef Json)
    (cs1 cs2 : list AssetGenerator.FDialogueConnectionDef)
    (c : AssetGenerator.FDialogueConnectionDef) :
  Packages D = pre ++ PackageDef :: post ->
  Connections PackageDef = cs1 ++ c :: cs2 ->
  (exists id,
     (id = AssetGenerator.SourceId c \/ id = AssetGenerator.TargetId c) /\
     carries id (map CharId (Characters D)) = false /\
     carries id (flat_map object_ids (pre ++ [PackageDef])) = false) ->
  GenerateAssets R U (Some D) G =
  GenerateAssets R U
    (Some (mkImportData (GeneratedAssetsFolder D) (ProjectTechnicalName D)
             (Characters D)
             (pre ++ mkPackageDef (Name PackageDef)
                       (bIsDefaultPackage PackageDef) (Objects PackageDef)
                       (cs1 ++ cs2) :: post))) G.
Proof.
  intros HP HC (id & Hid & Hchar & Hobj).
  rewrite flat_map_app, carries_app in Hobj. simpl in Hobj.
  rewrite app_nil_r in Hobj. apply orb_false_iff in Hobj as [Hpre Hown].
  unfold GenerateAssets. cbn [GeneratedAssetsFolder Characters Packages].
  rewrite HP.
  change (GenerateDatabase U (GeneratedAssetsFolder D)
            (mkImportData (GeneratedAssetsFolder D) (ProjectTechnicalName D)
               (Characters D)
               (pre ++ mkPackageDef (Name PackageDef)
                         (bIsDefaultPackage PackageDef) (Objects PackageDef)
                         (cs1 ++ cs2) :: post)))
    with (GenerateDatabase U (GeneratedAssetsFolder D) D).
  set (objs1 := generate_characters U (GeneratedAssetsFolder D)
                  (Characters D) ∅).
  assert (AssetGenerator.Find objs1 id = None) as H1.
  { apply generate_characters_lookup_None; [exact Hchar | apply lookup_empty]. }
  rewrite !generate_packages_app.
  destruct (generate_packages R U (GeneratedAssetsFolder D) pre [] objs1)
    as [[names objs2]|] eqn:Epre; [|reflexivity].
  assert (AssetGenerator.Find objs2 id = None) as H2.
  { eapply generate_packages_lookup_None; [exact Hpre | exact Epre | exact H1]. }
  cbn [generate_packages].
  change (GeneratePackage R U (GeneratedAssetsFolder D)
            (mkPackageDef (Name PackageDef) (bIsDefaultPackage PackageDef)
               (Objects PackageDef) (cs1 ++ cs2)) objs2)
    with (GeneratePackage R U (GeneratedAssetsFolder D) PackageDef objs2).
  pose proof (GeneratePackage_lookup_None (GeneratedAssetsFolder D) PackageDef
                objs2 id Hown H2) as H3.
  destruct (GeneratePackage R U (GeneratedAssetsFolder D) PackageDef objs2)
    as [[pkg|] objs3]; [|reflexivity].
  simpl in H3. cbn [Connections]. rewrite HC.
  rewrite (ProcessConnections_remove cs1 cs2 c objs3
             (passes_tests_unknown objs3 c id Hid H3)).
  reflexivity.
Qed.

End GeneratedObjects.

Section GeneratedExamples.

Import Generator GeneratorSamples.

(** The type is compared without regard to case, and the members are
    read from [data]. *)
Lemma GenerateObject_pins_witness :
  GenerateObject sample_reader def_D (Some empty_package)
    = Some (AssetGenerator.NodeObject node_D) /\
  Node.Id node_D = Id def_D /\
  length (Node.OutputPins node_D) = length (OutputPinIds def_D) /\
  (forall i pin, Node.OutputPins node_D !! i = Some pin ->
     OutputPinIds def_D !! i = Some (OutputPin.Id pin) /\
     OutputPin.OwnerId pin = Id def_D /\
     OutputPin.Index pin = Z.of_nat i /\
     OutputPin.Connections pin = []).
Proof.
  assert (GenerateObject sample_reader def_D (Some empty_package)
          = Some (AssetGenerator.NodeObject node_D)) as H
    by (vm_compute; reflexivity).
  split; [exact H|].
  destruct (GenerateObject_pins sample_reader def_D empty_package node_D H)
    as (H1 & _ & _ & H4 & _ & H6).
  split; [exact H1|]. split; [exact H4 | exact H6].
Defined.

Lemma GeneratePackage_table_witness :
  CreateAssetPackage sample_engine
    (GetAssetPath "/Game/Dialogue/Generated" (Name package_intro ++ "Package")
       "Packages") = true /\
  exists pkg objs',
    GeneratePackage sample_reader sample_engine "/Game/Dialogue/Generated"
      package_intro ∅ = (Some pkg, objs') /\
    GetObjectCount pkg = 3 /\
    ObjectIds pkg = ["H"; "D"; "U"] /\
    forall id, AssetGenerator.Find objs' id =
               match last_def id (Objects package_intro) with
               | Some d => GenerateObject sample_reader d (Some pkg)
               | None =>
                   AssetGenerator.Find
                     (∅ : gmap string AssetGenerator.UDialogueObject) id
               end.
Proof.
  assert (CreateAssetPackage sample_engine
            (GetAssetPath "/Game/Dialogue/Generated"
               (Name package_intro ++ "Package") "Packages") = true) as Hc
    by reflexivity.
  split; [exact Hc|].
  exact (GeneratePackage_table sample_reader sample_engine
           "/Game/Dialogue/Generated" package_intro ∅ Hc).
Defined.

(** Two definitions whose ids differ in letter case only: the package
    counts both, the table keeps the second under either spelling. *)
Example GeneratePackage_same_id_up_to_case :
  let defs := [mkObjectDef "N" "First" "Hub" None [] [];
               mkObjectDef "n" "Second" "Hub" None [] []] in
  match GeneratePackage sample_reader sample_engine "/Game/Dialogue/Generated"
          (mkPackageDef "P" true defs []) ∅ with
  | (Some pkg, objs) =>
      GetObjectCount pkg = 2 /\
      (AssetGenerator.node_of objs "N" ≫= fun n => Some (Node.TechnicalName n))
        = Some "Second" /\
      (AssetGenerator.node_of objs "n" ≫= fun n => Some (Node.TechnicalName n))
        = Some "Second"
  | (None, _) => False
  end.
Proof. vm_compute. repeat split. Qed.

(** The table after the objects of [package_intro] are generated, and
    after its connections are processed: the pin of [D] that [conn_D_H]
    names in lower case. *)
Lemma generated_pin_connections_witness :
  GeneratePackage sample_reader sample_engine "/Game/Dialogue/Generated"
    package_intro ∅
  = (Some {| PackageName := "Intro"; PackageIsDefault := true;
             ObjectIds := ["H"; "D"; "U"] |},
     snd (GeneratePackage sample_reader sample_engine
            "/Game/Dialogue/Generated" package_intro ∅)) /\
  last_def "D" (Objects package_intro) = Some def_D /\
  node_kind sample_reader def_D <> None /\
  (1 < length (OutputPinIds def_D))%nat /\
  (AssetGenerator.ProcessConnections (Connections package_intro)
     (snd (GeneratePackage sample_reader sample_engine
             "/Game/Dialogue/Generated" package_intro ∅))
   ≫= fun objs2 => AssetGenerator.connections_at objs2 "D" 1)
  = Some [AssetGenerator.connection_of conn_D_H].
Proof.
  set (objs1 := snd (GeneratePackage sample_reader sample_engine
                       "/Game/Dialogue/Generated" package_intro ∅)).
  assert (GeneratePackage sample_reader sample_engine
            "/Game/Dialogue/Generated" package_intro ∅
          = (Some {| PackageName := "Intro"; PackageIsDefault := true;
                     ObjectIds := ["H"; "D"; "U"] |}, objs1)) as Hg
    by (vm_compute; reflexivity).
  assert (last_def "D" (Objects package_intro) = Some def_D) as Hlast
    by (vm_compute; reflexivity).
  assert (node_kind sample_reader def_D <> None) as Hkind
    by (vm_compute; discriminate).
  assert (1 < length (OutputPinIds def_D))%nat as Hk by (simpl; lia).
  split; [exact Hg|]. split; [exact Hlast|]. split; [exact Hkind|].
  split; [exact Hk|].
  destruct (AssetGenerator.ProcessConnections (Connections package_intro) objs1)
    as [objs2|] eqn:Hrun; [|vm_compute in Hrun; discriminate Hrun].
  simpl.
  rewrite (generated_pin_connections sample_reader sample_engine _ _ _ _ _ _
             "D" def_D 1%nat Hg Hrun Hlast Hkind Hk).
  vm_compute. reflexivity.
Defined.

(** [def_U] has the type [Comment]; its connection to [D] is skipped. *)
Lemma unknown_type_is_never_connected_witness :
  existsb (FString_eq (ObjectType def_U)) known_types = false /\
  GenerateObject sample_reader def_U (Some empty_package)
    = Some (AssetGenerator.PlainObject "U" "Note_U") /\
  AssetGenerator.ProcessConnection conn_U_D
    (snd (GeneratePackage sample_reader sample_engine
            "/Game/Dialogue/Generated" package_intro ∅))
  = Some (snd (GeneratePackage sample_reader sample_engine
                 "/Game/Dialogue/Generated" package_intro ∅)).
Proof.
  assert (existsb (FString_eq (ObjectType def_U)) known_types = false) as Hu
    by (vm_compute; reflexivity).
  destruct (unknown_type_is_never_connected sample_reader def_U empty_package
              Hu) as [Hgen Hskip].
  split; [exact Hu|]. split; [exact Hgen|].
  apply Hskip; [vm_compute; reflexivity | left; reflexivity].
Defined.

(** [conn_H_E] of the first package names [E], which only the second
    package defines. *)
Lemma GenerateAssets_forward_reference_witness :
  Packages sample_import = [] ++ package_intro :: [package_outro] /\
  Connections package_intro = [conn_H_D] ++ conn_H_E :: [conn_D_H; conn_U_D] /\
  (exists id,
     (id = AssetGenerator.SourceId conn_H_E \/
      id = AssetGenerator.TargetId conn_H_E) /\
     carries id (map CharId (Characters sample_import)) = false /\
     carries id (flat_map object_ids ([] ++ [package_intro])) = false) /\
  GenerateAssets sample_reader sample_engine (Some sample_import) new_generator
  = GenerateAssets sample_reader sample_engine
      (Some (mkImportData "/Game/Dialogue/Generated" "Demo"
               (Characters sample_import)
               [mkPackageDef "Intro" true [def_H; def_D; def_U]
                  [conn_H_D; conn_D_H; conn_U_D];
                package_outro])) new_generator.
Proof.
  assert (Packages sample_import = [] ++ package_intro :: [package_outro])
    as HP by reflexivity.
  assert (Connections package_intro
          = [conn_H_D] ++ conn_H_E :: [conn_D_H; conn_U_D]) as HC
    by reflexivity.
  assert (exists id,
            (id = AssetGenerator.SourceId conn_H_E \/
             id = AssetGenerator.TargetId conn_H_E) /\
            carries id (map CharId (Characters sample_import)) = false /\
            carries id (flat_map object_ids ([] ++ [package_intro])) = false)
    as Hid.
  { exists "E". split; [right; reflexivity|].
    split; vm_compute; reflexivity. }
  split; [exact HP|]. split; [exact HC|]. split; [exact Hid|].
  exact (GenerateAssets_forward_reference sample_reader sample_engine
           sample_import new_generator [] [package_outro] package_intro
           [conn_H_D] [conn_D_H; conn_U_D] conn_H_E HP HC Hid).
Defined.

(** The same import, run: the reference from the second package back to
    [H] is connected, the reference from [H] forward to [E] is not, the
    definition that spells its ids [d] and [h] is connected to the pin of
    [D], and [U], whose type is unknown, is no node and gets no
    connection. *)
Example GenerateAssets_sample :
  match GenerateAssets sample_reader sample_engine (Some sample_import)
          new_generator with
  | Some (result, G) =>
      result = true /\
      GeneratedPackages G = ["Intro"; "Outro"] /\
      GeneratedDatabase G = Some "/Game/Dialogue/Generated/DemoDatabase" /\
      AssetGenerator.connections_at (ObjectsById G) "E" 0
        = Some [AssetGenerator.connection_of conn_E_H] /\
      AssetGenerator.connections_at (ObjectsById G) "H" 0
        = Some [AssetGenerator.connection_of conn_H_D] /\
      AssetGenerator.connections_at (ObjectsById G) "D" 1
        = Some [AssetGenerator.connection_of conn_D_H] /\
      AssetGenerator.is_node (ObjectsById G) "U" = false /\
      AssetGenerator.is_node (ObjectsById G) "Hero" = false
  | None => False
  end.
Proof. vm_compute. repeat split. Qed.

End GeneratedExamples.

(** ** Shadowed operations of the flow player *)

Section ShadowedOperations.

Import FlowPlayer.

Abbreviation Store := GlobalVariables.UDialogueGlobalVariables.

Lemma to_int32_small (u : Z) : 0 <= u < 2 ^ 31 -> to_int32 u = u.
Proof.
  intros Hu. unfold to_int32. rewrite Z.mod_small by lia.
  destruct (Z.ltb_spec u (2 ^ 31)); lia.
Qed.

Lemma lifo_app (a b : list Event) : forall lvl,
  lifo lvl (a ++ b) =
  match lifo lvl a with Some m => lifo m b | None => None end.
Proof.
  induction a as [|e a IH]; intros lvl; [reflexivity|].
  destruct e; simpl; try apply IH.
  - destruct (Level =? lvl + 1); [apply IH|reflexivity].
  - destruct ((Level =? lvl) && (0 <? lvl)); [apply IH|reflexivity].
Qed.

(** Pushes minus pops is the change of the number of open levels. *)
Lemma lifo_count (tr : list Event) : forall lvl m,
  lifo lvl tr = Some m ->
  Z.of_nat (count_events is_push tr) - Z.of_nat (count_events is_pop tr)
  = m - lvl.
Proof.
  unfold count_events.
  induction tr as [|e tr IH]; intros lvl m H.
  - simpl in H. injection H as <-. simpl. lia.
  - destruct e; simpl in H.
    + specialize (IH _ _ H). rewrite !filter_cons. simpl.
      repeat case_decide; try discriminate. exact IH.
    + destruct (Z.eqb_spec Level (lvl + 1)); [|discriminate].
      specialize (IH _ _ H). rewrite !filter_cons. simpl.
      repeat case_decide; try discriminate; try congruence. simpl. lia.
    + destruct (Z.eqb_spec Level lvl); simpl in H; [|discriminate].
      destruct (0 <? lvl); [|discriminate].
      specialize (IH _ _ H). rewrite !filter_cons. simpl.
      repeat case_decide; try discriminate; try congruence. simpl. lia.
    + specialize (IH _ _ H). rewrite !filter_cons. simpl.
      repeat case_decide; try discriminate. exact IH.
    + specialize (IH _ _ H). rewrite !filter_cons. simpl.
      repeat case_decide; try discriminate. exact IH.
    + specialize (IH _ _ H). rewrite !filter_cons. simpl.
      repeat case_decide; try discriminate. exact IH.
Qed.

(** C4. Once the shadow level has reached [ShadowLevelLimit], a call of
    [ShadowedOperation] only writes one warning: whatever the operation
    is, it is not run and what it captured is returned untouched, the
    store sees neither [PushState] nor [PopState], and the shadow level
    stays as it was. *)
Theorem ShadowedOperation_at_limit (PushState PopState : Z -> Store -> Store)
    (P : Setup) {A : Type}
    (Operation : State -> State * A) (captured : A) (w : State) :
  ShadowLevelLimit P <= ShadowLevel w ->
  exists msg : string,
    ShadowedOperation PushState PopState P Operation captured w
      = (emit (LogWarning msg) w, captured) /\
    (HasGlobalVariables P = true -> msg = msg_too_many_shadows) /\
    Variables (emit (LogWarning msg) w) = Variables w /\
    ShadowLevel (emit (LogWarning msg) w) = ShadowLevel w /\
    Trace (emit (LogWarning msg) w) = (Trace w ++ [LogWarning msg])%list /\
    count_events is_push [LogWarning msg] = 0%nat /\
    count_events is_pop [LogWarning msg] = 0%nat.
Proof.
  intros Hlim. unfold ShadowedOperation.
  destruct (HasGlobalVariables P).
  - simpl negb. cbv iota.
    destruct (Z.leb_spec (ShadowLevelLimit P) (ShadowLevel w)); [|lia].
    exists msg_too_many_shadows. repeat split.
  - exists msg_no_variables. repeat split. discriminate.
Qed.

(** The default limit of 10 with the level at 10: the operation, which
    would set the level to 99, is not run. *)
Lemma ShadowedOperation_at_limit_witness :
  ShadowLevelLimit (mkSetup [] true 128 10 true) <=
    ShadowLevel (mkState GlobalVariables.sample_store 10 None [] []) /\
  ShadowedOperation GlobalVariables.PushState GlobalVariables.PopState
    (mkSetup [] true 128 10 true)
    (fun w => (set_ShadowLevel 99 w, true)) false
    (mkState GlobalVariables.sample_store 10 None [] [])
  = (mkState GlobalVariables.sample_store 10 None []
       [LogWarning msg_too_many_shadows], false).
Proof.
  assert (ShadowLevelLimit (mkSetup [] true 128 10 true) <=
          ShadowLevel (mkState GlobalVariables.sample_store 10 None [] []))
    as Hlim by (simpl; lia).
  split; [exact Hlim|].
  destruct (ShadowedOperation_at_limit
              GlobalVariables.PushState GlobalVariables.PopState
              (mkSetup [] true 128 10 true)
              (fun w => (set_ShadowLevel 99 w, true)) false
              (mkState GlobalVariables.sample_store 10 None [] []) Hlim)
    as (msg & Heq & Hmsg & _).
  rewrite Heq, (Hmsg eq_refl). reflexivity.
Defined.

(** What a shadowed call adds to the trace and does to the level, for an
    operation that is level-neutral. *)
Lemma ShadowedOperation_trace
    (PushState PopState : Z -> Store -> Store) (P : Setup) {A : Type}
    (Operation : State -> State * A) (captured : A) :
  Setup_wf P ->
  level_neutral Operation ->
  forall w : State, State_wf w ->
    exists tr : list Event,
      Trace (fst (ShadowedOperation PushState PopState P Operation captured w))
        = (Trace w ++ tr)%list /\
      ShadowLevel (fst (ShadowedOperation PushState PopState P Operation captured w))
        = ShadowLevel w /\
      lifo (ShadowLevel w) tr = Some (ShadowLevel w) /\
      count_events is_push tr = count_events is_pop tr /\
      (HasGlobalVariables P = true -> ShadowLevel w < ShadowLevelLimit P ->
       exists inner : list Event,
         tr = ([CallPushState (ShadowLevel w + 1); ShadowOpStart] ++ inner ++
               [ShadowOpEnd; CallPopState (ShadowLevel w + 1)])%list /\
         lifo (ShadowLevel w + 1) inner = Some (ShadowLevel w + 1)).
Proof.
  intros [_ Hlim] Hop w Hw. unfold State_wf in Hw.
  assert (forall tr : list Event,
            lifo (ShadowLevel w) tr = Some (ShadowLevel w) ->
            count_events is_push tr = count_events is_pop tr) as Hcount.
  { intros tr Htr. apply lifo_count in Htr. lia. }
  destruct (ShadowedOperation PushState PopState P Operation captured w)
    as [w' a'] eqn:E.
  unfold ShadowedOperation in E. simpl fst.
  destruct (HasGlobalVariables P) eqn:Hgv; simpl negb in E; cbv iota in E.
  2:{ injection E as <- <-. exists [LogWarning msg_no_variables].
      repeat split; try reflexivity. discriminate. }
  destruct (Z.leb_spec (ShadowLevelLimit P) (ShadowLevel w)) as [Hge|Hlt].
  { injection E as <- <-. exists [LogWarning msg_too_many_shadows].
    repeat split; try reflexivity. intros _ Hc. lia. }
  set (l := ShadowLevel w) in *.
  assert ((l + 1) mod 2 ^ 32 = l + 1) as Hmod by (apply Z.mod_small; lia).
  assert (to_int32 (l + 1) = l + 1) as Hi32 by (apply to_int32_small; lia).
  simpl in E. fold l in E. rewrite Hmod, Hi32 in E.
  match type of E with
  | context [Operation ?x] => set (w3 := x) in E
  end.
  assert (State_wf w3) as Hw3 by (unfold State_wf, w3; simpl; lia).
  destruct (Hop w3 Hw3) as (inner & Htr & Hlvl & Hlifo).
  destruct (Operation w3) as [w4 a]. subst w3. simpl in Htr, Hlvl, Hlifo.
  rewrite Hlvl, Hi32 in E.
  destruct (Z.ltb_spec 0 (l + 1)) as [_|Hbad]; [|lia].
  injection E as <- <-. simpl. rewrite Htr.
  assert (lifo l ([CallPushState (l + 1); ShadowOpStart] ++ inner ++
                  [ShadowOpEnd; CallPopState (l + 1)]) = Some l) as Hall.
  { simpl. rewrite Z.eqb_refl, lifo_app, Hlifo. simpl.
    rewrite Z.eqb_refl.
    destruct (Z.ltb_spec 0 (l + 1)); [|lia]. simpl. f_equal. lia. }
  exists ([CallPushState (l + 1); ShadowOpStart] ++ inner ++
          [ShadowOpEnd; CallPopState (l + 1)])%list.
  split; [|split; [|split; [|split]]].
  - rewrite <- !app_assoc. reflexivity.
  - lia.
  - exact Hall.
  - apply Hcount, Hall.
  - intros _ _. exists inner. split; [reflexivity|exact Hlifo].
Qed.

Lemma ShadowedOperation_level_neutral
    (PushState PopState : Z -> Store -> Store) (P : Setup) {A : Type}
    (Operation : State -> State * A) (captured : A) :
  Setup_wf P ->
  level_neutral Operation ->
  level_neutral (ShadowedOperation PushState PopState P Operation captured).
Proof.
  intros HP Hop w Hw.
  destruct (ShadowedOperation_trace PushState PopState P Operation captured
              HP Hop w Hw) as (tr & Htr & Hlvl & Hlifo & _).
  exists tr. repeat split; assumption.
Qed.

(** An operation that only writes to the store is level-neutral. *)
Lemma store_write_level_neutral {A : Type} (f : Store -> Store) (a : A) :
  level_neutral (fun w => (set_Variables (f (Variables w)) w, a)).
Proof.
  intros w _. exists []. simpl. rewrite app_nil_r. repeat split.
Qed.

(** C5. For an operation that itself gives the shadow level back and
    whose store calls nest (a plain operation, or one that makes further
    shadowed calls), [ShadowedOperation] returns with the shadow level it
    was called with.  The store calls it adds nest in LIFO order and are
    as many pops as pushes; when the operation is run, they are one
    [PushState] at the level just opened, the calls of the operation, and
    one [PopState] at that same level.  Hence a shadowed call is again
    such an operation. *)
Theorem ShadowedOperation_restores_level
    (PushState PopState : Z -> Store -> Store) (P : Setup) {A : Type}
    (Operation : State -> State * A) (captured : A) :
  Setup_wf P ->
  level_neutral Operation ->
  forall w : State, State_wf w ->
    exists tr : list Event,
      Trace (fst (ShadowedOperation PushState PopState P Operation captured w))
        = (Trace w ++ tr)%list /\
      ShadowLevel (fst (ShadowedOperation PushState PopState P Operation captured w))
        = ShadowLevel w /\
      lifo (ShadowLevel w) tr = Some (ShadowLevel w) /\
      count_events is_push tr = count_events is_pop tr /\
      (HasGlobalVariables P = true -> ShadowLevel w < ShadowLevelLimit P ->
       exists inner : list Event,
         tr = ([CallPushState (ShadowLevel w + 1); ShadowOpStart] ++ inner ++
               [ShadowOpEnd; CallPopState (ShadowLevel w + 1)])%list /\
         lifo (ShadowLevel w + 1) inner = Some (ShadowLevel w + 1)).
Proof.
  intros HP Hop w Hw.
  exact (ShadowedOperation_trace PushState PopState P Operation captured
           HP Hop w Hw).
Qed.

(** A shadowed write nested in a shadowed call, from level 0 with the
    default limit: two pushes, two pops, and the level is 0 again. *)
Lemma ShadowedOperation_restores_level_witness :
  Setup_wf (mkSetup [] true 128 10 true) /\
  level_neutral
    (ShadowedOperation GlobalVariables.PushState GlobalVariables.PopState
       (mkSetup [] true 128 10 true)
       (fun w => (set_Variables
                    (GlobalVariables.SetInt "Game.Score" 7 (Variables w))
                    w, tt)) tt) /\
  State_wf (mkState GlobalVariables.sample_store 0 None [] []) /\
  exists tr : list Event,
    Trace (fst (ShadowedOperation
                  GlobalVariables.PushState GlobalVariables.PopState
                  (mkSetup [] true 128 10 true)
                  (ShadowedOperation
                     GlobalVariables.PushState GlobalVariables.PopState
                     (mkSetup [] true 128 10 true)
                     (fun w => (set_Variables
                                  (GlobalVariables.SetInt "Game.Score" 7 (Variables w)) w, tt)) tt)
                  tt (mkState GlobalVariables.sample_store 0 None [] [])))
      = ([] ++ tr)%list /\
    ShadowLevel (fst (ShadowedOperation
                  GlobalVariables.PushState GlobalVariables.PopState
                  (mkSetup [] true 128 10 true)
                  (ShadowedOperation
                     GlobalVariables.PushState GlobalVariables.PopState
                     (mkSetup [] true 128 10 true)
                     (fun w => (set_Variables
                                  (GlobalVariables.SetInt "Game.Score" 7 (Variables w)) w, tt)) tt)
                  tt (mkState GlobalVariables.sample_store 0 None [] [])))
      = 0 /\
    lifo 0 tr = Some 0 /\
    count_events is_push tr = count_events is_pop tr.
Proof.
  assert (Setup_wf (mkSetup [] true 128 10 true)) as HP
    by (unfold Setup_wf; simpl; lia).
  assert (State_wf (mkState GlobalVariables.sample_store 0 None [] [])) as Hw
    by (unfold State_wf; simpl; lia).
  pose proof (ShadowedOperation_level_neutral
                GlobalVariables.PushState GlobalVariables.PopState
                (mkSetup [] true 128 10 true) _ tt HP
                (store_write_level_neutral
                   (fun g => GlobalVariables.SetInt "Game.Score" 7 g) tt))
    as Hop.
  split; [exact HP|]. split; [exact Hop|]. split; [exact Hw|].
  destruct (ShadowedOperation_restores_level
              GlobalVariables.PushState GlobalVariables.PopState
              (mkSetup [] true 128 10 true) _ tt HP Hop _ Hw)
    as (tr & Htr & Hlvl & Hlifo & Hcount & _).
  exists tr. split; [exact Htr|]. split; [exact Hlvl|].
  split; [exact Hlifo | exact Hcount].
Defined.

Example nested_shadow_trace :
  Trace (fst (ShadowedOperation
                GlobalVariables.PushState GlobalVariables.PopState
                (mkSetup [] true 128 10 true)
                (ShadowedOperation
                   GlobalVariables.PushState GlobalVariables.PopState
                   (mkSetup [] true 128 10 true)
                   (fun w => (w, tt)) tt)
                tt (mkState GlobalVariables.sample_store 0 None [] [])))
  = [CallPushState 1; ShadowOpStart; CallPushState 2; ShadowOpStart;
     ShadowOpEnd; CallPopState 2; ShadowOpEnd; CallPopState 1].
Proof. vm_compute. reflexivity. Qed.


Lemma opens_within_app (L : Z) (a b : list Event) :
  opens_within L (a ++ b) = opens_within L a && opens_within L b.
Proof. apply forallb_app. Qed.

(** X10. However deep shadowed calls are nested, the store is never
    asked to open a level above [ShadowLevelLimit]: if the operation,
    started at a level not above the limit, gives the level back and
    opens no level above the limit, so does the shadowed call of it. *)
Theorem ShadowedOperation_within_limit
    (PushState PopState : Z -> Store -> Store) (P : Setup) {A : Type}
    (Operation : State -> State * A) (captured : A) :
  Setup_wf P ->
  within_limit P Operation ->
  within_limit P (ShadowedOperation PushState PopState P Operation captured).
Proof.
  intros [_ Hlim] Hop w Hw Hle. unfold State_wf in Hw.
  destruct (ShadowedOperation PushState PopState P Operation captured w)
    as [w' a'] eqn:E.
  unfold ShadowedOperation in E. simpl fst.
  destruct (HasGlobalVariables P) eqn:Hgv; simpl negb in E; cbv iota in E.
  2:{ injection E as <- <-. exists [LogWarning msg_no_variables].
      repeat split. }
  destruct (Z.leb_spec (ShadowLevelLimit P) (ShadowLevel w)) as [Hge|Hlt].
  { injection E as <- <-. exists [LogWarning msg_too_many_shadows].
    repeat split. }
  set (l := ShadowLevel w) in *.
  assert ((l + 1) mod 2 ^ 32 = l + 1) as Hmod by (apply Z.mod_small; lia).
  assert (to_int32 (l + 1) = l + 1) as Hi32 by (apply to_int32_small; lia).
  simpl in E. fold l in E. rewrite Hmod, Hi32 in E.
  match type of E with
  | context [Operation ?x] => set (w3 := x) in E
  end.
  assert (State_wf w3) as Hw3 by (unfold State_wf, w3; simpl; lia).
  assert (ShadowLevel w3 <= ShadowLevelLimit P) as Hle3
    by (unfold w3; simpl; lia).
  destruct (Hop w3 Hw3 Hle3) as (inner & Htr & Hlvl & Hin).
  destruct (Operation w3) as [w4 a]. subst w3. simpl in Htr, Hlvl, Hin.
  rewrite Hlvl, Hi32 in E.
  destruct (Z.ltb_spec 0 (l + 1)) as [_|Hbad]; [|lia].
  injection E as <- <-. simpl. rewrite Htr.
  exists ([CallPushState (l + 1); ShadowOpStart] ++ inner ++
          [ShadowOpEnd; CallPopState (l + 1)])%list.
  split; [|split].
  - rewrite <- !app_assoc. reflexivity.
  - lia.
  - rewrite !opens_within_app, Hin. simpl.
    destruct (Z.leb_spec (l + 1) (ShadowLevelLimit P)); [reflexivity | lia].
Qed.

(** With a limit of 1, a shadowed write nested in a shadowed call: the
    inner call is refused and only level 1 is opened. *)
Lemma ShadowedOperation_within_limit_witness :
  Setup_wf (mkSetup [] true 128 1 true) /\
  within_limit (mkSetup [] true 128 1 true)
    (fun w : State =>
       (set_Variables
          (GlobalVariables.SetInt "Game.Score" 7 (Variables w)) w, tt)) /\
  within_limit (mkSetup [] true 128 1 true)
    (ShadowedOperation GlobalVariables.PushState GlobalVariables.PopState
       (mkSetup [] true 128 1 true)
       (ShadowedOperation GlobalVariables.PushState GlobalVariables.PopState
          (mkSetup [] true 128 1 true)
          (fun w : State =>
             (set_Variables
                (GlobalVariables.SetInt "Game.Score" 7 (Variables w)) w,
              tt)) tt) tt) /\
  Trace (fst (ShadowedOperation
                GlobalVariables.PushState GlobalVariables.PopState
                (mkSetup [] true 128 1 true)
                (ShadowedOperation
                   GlobalVariables.PushState GlobalVariables.PopState
                   (mkSetup [] true 128 1 true)
                   (fun w : State =>
                      (set_Variables
                         (GlobalVariables.SetInt "Game.Score" 7 (Variables w)) w, tt)) tt)
                tt (mkState GlobalVariables.sample_store 0 None [] [])))
  = [CallPushState 1; ShadowOpStart; LogWarning msg_too_many_shadows;
     ShadowOpEnd; CallPopState 1].
Proof.
  assert (Setup_wf (mkSetup [] true 128 1 true)) as HP
    by (unfold Setup_wf; simpl; lia).
  assert (within_limit (mkSetup [] true 128 1 true)
            (fun w : State =>
               (set_Variables
                  (GlobalVariables.SetInt "Game.Score" 7 (Variables w)) w,
                tt))) as Hop.
  { intros w _ _. exists []. simpl. rewrite app_nil_r. repeat split. }
  split; [exact HP|]. split; [exact Hop|]. split.
  - exact (ShadowedOperation_within_limit
             GlobalVariables.PushState GlobalVariables.PopState _ _ tt HP
             (ShadowedOperation_within_limit
                GlobalVariables.PushState GlobalVariables.PopState _ _ tt HP
                Hop)).
  - vm_compute. reflexivity.
Defined.

End ShadowedOperations.

(** ** Exploration *)

Section ExplorationProperties.

Import FlowPlayer.

Variable E : ScriptEvaluator.
Variable Objects : gmap string Node.UDialogueNode.
Variable P : Setup.

Abbreviation Store := GlobalVariables.UDialogueGlobalVariables.
Abbreviation Shadowed :=
  (ShadowedOperation GlobalVariables.PushState GlobalVariables.PopState P).
Abbreviation enter :=
  (enter_shadow GlobalVariables.PushState).
Abbreviation leave_sh :=
  (leave_shadow GlobalVariables.PopState).
(** The three ways a shadowed call can go. *)
Lemma ShadowedOperation_unfold {A : Type} (op : State -> State * A) (c : A)
    (w : State) :
  Shadowed op c w =
  if negb (HasGlobalVariables P) then (emit (LogWarning msg_no_variables) w, c)
  else if ShadowLevelLimit P <=? ShadowLevel w
       then (emit (LogWarning msg_too_many_shadows) w, c)
       else (leave_sh (fst (op (enter w))), snd (op (enter w))).
Proof.
  unfold ShadowedOperation, enter_shadow, leave_shadow.
  destruct (negb (HasGlobalVariables P)); [reflexivity|].
  destruct (ShadowLevelLimit P <=? ShadowLevel w); [reflexivity|].
  destruct (op _) as [w4 a]. reflexivity.
Qed.

(** *** Exploration always returns *)

Lemma join_Some (a b : Out) :
  (exists x, a = Some x) -> (exists y, b = Some y) -> exists z, join a b = Some z.
Proof. intros [x ->] [y ->]. eexists. reflexivity. Qed.

Lemma tag_failed_Some (o : Out) :
  (exists x, o = Some x) -> exists y, tag_failed P o = Some y.
Proof. intros [x ->]. eexists. reflexivity. Qed.

Lemma include_current_Some (n : Node.UDialogueNode) (inc : bool) (o : Out) :
  (exists x, o = Some x) -> exists y, include_current n inc o = Some y.
Proof. intros [x ->]. destruct inc; eexists; reflexivity. Qed.

Lemma ExploreConnection_returns (rec : Rec) (d : Z) :
  returns_at rec (d + 1) ->
  forall c sh w, exists bs,
    snd (ExploreConnection E Objects P rec c sh d w) = Some bs.
Proof.
  intros Hrec c sh w. unfold ExploreConnection.
  destruct (Objects !! Connection.TargetNodeId c) as [t|]; [|eexists; reflexivity].
  destruct (GetTargetPin t (Connection.TargetPinIndex c)) as [pin|];
    [|eexists; reflexivity].
  destruct (Hrec t sh true w) as [bs Hbs].
  destruct (rec t sh (d + 1) true w) as [w1 o]. simpl in *. subst o.
  destruct (EvaluatePin E pin (Variables w)); [eexists; reflexivity|].
  apply tag_failed_Some. eexists; reflexivity.
Qed.

Lemma ExploreConnections_returns (rec : Rec) (d : Z) :
  returns_at rec (d + 1) ->
  forall cs sh w, exists bs,
    snd (ExploreConnections E Objects P rec cs sh d w) = Some bs.
Proof.
  intros Hrec cs sh. induction cs as [|c r IH]; intros w.
  - eexists; reflexivity.
  - simpl. pose proof (ExploreConnection_returns rec d Hrec c sh w) as H1.
    destruct (ExploreConnection E Objects P rec c sh d w) as [w1 o1].
    specialize (IH w1).
    destruct (ExploreConnections E Objects P rec r sh d w1) as [w2 o2].
    simpl in *. apply join_Some; assumption.
Qed.

Lemma ExplorePins_returns (rec : Rec) (d : Z) :
  returns_at rec (d + 1) ->
  forall pins sh w, exists bs,
    snd (ExplorePins E Objects P rec pins sh d w) = Some bs.
Proof.
  intros Hrec pins sh. induction pins as [|pin r IH]; intros w.
  - eexists; reflexivity.
  - simpl.
    pose proof (ExploreConnections_returns rec d Hrec
                  (OutputPin.Connections pin) sh w) as H1.
    destruct (ExploreConnections E Objects P rec _ sh d w) as [w1 o1].
    specialize (IH w1).
    destruct (ExplorePins E Objects P rec r sh d w1) as [w2 o2].
    simpl in *. apply join_Some; assumption.
Qed.

Lemma TraverseNode_returns (rec : Rec) (d : Z) :
  returns_at rec (d + 1) ->
  forall n sh inc w, exists bs,
    snd (TraverseNode E Objects P rec n sh d inc w) = Some bs.
Proof.
  intros Hrec n sh inc w. unfold TraverseNode.
  destruct (Node.Kind n) as [sp au|sp au|dn|dn|sc|sc|tid tpin].
  1-4: (pose proof (ExplorePins_returns rec d Hrec (Node.OutputPins n) sh w) as H;
        destruct (ExplorePins E Objects P rec _ sh d w) as [w1 o]; simpl in *;
        apply include_current_Some, H).
  - pose proof (ExplorePins_returns rec d Hrec (firstn 1 (Node.OutputPins n)) sh w)
      as H.
    destruct (ExplorePins E Objects P rec _ sh d w) as [w1 o]. simpl in *.
    apply include_current_Some.
    destruct (evaluate E (Expression sc) (Variables w));
      [exact H | apply tag_failed_Some, H].
  - pose proof (ExplorePins_returns rec d Hrec (firstn 1 (Node.OutputPins n)) sh
                  (set_Variables (execute E (Expression sc) (Variables w)) w))
      as H.
    destruct (ExplorePins E Objects P rec _ sh d _) as [w1 o]. simpl in *.
    apply include_current_Some, H.
  - destruct (Objects !! tid) as [t|]; [apply Hrec|eexists; reflexivity].
Qed.

Lemma ShadowedOperation_returns (op : State -> State * Out) (w : State) :
  (forall w', exists bs, snd (op w') = Some bs) ->
  exists bs, snd (Shadowed op (Some []) w) = Some bs.
Proof.
  intros Hop. rewrite ShadowedOperation_unfold.
  destruct (negb (HasGlobalVariables P)); [eexists; reflexivity|].
  destruct (ShadowLevelLimit P <=? ShadowLevel w); [eexists; reflexivity|].
  apply Hop.
Qed.

(** With a budget above [ExploreLimit + 1 - Depth] the recursion never
    runs dry. *)
Lemma Explore_returns (fuel : nat) :
  forall n sh d inc w,
    (Z.to_nat (ExploreLimit P + 1 - d) < fuel)%nat ->
    exists bs, snd (Explore E Objects P fuel n sh d inc w) = Some bs.
Proof.
  induction fuel as [|fuel IH]; intros n sh d inc w Hfuel; [lia|].
  simpl.
  destruct (Z.ltb_spec (ExploreLimit P) d) as [Hover|Hin];
    [eexists; reflexivity|].
  destruct (pauses_here P n d inc); [eexists; reflexivity|].
  assert (returns_at (Explore E Objects P fuel) (d + 1)) as Hrec.
  { intros t s i w'. apply IH. lia. }
  destruct (sh || is_instruction n).
  - apply ShadowedOperation_returns. intros w'.
    apply TraverseNode_returns, Hrec.
  - apply TraverseNode_returns, Hrec.
Qed.

(** *** A larger budget changes nothing *)

Lemma Explore_S (fuel : nat) (n : Node.UDialogueNode) (sh : bool) (d : Z)
    (inc : bool) (w : State) :
  Explore E Objects P (S fuel) n sh d inc w =
  if ExploreLimit P <? d then (emit (LogWarning msg_depth_limit) w, Some [])
  else if pauses_here P n d inc then
    (w, Some [ {| Path := [n]; bIsValid := true; Index := -1 |} ])
  else if sh || is_instruction n then
    Shadowed (TraverseNode E Objects P (Explore E Objects P fuel) n sh d inc)
             (Some []) w
  else TraverseNode E Objects P (Explore E Objects P fuel) n sh d inc w.
Proof. reflexivity. Qed.

Lemma tag_failed_is_Some (o : Out) : is_Some (tag_failed P o) -> is_Some o.
Proof. destruct o; [eauto | intros [x Hx]; discriminate Hx]. Qed.

Lemma join_is_Some (a b : Out) : is_Some (join a b) -> is_Some a /\ is_Some b.
Proof.
  destruct a, b; simpl; intros [x Hx]; try discriminate Hx; split; eauto.
Qed.

Lemma include_current_is_Some (n : Node.UDialogueNode) (inc : bool) (o : Out) :
  is_Some (include_current n inc o) -> is_Some o.
Proof.
  destruct o; [eauto|]. destruct inc; intros [x Hx]; discriminate Hx.
Qed.

Lemma ExploreConnection_refines (rec1 rec2 : Rec) (d : Z) :
  refines_at rec1 rec2 (d + 1) ->
  forall c sh w,
    is_Some (snd (ExploreConnection E Objects P rec1 c sh d w)) ->
    ExploreConnection E Objects P rec2 c sh d w =
    ExploreConnection E Objects P rec1 c sh d w.
Proof.
  intros Hrec c sh w. unfold ExploreConnection.
  destruct (Objects !! Connection.TargetNodeId c) as [t|]; [|reflexivity].
  destruct (GetTargetPin t (Connection.TargetPinIndex c)) as [pin|];
    [|reflexivity].
  intros Hs. rewrite (Hrec t sh true w); [reflexivity|].
  destruct (rec1 t sh (d + 1) true w) as [w1 o]. simpl in *.
  destruct (EvaluatePin E pin (Variables w));
    [exact Hs | apply tag_failed_is_Some, Hs].
Qed.

Lemma ExploreConnections_refines (rec1 rec2 : Rec) (d : Z) :
  refines_at rec1 rec2 (d + 1) ->
  forall cs sh w,
    is_Some (snd (ExploreConnections E Objects P rec1 cs sh d w)) ->
    ExploreConnections E Objects P rec2 cs sh d w =
    ExploreConnections E Objects P rec1 cs sh d w.
Proof.
  intros Hrec cs sh. induction cs as [|c r IH]; intros w Hs; [reflexivity|].
  simpl in *.
  pose proof (ExploreConnection_refines rec1 rec2 d Hrec c sh w) as H1.
  destruct (ExploreConnection E Objects P rec1 c sh d w) as [w1 o1].
  specialize (IH w1).
  destruct (ExploreConnections E Objects P rec1 r sh d w1) as [w2 o2].
  simpl in *. apply join_is_Some in Hs as [Ho1 Ho2].
  rewrite (H1 Ho1), (IH Ho2). reflexivity.
Qed.

Lemma ExplorePins_refines (rec1 rec2 : Rec) (d : Z) :
  refines_at rec1 rec2 (d + 1) ->
  forall pins sh w,
    is_Some (snd (ExplorePins E Objects P rec1 pins sh d w)) ->
    ExplorePins E Objects P rec2 pins sh d w =
    ExplorePins E Objects P rec1 pins sh d w.
Proof.
  intros Hrec pins sh. induction pins as [|pin r IH]; intros w Hs;
    [reflexivity|].
  simpl in *.
  pose proof (ExploreConnections_refines rec1 rec2 d Hrec
                (OutputPin.Connections pin) sh w) as H1.
  destruct (ExploreConnections E Objects P rec1 _ sh d w) as [w1 o1].
  specialize (IH w1).
  destruct (ExplorePins E Objects P rec1 r sh d w1) as [w2 o2].
  simpl in *. apply join_is_Some in Hs as [Ho1 Ho2].
  rewrite (H1 Ho1), (IH Ho2). reflexivity.
Qed.

Lemma TraverseNode_refines (rec1 rec2 : Rec) (d : Z) :
  refines_at rec1 rec2 (d + 1) ->
  forall n sh inc w,
    is_Some (snd (TraverseNode E Objects P rec1 n sh d inc w)) ->
    TraverseNode E Objects P rec2 n sh d inc w =
    TraverseNode E Objects P rec1 n sh d inc w.
Proof.
  intros Hrec n sh inc w. unfold TraverseNode.
  destruct (Node.Kind n) as [sp au|sp au|dn|dn|sc|sc|tid tpin].
  1-4: (intros Hs;
        pose proof (ExplorePins_refines rec1 rec2 d Hrec
                      (Node.OutputPins n) sh w) as H;
        destruct (ExplorePins E Objects P rec1 _ sh d w) as [w1 o];
        simpl in *; apply include_current_is_Some in Hs;
        rewrite (H Hs); reflexivity).
  - intros Hs.
    pose proof (ExplorePins_refines rec1 rec2 d Hrec
                  (firstn 1 (Node.OutputPins n)) sh w) as H.
    destruct (ExplorePins E Objects P rec1 _ sh d w) as [w1 o].
    simpl in *. apply include_current_is_Some in Hs.
    rewrite H; [reflexivity|].
    destruct (evaluate E (Expression sc) (Variables w));
      [exact Hs | apply tag_failed_is_Some, Hs].
  - intros Hs.
    pose proof (ExplorePins_refines rec1 rec2 d Hrec
                  (firstn 1 (Node.OutputPins n)) sh
                  (set_Variables (execute E (Expression sc) (Variables w)) w))
      as H.
    destruct (ExplorePins E Objects P rec1 _ sh d _) as [w1 o].
    simpl in *. apply include_current_is_Some in Hs.
    rewrite (H Hs). reflexivity.
  - destruct (Objects !! tid) as [t|]; [apply Hrec|reflexivity].
Qed.

Lemma ShadowedOperation_refines (op1 op2 : State -> State * Out) (c : Out)
    (w : State) :
  (forall w', is_Some (snd (op1 w')) -> op2 w' = op1 w') ->
  is_Some (snd (Shadowed op1 c w)) ->
  Shadowed op2 c w = Shadowed op1 c w.
Proof.
  intros Hop. rewrite !ShadowedOperation_unfold.
  destruct (negb (HasGlobalVariables P)); [reflexivity|].
  destruct (ShadowLevelLimit P <=? ShadowLevel w); [reflexivity|].
  simpl. intros Hs. rewrite (Hop _ Hs). reflexivity.
Qed.

(** Where exploration returned branches, one more level of budget gives
    the same state and the same branches. *)
Lemma Explore_more_fuel (fuel : nat) :
  forall d, refines_at (Explore E Objects P fuel) (Explore E Objects P (S fuel)) d.
Proof.
  induction fuel as [|fuel IH]; intros d n sh inc w Hs.
  - destruct Hs as [x Hx]. discriminate Hx.
  - rewrite (Explore_S (S fuel)). rewrite Explore_S in Hs |- *.
    destruct (ExploreLimit P <? d); [reflexivity|].
    destruct (pauses_here P n d inc); [reflexivity|].
    destruct (sh || is_instruction n).
    + apply ShadowedOperation_refines; [|exact Hs].
      intros w' Hs'. apply TraverseNode_refines; [apply IH | exact Hs'].
    + apply TraverseNode_refines; [apply IH | exact Hs].
Qed.

(** C3. A call of [Explore] with a depth above [ExploreLimit] writes
    the depth-limit warning and returns no branch.  Hence on any graph,
    cyclic or not, and from any depth, exploration returns branches
    within a nesting of [ExploreLimit + 2 - Depth] calls, and a larger
    budget gives the same state and branches: the budget is not what
    ends the exploration, the guard is.  A truncated exploration differs
    from one that found nothing by the warning in the trace. *)
Theorem Explore_depth_bound :
  (forall fuel n sh d inc w,
     ExploreLimit P < d ->
     Explore E Objects P (S fuel) n sh d inc w
       = (emit (LogWarning msg_depth_limit) w, Some []) /\
     Trace (fst (Explore E Objects P (S fuel) n sh d inc w))
       = Trace w ++ [LogWarning msg_depth_limit]) /\
  (forall fuel n sh d inc w,
     (Z.to_nat (ExploreLimit P + 1 - d) < fuel)%nat ->
     (exists bs, snd (Explore E Objects P fuel n sh d inc w) = Some bs) /\
     Explore E Objects P (S fuel) n sh d inc w
       = Explore E Objects P fuel n sh d inc w) /\
  (forall n sh d inc w,
     exists bs,
       snd (Explore E Objects P (explore_budget P d) n sh d inc w) = Some bs) /\
  (forall d, 0 <= d ->
     Z.of_nat (explore_budget P d) <= Z.max 0 (ExploreLimit P) + 2).
Proof.
  split; [|split; [|split]].
  - intros fuel n sh d inc w Hover. rewrite Explore_S.
    destruct (Z.ltb_spec (ExploreLimit P) d); [|lia]. split; reflexivity.
  - intros fuel n sh d inc w Hfuel.
    pose proof (Explore_returns fuel n sh d inc w Hfuel) as [bs Hbs].
    split; [exists bs; exact Hbs|].
    apply Explore_more_fuel. rewrite Hbs. eauto.
  - intros n sh d inc w. apply Explore_returns. unfold explore_budget. lia.
  - intros d Hd. unfold explore_budget. lia.
Qed.

(** *** A shadowed exploration gives the store back *)

Lemma same_frame_refl (w : State) : same_frame w w.
Proof. split; reflexivity. Qed.

Lemma same_frame_trans (w1 w2 w3 : State) :
  same_frame w1 w2 -> same_frame w2 w3 -> same_frame w1 w3.
Proof. intros [H1 H2] [H3 H4]. split; congruence. Qed.

Lemma same_frame_wf (w w' : State) :
  same_frame w w' -> State_wf w -> State_wf w'.
Proof. intros [_ Hl]. unfold State_wf. rewrite Hl. trivial. Qed.

Lemma ExploreConnection_keeps (rec : Rec) :
  keeps_frame rec ->
  forall c d w, State_wf w ->
    same_frame w (fst (ExploreConnection E Objects P rec c true d w)).
Proof.
  intros Hrec c d w Hw. unfold ExploreConnection.
  destruct (Objects !! Connection.TargetNodeId c) as [t|];
    [|apply same_frame_refl].
  destruct (GetTargetPin t (Connection.TargetPinIndex c)) as [pin|];
    [|apply same_frame_refl].
  specialize (Hrec t (d + 1) true w Hw).
  destruct (rec t true (d + 1) true w) as [w1 o]. exact Hrec.
Qed.

Lemma ExploreConnections_keeps (rec : Rec) :
  keeps_frame rec ->
  forall cs d w, State_wf w ->
    same_frame w (fst (ExploreConnections E Objects P rec cs true d w)).
Proof.
  intros Hrec cs d. induction cs as [|c r IH]; intros w Hw.
  - apply same_frame_refl.
  - simpl. pose proof (ExploreConnection_keeps rec Hrec c d w Hw) as H1.
    destruct (ExploreConnection E Objects P rec c true d w) as [w1 o1].
    simpl in H1. specialize (IH w1 (same_frame_wf _ _ H1 Hw)).
    destruct (ExploreConnections E Objects P rec r true d w1) as [w2 o2].
    simpl in *. eapply same_frame_trans; eassumption.
Qed.

Lemma ExplorePins_keeps (rec : Rec) :
  keeps_frame rec ->
  forall pins d w, State_wf w ->
    same_frame w (fst (ExplorePins E Objects P rec pins true d w)).
Proof.
  intros Hrec pins d. induction pins as [|pin r IH]; intros w Hw.
  - apply same_frame_refl.
  - simpl.
    pose proof (ExploreConnections_keeps rec Hrec
                  (OutputPin.Connections pin) d w Hw) as H1.
    destruct (ExploreConnections E Objects P rec _ true d w) as [w1 o1].
    simpl in H1. specialize (IH w1 (same_frame_wf _ _ H1 Hw)).
    destruct (ExplorePins E Objects P rec r true d w1) as [w2 o2].
    simpl in *. eapply same_frame_trans; eassumption.
Qed.

Lemma TraverseNode_keeps (rec : Rec) :
  writes_values_only E ->
  keeps_frame rec ->
  forall n d inc w, State_wf w ->
    same_frame w (fst (TraverseNode E Objects P rec n true d inc w)).
Proof.
  intros HE Hrec n d inc w Hw. unfold TraverseNode.
  destruct (Node.Kind n) as [sp au|sp au|dn|dn|sc|sc|tid tpin].
  1-5: (match goal with
        | |- context [ExplorePins _ _ _ _ ?pins _ _ _] =>
            pose proof (ExplorePins_keeps rec Hrec pins d w Hw) as H;
            destruct (ExplorePins E Objects P rec pins true d w) as [w1 o]
        end; exact H).
  - set (w0 := set_Variables (execute E (Expression sc) (Variables w)) w).
    assert (same_frame w w0) as H0 by (split; [apply HE|reflexivity]).
    pose proof (ExplorePins_keeps rec Hrec (firstn 1 (Node.OutputPins n)) d w0
                  (same_frame_wf _ _ H0 Hw)) as H.
    destruct (ExplorePins E Objects P rec _ true d w0) as [w1 o]. simpl in *.
    eapply same_frame_trans; eassumption.
  - destruct (Objects !! tid) as [t|]; [apply Hrec, Hw|split; reflexivity].
Qed.

(** A shadowed call around an operation that keeps the frame gives back
    the very store it was called with. *)
Lemma ShadowedOperation_restores_store {A : Type} (op : State -> State * A)
    (c : A) (w : State) :
  Setup_wf P -> State_wf w ->
  (forall w', State_wf w' -> same_frame w' (fst (op w'))) ->
  Variables (fst (Shadowed op c w)) = Variables w /\
  ShadowLevel (fst (Shadowed op c w)) = ShadowLevel w.
Proof.
  intros [_ Hlim] Hw Hop. unfold State_wf in Hw.
  rewrite ShadowedOperation_unfold.
  destruct (negb (HasGlobalVariables P)); [split; reflexivity|].
  destruct (Z.leb_spec (ShadowLevelLimit P) (ShadowLevel w)) as [Hge|Hlt];
    [split; reflexivity|].
  set (l := ShadowLevel w) in *.
  assert ((l + 1) mod 2 ^ 32 = l + 1) as Hmod by (apply Z.mod_small; lia).
  assert (to_int32 (l + 1) = l + 1) as Hi32 by (apply to_int32_small; lia).
  assert (ShadowLevel (enter w) = l + 1) as Hel.
  { unfold enter_shadow. simpl. fold l. exact Hmod. }
  assert (Variables (enter w) =
          GlobalVariables.PushState (l + 1) (Variables w)) as Hev.
  { unfold enter_shadow. simpl. fold l. rewrite Hmod, Hi32. reflexivity. }
  assert (State_wf (enter w)) as Hwe by (unfold State_wf; rewrite Hel; lia).
  destruct (Hop (enter w) Hwe) as [Hf Hl4].
  set (w4 := fst (op (enter w))) in *. simpl fst.
  rewrite Hel in Hl4. rewrite Hev in Hf.
  unfold leave_shadow. simpl ShadowLevel. rewrite Hl4, Hi32.
  destruct (Z.ltb_spec 0 (l + 1)); [|lia]. simpl. split; [|lia].
  apply (PopState_recover (l + 1) (l + 1)). exact Hf.
Qed.

Lemma Explore_shadowed_restores (fuel : nat) :
  Setup_wf P -> writes_values_only E ->
  forall n d inc w, State_wf w ->
    Variables (fst (Explore E Objects P fuel n true d inc w)) = Variables w /\
    ShadowLevel (fst (Explore E Objects P fuel n true d inc w)) = ShadowLevel w.
Proof.
  intros HP HE. induction fuel as [|fuel IH]; intros n d inc w Hw.
  - split; reflexivity.
  - simpl. destruct (ExploreLimit P <? d); [split; reflexivity|].
    destruct (pauses_here P n d inc); [split; reflexivity|].
    apply ShadowedOperation_restores_store; try assumption.
    intros w' Hw'. apply TraverseNode_keeps; try assumption.
    intros t d' i w'' Hw''. destruct (IH t d' i w'' Hw'') as [Hv Hl].
    split; [rewrite Hv; reflexivity | exact Hl].
Qed.

(** *** Committing a branch *)

Lemma arrive_cons (prev : option Node.UDialogueNode) (n : Node.UDialogueNode)
    (r : list Node.UDialogueNode) :
  arrive prev (n :: r) = arrive (Some n) r.
Proof. unfold arrive. rewrite last_cons. destruct (last r); reflexivity. Qed.

Lemma Commit_app (a b : list Node.UDialogueNode) :
  forall prev g,
    Commit E prev (a ++ b) g = Commit E (arrive prev a) b (Commit E prev a g).
Proof.
  induction a as [|n r IH]; intros prev g; [reflexivity|].
  simpl. rewrite IH, arrive_cons. reflexivity.
Qed.

Lemma quiet_Commit (path : list Node.UDialogueNode) :
  forall prev g, quiet prev path = true -> Commit E prev path g = g.
Proof.
  induction path as [|n r IH]; intros prev g Hq; [reflexivity|].
  simpl in Hq. apply andb_prop in Hq as [Hq Hr].
  apply andb_prop in Hq as [Hn Hp]. simpl. rewrite (IH _ _ Hr).
  assert (leave E prev n g = g) as ->.
  { unfold leave. destruct prev as [p|]; [|reflexivity].
    destruct (exit_pin p n) as [pin|]; [|reflexivity].
    unfold ExecutePin. destruct (has_script (OutputPin.Script pin));
      [discriminate Hp | reflexivity]. }
  unfold ExecuteNode. unfold is_instruction in Hn.
  destruct (Node.Kind n); try reflexivity. discriminate Hn.
Qed.

Lemma PlayBranch_through_instruction (b : FDialogueBranch) (w : State)
    (pre post : list Node.UDialogueNode) (I : Node.UDialogueNode)
    (sc : FDialogueScript) :
  Path b = pre ++ I :: post ->
  Node.Kind I = Instruction sc ->
  quiet (Some I) post = true ->
  Variables (PlayBranch E b w) =
    execute E (Expression sc)
      (leave E (arrive (Cursor w) pre) I (Commit E (Cursor w) pre (Variables w))) /\
  ShadowLevel (PlayBranch E b w) = ShadowLevel w /\
  Trace (PlayBranch E b w) = Trace w.
Proof.
  intros Hpath HI Hq. unfold PlayBranch, GetTarget. rewrite Hpath.
  destruct (last (pre ++ I :: post)) as [t|] eqn:Hl.
  - simpl. repeat split. rewrite Commit_app. simpl.
    rewrite (quiet_Commit _ _ _ Hq). unfold ExecuteNode. rewrite HI. reflexivity.
  - apply last_None in Hl. destruct pre; discriminate Hl.
Qed.

Lemma UpdateAvailableBranchesInternal_restores (bIsStartup : bool) (w : State) :
  Setup_wf P -> writes_values_only E -> State_wf w ->
  Variables (UpdateAvailableBranchesInternal E Objects P bIsStartup w)
    = Variables w /\
  ShadowLevel (UpdateAvailableBranchesInternal E Objects P bIsStartup w)
    = ShadowLevel w.
Proof.
  intros HP HE Hw. unfold UpdateAvailableBranchesInternal.
  destruct (Cursor w) as [n|]; [|split; reflexivity].
  pose proof (Explore_shadowed_restores (explore_budget P 0) HP HE
                n 0 bIsStartup w Hw) as H.
  destruct (Explore E Objects P (explore_budget P 0) n true 0 bIsStartup w)
    as [w1 o]. exact H.
Qed.

(** C2. Let the script evaluator act on the store through writes of
    live values only.  Then [UpdateAvailableBranches] returns with the
    store (and the shadow level) it was called with, whatever
    instructions the exploration from the cursor ran: every variable has
    its value from before the call.  [PlayBranch] on a branch whose path
    runs through an instruction node, with nothing effectful after it,
    returns with the store that instruction produced: no store call
    follows to take the write back, and [Play] does the same for the
    branch it is given by index. *)
Theorem commit_isolation :
  Setup_wf P -> writes_values_only E ->
  (forall (bIsStartup : bool) (w : State), State_wf w ->
     Variables (UpdateAvailableBranchesInternal E Objects P bIsStartup w)
       = Variables w /\
     ShadowLevel (UpdateAvailableBranchesInternal E Objects P bIsStartup w)
       = ShadowLevel w) /\
  (forall w : State, State_wf w ->
     Variables (UpdateAvailableBranches E Objects P w) = Variables w) /\
  (forall (b : FDialogueBranch) (w : State)
          (pre post : list Node.UDialogueNode) (I : Node.UDialogueNode)
          (sc : FDialogueScript),
     Path b = pre ++ I :: post ->
     Node.Kind I = Instruction sc ->
     quiet (Some I) post = true ->
     Variables (PlayBranch E b w) =
       execute E (Expression sc)
         (leave E (arrive (Cursor w) pre) I
            (Commit E (Cursor w) pre (Variables w))) /\
     ShadowLevel (PlayBranch E b w) = ShadowLevel w /\
     Trace (PlayBranch E b w) = Trace w) /\
  (forall (i : Z) (b : FDialogueBranch) (w : State),
     0 <= i -> AvailableBranches w !! Z.to_nat i = Some b ->
     Play E i w = PlayBranch E b w).
Proof.
  intros HP HE. split; [|split; [|split]].
  - intros bIsStartup w Hw.
    apply UpdateAvailableBranchesInternal_restores; assumption.
  - intros w Hw.
    exact (proj1 (UpdateAvailableBranchesInternal_restores false w HP HE Hw)).
  - intros b w pre post I sc Hpath HI Hq.
    apply (PlayBranch_through_instruction b w pre post I sc); assumption.
  - intros i b w Hi Hb. unfold Play.
    destruct (Z.ltb_spec i 0); [lia|]. rewrite Hb. reflexivity.
Qed.

(** *** Jumps are transparent *)















(** *** Condition gating at a hub *)

Lemma join_nil_l (o : Out) : join (Some []) o = o.
Proof. destruct o; reflexivity. Qed.






End ExplorationProperties.

Section ExplorationExamples.

Import FlowPlayer Samples.

Example end_to_end_branches :
  AvailableBranches
    (UpdateAvailableBranches sample_evaluator end_to_end
       (setup [PT_Dialogue] true 128) (start_at D1))
  = [ {| Path := [H1; D3]; bIsValid := true; Index := 0 |} ].
Proof. vm_compute. reflexivity. Qed.

Example end_to_end_invalid_kept :
  AvailableBranches
    (UpdateAvailableBranches sample_evaluator end_to_end
       (setup [PT_Dialogue] false 128) (start_at D1))
  = [ {| Path := [H1; D2]; bIsValid := false; Index := 0 |};
      {| Path := [H1; D3]; bIsValid := true; Index := 1 |} ].
Proof. vm_compute. reflexivity. Qed.

(** The instruction is run during the lookahead, so the condition behind
    it sees the score it set. *)
Example lookahead_sees_instruction :
  AvailableBranches
    (UpdateAvailableBranches sample_evaluator with_instruction
       (setup [PT_Dialogue] true 128) (start_at S1))
  = [ {| Path := [I1; D2]; bIsValid := true; Index := 0 |} ].
Proof. vm_compute. reflexivity. Qed.

Lemma sample_evaluator_writes_values_only :
  writes_values_only sample_evaluator.
Proof.
  intros e g. simpl. unfold sample_execute.
  destruct (String.eqb e "Game.Score = 10"); [|reflexivity].
  exact (frame_apply_set (GlobalVariables.OpSetInt "Game.Score" 10) g eq_refl).
Qed.

(** From [S1] the lookahead runs the instruction [I1], which sets the
    score to 10; after [UpdateAvailableBranches] the score is 3 as
    before, and after [Play 0] it is 10. *)
Lemma commit_isolation_witness :
  Setup_wf (setup [PT_Dialogue] true 128) /\
  writes_values_only sample_evaluator /\
  State_wf (start_at S1) /\
  GlobalVariables.GetVariable
    (Variables (UpdateAvailableBranches sample_evaluator with_instruction
                  (setup [PT_Dialogue] true 128) (start_at S1)))
    "Game.Score" = Some (GlobalVariables.IntVariable "Game.Score" 3 []) /\
  GlobalVariables.GetVariable
    (Variables (PlayBranch sample_evaluator
                  {| Path := [I1; D2]; bIsValid := true; Index := 0 |}
                  (start_at S1)))
    "Game.Score" = Some (GlobalVariables.IntVariable "Game.Score" 10 []).
Proof.
  assert (Setup_wf (setup [PT_Dialogue] true 128)) as HP
    by (unfold Setup_wf; simpl; lia).
  assert (State_wf (start_at S1)) as Hw by (unfold State_wf; simpl; lia).
  destruct (commit_isolation sample_evaluator with_instruction
              (setup [PT_Dialogue] true 128) HP
              sample_evaluator_writes_values_only)
    as (_ & Hupd & Hplay & _).
  split; [exact HP|]. split; [exact sample_evaluator_writes_values_only|].
  split; [exact Hw|]. split.
  - rewrite (Hupd (start_at S1) Hw). vm_compute. reflexivity.
  - destruct (Hplay {| Path := [I1; D2]; bIsValid := true; Index := 0 |}
                (start_at S1) [] [D2] I1 (script "Game.Score = 10" false)
                eq_refl eq_refl eq_refl) as (Hv & _).
    rewrite Hv. vm_compute. reflexivity.
Defined.

Example play_after_update :
  GlobalVariables.GetVariable
    (Variables (Play sample_evaluator 0
                  (UpdateAvailableBranches sample_evaluator with_instruction
                     (setup [PT_Dialogue] true 128) (start_at S1))))
    "Game.Score" = Some (GlobalVariables.IntVariable "Game.Score" 10 []).
Proof. vm_compute. reflexivity. Qed.

(** A cycle of three hubs with [ExploreLimit = 4]: a call at depth 5 is
    cut by the guard, and the exploration from depth 0 returns, with the
    warning in its trace. *)
Lemma Explore_depth_bound_witness :
  ExploreLimit (setup [PT_Dialogue] true 4) < 5 /\
  Explore sample_evaluator cycle (setup [PT_Dialogue] true 4) 1
    X false 5 true (start_at X)
  = (emit (LogWarning msg_depth_limit) (start_at X), Some []) /\
  (Z.to_nat (ExploreLimit (setup [PT_Dialogue] true 4) + 1 - 0) < 6)%nat /\
  (exists bs,
     snd (Explore sample_evaluator cycle (setup [PT_Dialogue] true 4) 6
            X false 0 false (start_at X)) = Some bs) /\
  Explore sample_evaluator cycle (setup [PT_Dialogue] true 4) 7
    X false 0 false (start_at X)
  = Explore sample_evaluator cycle (setup [PT_Dialogue] true 4) 6
      X false 0 false (start_at X).
Proof.
  assert (ExploreLimit (setup [PT_Dialogue] true 4) < 5) as Hover
    by (simpl; lia).
  assert (Z.to_nat (ExploreLimit (setup [PT_Dialogue] true 4) + 1 - 0) < 6)%nat
    as Hfuel by (simpl; lia).
  destruct (Explore_depth_bound sample_evaluator cycle
              (setup [PT_Dialogue] true 4)) as (Hguard & Hret & _ & _).
  split; [exact Hover|].
  split; [exact (proj1 (Hguard 0%nat X false 5 true (start_at X) Hover))|].
  split; [exact Hfuel|].
  exact (Hret 6%nat X false 0 false (start_at X) Hfuel).
Defined.

Example cycle_is_cut_with_a_warning :
  Explore sample_evaluator cycle (setup [PT_Dialogue] true 4)
    (explore_budget (setup [PT_Dialogue] true 4) 0) X false 0 false (start_at X)
  = (emit (LogWarning msg_depth_limit) (start_at X), Some []).
Proof. vm_compute. reflexivity. Qed.

(** Shadowed, the same cycle with room for 128 levels is cut by the
    shadow level limit of 10 first. *)
Example shadowed_cycle_is_cut :
  filter (fun e => is_warning e = true)
    (Trace (UpdateAvailableBranches sample_evaluator cycle
              (setup [PT_Dialogue] true 128) (start_at X)))
  = [LogWarning msg_too_many_shadows].
Proof. vm_compute. reflexivity. Qed.




Example gated_hub_ignoring :
  AvailableBranches
    (UpdateAvailableBranches sample_evaluator gated
       (setup [PT_Dialogue] true 128) (start_at H2))
  = [ {| Path := [T1]; bIsValid := true; Index := 0 |} ].
Proof. vm_compute. reflexivity. Qed.

Example gated_hub_reporting :
  AvailableBranches
    (UpdateAvailableBranches sample_evaluator gated
       (setup [PT_Dialogue] false 128) (start_at H2))
  = [ {| Path := [T1]; bIsValid := true; Index := 0 |};
      {| Path := [T2]; bIsValid := false; Index := 1 |} ].
Proof. vm_compute. reflexivity. Qed.

End ExplorationExamples.
